(** * LLM code-review extension: finding parser, snippet resolver, result store

    A shallow embedding of [src/extension.ts] and [src/llm-client.ts].

    JavaScript strings are sequences of UTF-16 code units, so a string is a
    [list N]; ASCII literals are written [js "..."] and the few Japanese
    literals of the source are spelled out by code unit.  Regular expressions
    are values of a small abstract syntax, run by a backtracking matcher that
    follows the priority order of the ECMAScript pattern semantics (greedy and
    lazy quantifiers, alternatives left to right, capture groups).  Numbers
    are doubles: what [parseInt] reads and what the arithmetic gives is
    rounded as a double is, and a number is printed as [Number::toString]
    prints it. *)

From Stdlib Require Import String Ascii DecimalString DecimalN.
From Stdlib Require Import NArith ZArith Bool Arith Lia.
From Stdlib Require Import List Permutation Sorted.
Import ListNotations.
Open Scope list_scope.

(* ================================================================== *)
(** ** JavaScript strings and the string built-ins the source calls *)
(* ================================================================== *)

Module JS.

Definition jsstring := list N.

(** An ASCII literal as code units. *)
Definition js (s : string) : jsstring :=
  map N_of_ascii (list_ascii_of_string s).

Definition jsstring_eqb (a b : jsstring) : bool :=
  if list_eq_dec N.eq_dec a b then true else false.

(** [WhiteSpace] and [LineTerminator] of ECMAScript: what [trim] strips and
    what the class escape [\s] matches. *)
Definition isWhiteSpace (c : N) : bool :=
  ((9 <=? c) && (c <=? 13) || (c =? 32) || (c =? 160) || (c =? 5760)
   || (8192 <=? c) && (c <=? 8202)
   || (c =? 8232) || (c =? 8233) || (c =? 8239) || (c =? 8287)
   || (c =? 12288) || (c =? 65279))%N.

(** [LineTerminator]: what [.] refuses. *)
Definition isLineTerminator (c : N) : bool :=
  ((c =? 10) || (c =? 13) || (c =? 8232) || (c =? 8233))%N.

Definition isDigit (c : N) : bool := ((48 <=? c) && (c <=? 57))%N.

Fixpoint trimStart (s : jsstring) : jsstring :=
  match s with
  | c :: t => if isWhiteSpace c then trimStart t else s
  | [] => []
  end.

Definition trimEnd (s : jsstring) : jsstring := rev (trimStart (rev s)).

(** [String.prototype.trim] *)
Definition trim (s : jsstring) : jsstring := trimEnd (trimStart s).

(** [s.split(sep)] for a one-code-unit separator. *)
Fixpoint split_on (sep : N) (s : jsstring) : list jsstring :=
  match s with
  | [] => [[]]
  | c :: t =>
      if (c =? sep)%N then [] :: split_on sep t
      else match split_on sep t with
           | w :: ws => (c :: w) :: ws
           | [] => [[c]]
           end
  end.

(** [lines.join(sep)] *)
Fixpoint join (sep : jsstring) (l : list jsstring) : jsstring :=
  match l with
  | [] => []
  | [x] => x
  | x :: rest => x ++ sep ++ join sep rest
  end.

(** [s.startsWith(p)] *)
Fixpoint startsWith (p s : jsstring) : bool :=
  match p, s with
  | [], _ => true
  | a :: p', b :: s' => (a =? b)%N && startsWith p' s'
  | _ :: _, [] => false
  end.

(** [s.indexOf(w)]: the first index at which [w] occurs, [None] for -1. *)
Fixpoint indexOf_from (i : nat) (w s : jsstring) : option nat :=
  if startsWith w s then Some i
  else match s with
       | [] => None
       | _ :: t => indexOf_from (S i) w t
       end.

Definition indexOf (w s : jsstring) : option nat := indexOf_from 0 w s.

(** [s.includes(w)] *)
Definition includes (w s : jsstring) : bool :=
  match indexOf w s with Some _ => true | None => false end.

(** [s.substring(a, b)] for [0 <= a <= b <= s.length] *)
Definition substring (a b : nat) (s : jsstring) : jsstring :=
  firstn (b - a) (skipn a s).

(** *** Numbers

    A JS number is a double.  The numbers this program reads and computes
    are natural numbers and [+Infinity]; each is kept as its value in [N],
    and [Infinity], the power of two which the largest double rounds up to
    and which is no double itself, stands for [+Infinity].  So a number is
    any natural below 2^53 and, from there on, only one that 53 bits and a
    power of two make up. *)
Definition Infinity : N := (2 ^ 1024)%N.

(** The number nearest to a natural, as a numeric literal, [parseInt] and
    the arithmetic operators round: the natural itself up to 2^53; above,
    the 53 leading bits are kept and the [e] bits that follow are rounded
    to nearest, a tie to the even one; [Infinity] when that takes the
    result to 2^1024. *)
Definition toNumber (n : N) : N :=
  (let e := N.log2 n - 52 in
   let q := N.shiftr n e in
   let r := n - N.shiftl q e in
   let half := N.shiftl 1 (e - 1) in
   let up := negb (e =? 0) && ((half <? r) || ((r =? half) && N.odd q)) in
   N.min (N.shiftl (if up then q + 1 else q) e) Infinity)%N.

(** [x - 1] for a number [x]. *)
Definition minus1 (x : N) : Z :=
  if (x =? 0)%N then (-1)%Z else Z.of_N (toNumber (x - 1)).

(** [x + 1] for a number [x]. *)
Definition plus1 (x : N) : N := toNumber (x + 1).

(** The decimal numeral of a natural. *)
Definition decimal (n : N) : jsstring :=
  js (NilEmpty.string_of_uint (N.to_uint n)).

(** [parseInt(d, 10)] on a run of decimal digits: the number nearest to the
    natural the digits spell (the engine of the editor reads the digits as
    it reads a decimal literal). *)
Definition parseInt10 (d : jsstring) : N :=
  toNumber (fold_left (fun acc c => (acc * 10 + (c - 48))%N) d 0%N).

(** The natural with the fewest significant digits that rounds to the
    number [x] (the nearest to [x] of these, the one with the even last
    digit of two equally near): the digits [Number::toString] prints.
    [unit] is the power of ten at which the candidates are cut, one digit
    more with each step; cut at 1 the candidate is [x] itself. *)
Fixpoint shortest_from (fuel : nat) (unit x : N) : N :=
  match fuel with
  | O => x
  | S fuel' =>
      let below := (x / unit * unit)%N in
      let above := (below + unit)%N in
      match (toNumber below =? x)%N, (toNumber above =? x)%N with
      | true, true =>
          if (x - below <? above - x)%N then below
          else if (above - x <? x - below)%N then above
          else if N.even (x / unit) then below else above
      | true, false => below
      | false, true => above
      | false, false => shortest_from fuel' (unit / 10)%N x
      end
  end.

Definition shortest (x : N) : N :=
  if (x <=? 2 ^ 53)%N then x
  else let digits := length (decimal x) in
       shortest_from digits (10 ^ N.of_nat (digits - 1))%N x.

Fixpoint withoutLeadingZeros (l : jsstring) : jsstring :=
  match l with
  | c :: t => if (c =? 48)%N then withoutLeadingZeros t else l
  | [] => []
  end.

Definition withoutTrailingZeros (l : jsstring) : jsstring :=
  rev (withoutLeadingZeros (rev l)).

(** The exponential notation of a natural: its first digit, the further
    digits up to the last that is not 0 after a point, and the power of
    ten. *)
Definition exponential (v : N) : jsstring :=
  let digits := decimal v in
  match withoutTrailingZeros digits with
  | d :: ds =>
      d :: (match ds with [] => [] | _ :: _ => 46%N :: ds end)
        ++ js "e+" ++ decimal (N.of_nat (length digits - 1))
  | [] => digits
  end.

(** Number to string, as a template literal prints a number: the digits of
    [shortest], in decimal notation below 10^21 and in exponential notation
    from there on.  Up to 2^53 these are the digits of the number itself. *)
Definition Number_toString (n : N) : jsstring :=
  if (n =? Infinity)%N then js "Infinity"
  else let v := shortest n in
       if (v <? 10 ^ 21)%N then decimal v else exponential v.

(** [toUpperCase] on a string of ASCII letters (the severity capture). *)
Definition upperAscii (c : N) : N :=
  if ((97 <=? c) && (c <=? 122))%N then (c - 32)%N else c.

Definition toUpperCase (s : jsstring) : jsstring := map upperAscii s.

End JS.

(* ================================================================== *)
(** ** Regular expressions *)
(* ================================================================== *)

Module RegExp.
Import JS.

(** Pattern syntax.  [Chr p] is any single-code-unit atom (a literal, a
    class, a class escape, the dot), given by its test. *)
Inductive regex : Type :=
| Empty
| Chr (p : N -> bool)
| Seq (a b : regex)
| Alt (a b : regex)
| Star (greedy : bool) (r : regex)
| Group (i : nat) (r : regex)
| Bol
| Eol.

(** A matcher state: index into the subject, what is left of it, and the
    captures made so far (latest first). *)
Record mstate : Type := MState
  { pos : nat; rest : jsstring; caps : list (nat * jsstring) }.

Definition cont := mstate -> option mstate.

(** [r*] and [r*?].  An iteration that consumes nothing is refused, as
    RepeatMatcher does, so [fuel = length of what is left] is never the
    reason an iteration is not tried. *)
Fixpoint star_loop (greedy : bool) (step : cont -> cont) (k : cont)
         (fuel : nat) (s : mstate) : option mstate :=
  match fuel with
  | O => k s
  | S fuel' =>
      let again :=
        step (fun s' => if pos s <? pos s'
                        then star_loop greedy step k fuel' s' else None) in
      if greedy then
        match again s with Some e => Some e | None => k s end
      else
        match k s with Some e => Some e | None => again s end
  end.

(** The backtracking matcher in continuation-passing style: [m r k s] is the
    first success, in the priority order of the pattern, of matching [r] at
    [s] and then [k]. *)
Fixpoint m (r : regex) (k : cont) (s : mstate) : option mstate :=
  match r with
  | Empty => k s
  | Chr p =>
      match rest s with
      | c :: t => if p c then k (MState (S (pos s)) t (caps s)) else None
      | [] => None
      end
  | Seq a b => m a (m b k) s
  | Alt a b =>
      match m a k s with Some e => Some e | None => m b k s end
  | Star g r' => star_loop g (m r') k (length (rest s)) s
  | Group i r' =>
      m r' (fun s' =>
              k (MState (pos s') (rest s')
                        ((i, firstn (pos s' - pos s) (rest s)) :: caps s'))) s
  | Bol => if pos s =? 0 then k s else None
  | Eol => match rest s with [] => k s | _ :: _ => None end
  end.

Definition Plus (g : bool) (r : regex) : regex := Seq r (Star g r).
(** [r?] (greedy) *)
Definition Opt (r : regex) : regex := Alt r Empty.

Definition lit (c : N) : regex := Chr (fun x => (x =? c)%N).
(** A literal under the [i] flag.  For an ASCII pattern character
    Canonicalize only ever identifies it with its other ASCII case. *)
Definition lit_i (c : N) : regex :=
  Chr (fun x => (upperAscii x =? upperAscii c)%N).

Fixpoint seq_of (mk : N -> regex) (w : jsstring) : regex :=
  match w with
  | [] => Empty
  | [c] => mk c
  | c :: w' => Seq (mk c) (seq_of mk w')
  end.

Definition word (w : string) : regex := seq_of lit (js w).
Definition word_i (w : string) : regex := seq_of lit_i (js w).

Definition ws : regex := Chr isWhiteSpace.          (* \s *)
Definition digit : regex := Chr isDigit.            (* \d *)
Definition dot : regex := Chr (fun c => negb (isLineTerminator c)).  (* . *)
Definition any : regex := Chr (fun _ => true).      (* [\s\S] *)

(** One attempt at index [i], where [t] is the subject from [i] on. *)
Definition match_at (r : regex) (i : nat) (t : jsstring) : option mstate :=
  m r Some (MState i t []).

(** The leftmost match at or after [i]: start index and final state. *)
Fixpoint search (r : regex) (i : nat) (t : jsstring) : option (nat * mstate) :=
  match match_at r i t with
  | Some e => Some (i, e)
  | None => match t with
            | [] => None
            | _ :: t' => search r (S i) t'
            end
  end.

(** [re.exec(s)] / [s.match(re)] for a fresh regex (lastIndex 0). *)
Definition exec (r : regex) (s : jsstring) : option (nat * mstate) :=
  search r 0 s.

(** [re.test(s)] *)
Definition test (r : regex) (s : jsstring) : bool :=
  match exec r s with Some _ => true | None => false end.

(** Capture [i] of a match, [None] for [undefined]. *)
Fixpoint capture (i : nat) (c : list (nat * jsstring)) : option jsstring :=
  match c with
  | [] => None
  | (j, v) :: c' => if Nat.eqb i j then Some v else capture i c'
  end.

(** [s.replace(re, f)] with the [g] flag: every match, left to right, is
    replaced by [f] of the matched text; after an empty match the scan moves
    on by one code unit.  [t] is the subject from index [i] on. *)
Fixpoint replace_all_from (fuel : nat) (r : regex) (f : jsstring -> jsstring)
         (i : nat) (t : jsstring) : jsstring :=
  match fuel with
  | O => t
  | S fuel' =>
      match search r i t with
      | None => t
      | Some (j, e) =>
          let before := firstn (j - i) t in
          let matched := firstn (pos e - j) (skipn (j - i) t) in
          if pos e =? j then
            match rest e with
            | [] => before ++ f matched
            | c :: after =>
                before ++ f matched ++ c :: replace_all_from fuel' r f (S j) after
            end
          else before ++ f matched ++ replace_all_from fuel' r f (pos e) (rest e)
      end
  end.

Definition replace_all (r : regex) (f : jsstring -> jsstring) (s : jsstring)
  : jsstring :=
  replace_all_from (S (length s)) r f 0 s.

(** [s.replace(re, f)] without the [g] flag: the first match only. *)
Definition replace_first (r : regex) (f : jsstring -> jsstring) (s : jsstring)
  : jsstring :=
  match exec r s with
  | None => s
  | Some (j, e) =>
      firstn j s ++ f (firstn (pos e - j) (skipn j s)) ++ rest e
  end.

(** *** The pattern grammar

    [new RegExp(pattern)], without the [u] flag, for the patterns of a
    fragment of the grammar: alternatives of terms, a term being [^], [$] or
    an atom with or without one of the quantifiers [*], [+], [?], each
    greedy or lazy; an atom being a pattern character, [.], a class escape
    ([\s \S \d \D \w \W]) or an escaped syntax character.  Groups, character
    classes, braced quantifiers and the other escapes are not modelled: a
    pattern with one of them is [NotModelled], neither accepted nor
    rejected. *)

(** [SyntaxCharacter]: one of [^ $ \ . * + ? ( ) [ ] { } |]. *)
Definition isSyntaxCharacter (c : N) : bool :=
  existsb (N.eqb c)
          [94; 36; 92; 46; 42; 43; 63; 40; 41; 91; 93; 123; 125; 124]%N.

(** What [\w] matches. *)
Definition isWordChar (c : N) : bool :=
  ((97 <=? c) && (c <=? 122) || (65 <=? c) && (c <=? 90)
   || (48 <=? c) && (c <=? 57) || (c =? 95))%N.

Inductive token : Type :=
| Atom (r : regex)
| Assertion (r : regex)
| Quantifier (q : N)
| Bar
| Other.

(** What the constructor makes of a pattern: a regex, a [SyntaxError], or
    nothing this model says. *)
Inductive parsed (A : Type) : Type :=
| Accepted (a : A)
| Rejected
| NotModelled.
Arguments Accepted {A} a.
Arguments Rejected {A}.
Arguments NotModelled {A}.

Definition parsed_map {A B} (f : A -> B) (x : parsed A) : parsed B :=
  match x with
  | Accepted a => Accepted (f a)
  | Rejected => Rejected
  | NotModelled => NotModelled
  end.

(** A code unit that is not escaped.  Without the [u] flag a [\]] and a
    [}] that close nothing are pattern characters. *)
Definition charToken (c : N) : token :=
  if (c =? 94)%N then Assertion Bol
  else if (c =? 36)%N then Assertion Eol
  else if (c =? 46)%N then Atom dot
  else if ((c =? 42) || (c =? 43) || (c =? 63))%N then Quantifier c
  else if (c =? 124)%N then Bar
  else if ((c =? 40) || (c =? 41) || (c =? 91) || (c =? 123))%N then Other
  else Atom (lit c).

(** The code unit after a backslash. *)
Definition escapeToken (d : N) : token :=
  if isSyntaxCharacter d || (d =? 47)%N then Atom (lit d)
  else if (d =? 115)%N then Atom ws
  else if (d =? 83)%N then Atom (Chr (fun c => negb (isWhiteSpace c)))
  else if (d =? 100)%N then Atom digit
  else if (d =? 68)%N then Atom (Chr (fun c => negb (isDigit c)))
  else if (d =? 119)%N then Atom (Chr isWordChar)
  else if (d =? 87)%N then Atom (Chr (fun c => negb (isWordChar c)))
  else Other.

(** A pattern ending in a lone backslash is rejected. *)
Fixpoint tokens (p : jsstring) : parsed (list token) :=
  match p with
  | [] => Accepted []
  | c :: p1 =>
      if (c =? 92)%N then
        match p1 with
        | [] => Rejected
        | d :: p2 => parsed_map (cons (escapeToken d)) (tokens p2)
        end
      else parsed_map (cons (charToken c)) (tokens p1)
  end.

Definition quantify (q : N) (greedy : bool) (a : regex) : regex :=
  if (q =? 42)%N then Star greedy a
  else if (q =? 43)%N then Plus greedy a
  else if greedy then Alt a Empty else Alt Empty a.

(** A term in front of the alternatives that follow it: it goes in front
    of the first. *)
Definition term (r : regex) (rest : parsed (list regex))
  : parsed (list regex) :=
  parsed_map (fun alts => match alts with
                          | a :: alts' => Seq r a :: alts'
                          | [] => [r]
                          end) rest.

(** The alternatives of a pattern.  A quantifier with nothing to repeat
    is rejected. *)
Fixpoint alternatives (ts : list token) : parsed (list regex) :=
  match ts with
  | [] => Accepted [Empty]
  | Bar :: ts1 => parsed_map (cons Empty) (alternatives ts1)
  | Other :: _ => NotModelled
  | Quantifier _ :: _ => Rejected
  | Assertion r :: ts1 => term r (alternatives ts1)
  | Atom a :: ts1 =>
      match ts1 with
      | Quantifier q :: ts2 =>
          match ts2 with
          | Quantifier q' :: ts3 =>
              if (q' =? 63)%N then term (quantify q false a) (alternatives ts3)
              else Rejected
          | _ => term (quantify q true a) (alternatives ts2)
          end
      | _ => term a (alternatives ts1)
      end
  end.

Fixpoint disjunction (alts : list regex) : regex :=
  match alts with
  | [] => Empty
  | [a] => a
  | a :: alts' => Alt a (disjunction alts')
  end.

Definition parsePattern (p : jsstring) : parsed regex :=
  match tokens p with
  | Accepted ts => parsed_map disjunction (alternatives ts)
  | Rejected => Rejected
  | NotModelled => NotModelled
  end.

End RegExp.

(* ================================================================== *)
(** ** The editor's document interface *)
(* ================================================================== *)

Module VSCode.
Import JS.

(** [vscode.Position], zero-based. *)
Record Position : Type := mkPosition { line : nat; character : nat }.

(** [vscode.Range] *)
Record Range : Type := mkRange
  { start_line : Z; start_character : Z; end_line : Z; end_character : Z }.

(** A [vscode.TextDocument], reduced to what the source reads from it. *)
Record TextDocument : Type := mkDoc { getText : jsstring; uriOf : jsstring }.

(** [doc.positionAt(offset)]: the line is the number of line feeds before
    the offset, the character is the distance from the start of that line;
    an offset past the end is clamped. *)
Fixpoint positionAt_from (l c : nat) (offset : nat) (t : jsstring) : Position :=
  match offset, t with
  | S o, x :: t' =>
      if (x =? 10)%N then positionAt_from (S l) 0 o t'
      else positionAt_from l (S c) o t'
  | _, _ => mkPosition l c
  end.

Definition positionAt (doc : TextDocument) (offset : nat) : Position :=
  positionAt_from 0 0 offset (getText doc).

(** A line without its line break.  The lines of a document end in LF or
    in CR LF (the editor brings the line ends of a file to one of the two
    when it opens it), so what is cut at a line feed may still end in the
    carriage return of the break. *)
Definition withoutLineBreak (l : jsstring) : jsstring :=
  match rev l with
  | c :: r => if (c =? 13)%N then rev r else l
  | [] => l
  end.

(** The texts of the lines of the document, line breaks excluded. *)
Definition docLines (doc : TextDocument) : list jsstring :=
  map withoutLineBreak (split_on 10 (getText doc)).

(** [doc.lineCount] *)
Definition lineCount (doc : TextDocument) : Z :=
  Z.of_nat (length (docLines doc)).

(** [doc.lineAt(n).text]: the text of the line, without its line break. *)
Definition lineAt (doc : TextDocument) (n : Z) : jsstring :=
  nth (Z.to_nat n) (docLines doc) [].

End VSCode.

(* ================================================================== *)
(** ** llm-client.ts *)
(* ================================================================== *)

Module LlmClient.
Import JS RegExp VSCode.

(** What a statement evaluates to: a value, or a thrown error. *)
Inductive completion (A : Type) : Type :=
| Normal (a : A)
| Throw (e : jsstring).
Arguments Normal {A} a.
Arguments Throw {A} e.

Definition bind {A B} (c : completion A) (f : A -> completion B)
  : completion B :=
  match c with Normal a => f a | Throw e => Throw e end.

(** [try { body } catch (e) { handler }] *)
Definition try_catch {A} (body : completion A)
           (handler : jsstring -> completion A) : completion A :=
  match body with Normal a => Normal a | Throw e => handler e end.

Fixpoint mapM {A B} (f : A -> completion B) (l : list A)
  : completion (list B) :=
  match l with
  | [] => Normal []
  | x :: l' => bind (f x) (fun y => bind (mapM f l') (fun ys => Normal (y :: ys)))
  end.

(** One entry of the tool-call payload. *)
Record ReviewItem : Type := mkReview
  { severity : jsstring; message : jsstring; codeSnippet : option jsstring }.

(** The characters of the class [[.*+?^${}()|[\]\\]]. *)
Definition isSyntaxChar (c : N) : bool :=
  ((c =? 46) || (c =? 42) || (c =? 43) || (c =? 63) || (c =? 94)
   || (c =? 36) || (c =? 123) || (c =? 125) || (c =? 40) || (c =? 41)
   || (c =? 124) || (c =? 91) || (c =? 93) || (c =? 92))%N.

(** [/[.*+?^${}()|[\]\\]/g] *)
Definition syntaxCharRe : regex := Chr isSyntaxChar.
(** [/\s+/g] *)
Definition whitespaceRunRe : regex := Plus true ws.

(** [snippet.replace(/[.*+?^${}()|[\]\\]/g, '\\$&').trim()
           .replace(/\s+/g, '\\s+')] *)
Definition escapeSnippet (snippet : jsstring) : jsstring :=
  replace_all whitespaceRunRe (fun _ => js "\s+")
    (trim (replace_all syntaxCharRe (fun matched => 92%N :: matched) snippet)).

(** [new RegExp(pattern, 'g')]: the regex of the pattern, or the
    [SyntaxError] thrown.  For a pattern outside the modelled grammar the
    model has no regex to give and takes the throwing branch as well;
    [snippet_pattern_always_compiles] shows that the pattern built from a
    snippet is never one of those. *)
Definition RegExp_new (pattern : jsstring) : completion regex :=
  match parsePattern pattern with
  | Accepted r => Normal r
  | Rejected => Throw (js "SyntaxError: Invalid regular expression")
  | NotModelled => Throw (js "pattern outside the modelled grammar")
  end.

(** [s.split(re)]: the subject is cut at every match of [re] that does not
    end where the last piece began (the regex here has no capture groups).
    [cur] is the piece since the last cut at [p], [t] the subject from the
    scan index [q] on; a step moves [q] on or cuts, so twice the length
    bounds the steps. *)
Fixpoint split_from (fuel : nat) (r : regex) (p q : nat)
         (cur t : jsstring) : list jsstring :=
  match fuel with
  | O => [cur ++ t]
  | S fuel' =>
      match t with
      | [] => [cur]
      | c :: t' =>
          match match_at r q t with
          | None => split_from fuel' r p (S q) (cur ++ [c]) t'
          | Some e =>
              if pos e =? p then split_from fuel' r p (S q) (cur ++ [c]) t'
              else cur :: split_from fuel' r (pos e) (pos e) [] (rest e)
          end
      end
  end.

Definition split_re (r : regex) (s : jsstring) : list jsstring :=
  match s with
  | [] => match match_at r 0 [] with Some _ => [] | None => [[]] end
  | _ :: _ => split_from (S (2 * length s)) r 0 0 [] s
  end.

(** The first element of [l] on which [f] answers. *)
Fixpoint first_some {A B} (f : A -> option B) (l : list A) : option B :=
  match l with
  | [] => None
  | x :: l' => match f x with Some y => Some y | None => first_some f l' end
  end.

(** The body of the [try] block: build the regex, run it once, and return
    the position of the first match; [None] when control falls out of the
    block without returning. *)
Definition regexPass (mkRegExp : jsstring -> completion regex)
           (snippet : jsstring) (doc : TextDocument)
  : completion (option Position) :=
  bind (mkRegExp (escapeSnippet snippet)) (fun regex =>
    let docText := getText doc in
    match exec regex docText with
    | Some (offset, _) => Normal (Some (positionAt doc offset))
    | None => Normal None
    end).

(** The word-anchor pass (the block guarded by [snippet.length > 15]). *)
Definition fuzzyPass (snippet : jsstring) (doc : TextDocument)
  : option Position :=
  let docText := getText doc in
  let words :=
    firstn 3 (filter (fun word => 3 <? length word)
                     (split_re whitespaceRunRe snippet)) in
  first_some
    (fun word =>
       match indexOf word docText with
       | Some index =>
           let contextStart := index - 50 in
           let contextEnd := Nat.min (length docText) (index + 50) in
           let context := substring contextStart contextEnd docText in
           if 2 <=? length (filter (fun w => includes w context) words)
           then Some (positionAt doc index)
           else None
       | None => None
       end)
    words.

(** [findPositionByCodeSnippet], over the regex constructor it calls. *)
Definition findPositionByCodeSnippet_with
           (mkRegExp : jsstring -> completion regex)
           (snippet : option jsstring) (doc : TextDocument)
  : completion (option Position) :=
  match snippet with
  | None => Normal None
  | Some [] => Normal None
  | Some snippet =>
      bind (try_catch (regexPass mkRegExp snippet doc)
                      (fun e => Normal None))
           (fun returned =>
              match returned with
              | Some p => Normal (Some p)
              | None =>
                  if 15 <? length snippet
                  then Normal (fuzzyPass snippet doc)
                  else Normal None
              end)
  end.

Definition findPositionByCodeSnippet :=
  findPositionByCodeSnippet_with RegExp_new.

(** ['レビュー結果がありません'] *)
Definition noReviewText : jsstring :=
  [0x30ec; 0x30d3; 0x30e5; 0x30fc; 0x7d50; 0x679c;
   0x304c; 0x3042; 0x308a; 0x307e; 0x305b; 0x3093]%N.

(** [formatFunctionCallResults]; [reviews] is [None] when the payload has
    no [reviews] array. *)
Definition formatFunctionCallResults
           (reviews : option (list ReviewItem)) (doc : TextDocument)
  : completion jsstring :=
  match reviews with
  | None => Normal noReviewText
  | Some reviews =>
      bind (mapM (fun review =>
                    bind (findPositionByCodeSnippet (codeSnippet review) doc)
                         (fun position =>
                            let locationText :=
                              match position with
                              | Some position =>
                                  js " [Ln "
                                  ++ Number_toString (N.of_nat (line position + 1))
                                  ++ js ", Col "
                                  ++ Number_toString (N.of_nat (character position))
                                  ++ js "]"
                              | None => []
                              end in
                            Normal (js "[" ++ severity review ++ js "]"
                                    ++ message review ++ locationText)))
                 reviews)
           (fun formattedLines => Normal (join (js (String "010" "")) formattedLines))
  end.

(** The part of [requestLLMReviewWithFunctionCalling] after the arguments
    of the [reviewCode] tool call are decoded: format them, and on any
    error fall back to the fixed text. *)
Definition reviewTextOfToolCall
           (reviews : option (list ReviewItem)) (doc : TextDocument) : jsstring :=
  match formatFunctionCallResults reviews doc with
  | Normal formattedReviews => formattedReviews
  | Throw _ => noReviewText
  end.

End LlmClient.

(* ================================================================== *)
(** ** extension.ts *)
(* ================================================================== *)

Module Extension.
Import JS RegExp VSCode.

(** [enum Severity]; its values are the strings of [Severity_value]. *)
Inductive Severity : Type := Error | Warning | Info | Hint.

Definition Severity_value (s : Severity) : jsstring :=
  match s with
  | Error => js "error"
  | Warning => js "warning"
  | Info => js "info"
  | Hint => js "hint"
  end.

(** [class ReviewItem]: the fields the constructor stores and the jump
    command it builds (icon, tooltip, children and collapsible state are
    display only and left out). *)
Record ReviewItem : Type := mkItem
  { label : jsstring;
    resourceUri : option jsstring;
    severity : option Severity;
    lineNumber : option N;
    colNumber : option N;
    command : option Range }.

(** The constructor: an item with a resource and a line number gets a
    command that opens the document at the zero-based line. *)
Definition new_ReviewItem (label : jsstring) (resourceUri : option jsstring)
           (severity : option Severity) (lineNumber colNumber : option N)
  : ReviewItem :=
  mkItem label resourceUri severity lineNumber colNumber
    (match resourceUri, lineNumber with
     | Some _, Some lineNumber =>
         let l := if (0 <? lineNumber)%N then minus1 lineNumber else 0 in
         Some (mkRange l
                 (match colNumber with Some c => Z.of_N c | None => 0 end)
                 l
                 (match colNumber with Some c => Z.of_N (plus1 c) | None => 1 end))
     | _, _ => None
     end)%Z.

(** [/<think>[\s\S]*?<\/think>/g] *)
Definition thinkRegex : regex :=
  Seq (word "<think>") (Seq (Star false any) (word "</think>")).

(** [/^(L|Line|行)\s*\d+:?\s*$/] *)
Definition lineLabelRegex : regex :=
  Seq Bol
   (Seq (Group 1 (Alt (word "L") (Alt (word "Line") (lit 0x884c))))
   (Seq (Star true ws)
   (Seq (Plus true digit)
   (Seq (Opt (lit 58))
   (Seq (Star true ws) Eol))))).

(** The class [[\s•\-\*\+・・・・]] *)
Definition isBullet (c : N) : bool :=
  (isWhiteSpace c || (c =? 0x2022) || (c =? 45) || (c =? 42) || (c =? 43)
   || (c =? 0x30fb))%N.

(** [/^[\s•\-\*\+・・・・]\s*/] *)
Definition bulletRegex : regex :=
  Seq Bol (Seq (Chr isBullet) (Star true ws)).

(** [/^\[(ERROR|WARNING|INFO|HINT)\]\s*:?\s*(.+?)(?:\s+\[Ln\s+(\d+)(?:,\s*Col\s+(\d+))?\])?$/i] *)
Definition severityRegex : regex :=
  Seq Bol
   (Seq (lit_i 91)
   (Seq (Group 1 (Alt (word_i "ERROR") (Alt (word_i "WARNING")
                 (Alt (word_i "INFO") (word_i "HINT")))))
   (Seq (lit_i 93)
   (Seq (Star true ws)
   (Seq (Opt (lit_i 58))
   (Seq (Star true ws)
   (Seq (Group 2 (Plus false dot))
   (Seq (Opt
          (Seq (Plus true ws)
          (Seq (word_i "[Ln")
          (Seq (Plus true ws)
          (Seq (Group 3 (Plus true digit))
          (Seq (Opt
                 (Seq (lit_i 44)
                 (Seq (Star true ws)
                 (Seq (word_i "Col")
                 (Seq (Plus true ws)
                      (Group 4 (Plus true digit)))))))
               (lit_i 93)))))))
        Eol)))))))).

(** The filter applied to each trimmed line of the response. *)
Definition keepLine (line : jsstring) : bool :=
  if length line =? 0 then false
  else if startsWith (js "<think>") line || startsWith (js "think ") line
  then false
  else if startsWith (js "Here are") line
          || startsWith [0x4ee5; 0x4e0b; 0x306b]%N line
          || startsWith [0x30ec; 0x30d3; 0x30e5; 0x30fc; 0x7d50; 0x679c]%N line
          || startsWith [0x30b3; 0x30fc; 0x30c9; 0x30ec; 0x30d3; 0x30e5; 0x30fc]%N line
          || startsWith [0x6307; 0x6458; 0x4e8b; 0x9805]%N line
          || includes (js "---") line
          || includes (js "===") line
          || includes (js "###") line
          || includes (js "```") line
          || startsWith (js "#") line
  then false
  else if test lineLabelRegex line then false
  else true.

(** The [lines] of [_parseReviewItems]: reasoning spans removed, split on
    line feeds, trimmed, filtered, bullets stripped. *)
Definition reviewLines (text : jsstring) : list jsstring :=
  let filteredText := replace_all thinkRegex (fun _ => []) text in
  map (fun line => trim (replace_first bulletRegex (fun _ => []) line))
      (filter keepLine (map trim (split_on 10 filteredText))).

(** The values the loop body reads off one matched line. *)
Record Finding : Type := mkFinding
  { f_severity : Severity;
    f_content : jsstring;
    f_lineNumber : option N;
    f_colNumber : option N }.

(** [line.match(severityRegex)] and the locals computed from the captures.
    A capture that did not take part is [undefined]; a digit capture that
    did is never empty. *)
Definition matchLine (line : jsstring) : option Finding :=
  match exec severityRegex line with
  | None => None
  | Some (_, e) =>
      let severityText :=
        toUpperCase (match capture 1 (caps e) with Some v => v | None => [] end) in
      let content :=
        trim (match capture 2 (caps e) with Some v => v | None => [] end) in
      let lineNumber := option_map parseInt10 (capture 3 (caps e)) in
      let colNumber := option_map parseInt10 (capture 4 (caps e)) in
      let severity :=
        if jsstring_eqb severityText (js "ERROR") then Error
        else if jsstring_eqb severityText (js "WARNING") then Warning
        else if jsstring_eqb severityText (js "INFO") then Info
        else if jsstring_eqb severityText (js "HINT") then Hint
        else Info in
      Some (mkFinding severity content lineNumber colNumber)
  end.

(** A number in a condition, or on the left of [||]. *)
Definition truthy (n : option N) : bool :=
  match n with Some n => negb (n =? 0)%N | None => false end.

Definition orZero (n : option N) : N :=
  match n with Some n => n | None => 0%N end.

Definition severityPrefix (s : Severity) : jsstring :=
  match s with
  | Error => js "[" ++ [0x30a8; 0x30e9; 0x30fc]%N ++ js "] "
  | Warning => js "[" ++ [0x8b66; 0x544a]%N ++ js "] "
  | Info => js "[" ++ [0x60c5; 0x5831]%N ++ js "] "
  | Hint => js "[" ++ [0x30d2; 0x30f3; 0x30c8]%N ++ js "] "
  end.

(** The label shown for a finding. *)
Definition displayText (f : Finding) : jsstring :=
  let lineNumber := f_lineNumber f in
  let colNumber := f_colNumber f in
  severityPrefix (f_severity f)
  ++ (if truthy lineNumber then
        f_content f
        ++ (if truthy lineNumber
            then js " (" ++ [0x884c]%N ++ js " " ++ Number_toString (orZero lineNumber)
            else [])
        ++ (if truthy colNumber
            then js ", " ++ [0x5217]%N ++ js " " ++ Number_toString (orZero colNumber)
            else [])
        ++ (if truthy lineNumber then js ")" else [])
      else f_content f).

(** [new ReviewItem(displayText, None, [], undefined, resourceUri, severity,
    lineNumber, colNumber)] *)
Definition itemOf (resourceUri : option jsstring) (f : Finding) : ReviewItem :=
  new_ReviewItem (displayText f) resourceUri (Some (f_severity f))
                 (f_lineNumber f) (f_colNumber f).

(** [`${severity}-${content}-${lineNumber || 0}-${colNumber || 0}`] *)
Definition reviewKey (f : Finding) : jsstring :=
  Severity_value (f_severity f) ++ js "-" ++ f_content f ++ js "-"
  ++ Number_toString (orZero (f_lineNumber f)) ++ js "-"
  ++ Number_toString (orZero (f_colNumber f)).

(** [uniqueReviews.has(key)] *)
Definition Set_has (key : jsstring) (s : list jsstring) : bool :=
  existsb (jsstring_eqb key) s.

(** The [for (const line of lines)] loop, threading [uniqueReviews] and
    [reviewItems]. *)
Fixpoint collectItems (resourceUri : option jsstring) (lines : list jsstring)
         (uniqueReviews : list jsstring) (reviewItems : list ReviewItem)
  : list ReviewItem :=
  match lines with
  | [] => reviewItems
  | line :: lines' =>
      match matchLine line with
      | Some f =>
          let item := itemOf resourceUri f in
          let key := reviewKey f in
          if negb (Set_has key uniqueReviews)
          then collectItems resourceUri lines' (key :: uniqueReviews)
                            (reviewItems ++ [item])
          else collectItems resourceUri lines' uniqueReviews reviewItems
      | None => collectItems resourceUri lines' uniqueReviews reviewItems
      end
  end.

(** [Array.prototype.sort(compare)]: a stable sort.  [insert_sorted x l]
    puts [x], which came before every element of [l], in front of the first
    element it does not compare greater than. *)
Fixpoint insert_sorted {A} (compare : A -> A -> Z) (x : A) (l : list A) : list A :=
  match l with
  | [] => [x]
  | y :: l' =>
      if (0 <? compare x y)%Z then y :: insert_sorted compare x l'
      else x :: l
  end.

Fixpoint Array_sort {A} (compare : A -> A -> Z) (l : list A) : list A :=
  match l with
  | [] => []
  | x :: l' => insert_sorted compare x (Array_sort compare l')
  end.

(** The comparison function of the final sort.  The difference of two
    numbers has the sign of the difference of their values; that of
    [Infinity] and [Infinity] is [NaN], which the sort takes for 0. *)
Definition compareLine (a b : option N) : Z :=
  match a, b with
  | None, None => 0
  | None, Some _ => 1
  | Some _, None => -1
  | Some x, Some y => Z.of_N x - Z.of_N y
  end.

Definition compareItems (a b : ReviewItem) : Z :=
  compareLine (lineNumber a) (lineNumber b).

(** [_parseReviewItems(text, fileUri)]; [resourceUri] is [fileUri], or the
    active editor's URI when that is missing. *)
Definition _parseReviewItems (text : jsstring) (resourceUri : option jsstring)
  : list ReviewItem :=
  Array_sort compareItems (collectItems resourceUri (reviewLines text) [] []).

(** The same loop and sort on the loop's locals, from which each item is
    built: [_parseReviewItems_findings] relates the two. *)
Fixpoint collectFindings (lines : list jsstring)
         (uniqueReviews : list jsstring) (found : list Finding) : list Finding :=
  match lines with
  | [] => found
  | line :: lines' =>
      match matchLine line with
      | Some f =>
          if negb (Set_has (reviewKey f) uniqueReviews)
          then collectFindings lines' (reviewKey f :: uniqueReviews) (found ++ [f])
          else collectFindings lines' uniqueReviews found
      | None => collectFindings lines' uniqueReviews found
      end
  end.

Definition compareFindings (a b : Finding) : Z :=
  compareLine (f_lineNumber a) (f_lineNumber b).

Definition parseFindings (text : jsstring) : list Finding :=
  Array_sort compareFindings (collectFindings (reviewLines text) [] []).

(** The zero-based position a finding's item jumps to, if any. *)
Definition positionOf (it : ReviewItem) : option (Z * Z) :=
  option_map (fun r => (start_line r, start_character r)) (command it).

(** *** The diagnostics pass *)

Inductive DiagnosticSeverity : Type :=
| DiagError | DiagWarning | DiagInformation | DiagHint.

Record Diagnostic : Type := mkDiagnostic
  { range : Range;
    d_message : jsstring;
    d_severity : DiagnosticSeverity;
    source : jsstring }.

(** [updateDiagnostics(doc, reviewText)]: the list handed to
    [diagnosticCollection.set]. *)
Definition updateDiagnostics (doc : TextDocument) (reviewText : jsstring)
  : list Diagnostic :=
  let lines :=
    filter (fun line => 0 <? length line) (map trim (split_on 10 reviewText)) in
  flat_map
    (fun line =>
       match exec severityRegex line with
       | None => []
       | Some (_, e) =>
           let severityText :=
             toUpperCase (match capture 1 (caps e) with Some v => v | None => [] end) in
           let content :=
             trim (match capture 2 (caps e) with Some v => v | None => [] end) in
           let lineNumber :=
             match capture 3 (caps e) with
             | Some d => minus1 (parseInt10 d)
             | None => 0
             end in
           let colNumber :=
             match capture 4 (caps e) with
             | Some d => Z.of_N (parseInt10 d)
             | None => 0
             end in
           let diagnosticSeverity :=
             if jsstring_eqb severityText (js "ERROR") then DiagError
             else if jsstring_eqb severityText (js "WARNING") then DiagWarning
             else if jsstring_eqb severityText (js "INFO") then DiagInformation
             else if jsstring_eqb severityText (js "HINT") then DiagHint
             else DiagInformation in
           let safeLineNumber :=
             Z.max 0 (Z.min lineNumber (lineCount doc - 1)) in
           let lineText := lineAt doc safeLineNumber in
           let len := Z.of_nat (length lineText) in
           [mkDiagnostic
              (mkRange safeLineNumber (Z.min colNumber len) safeLineNumber len)
              content diagnosticSeverity (js "LLM Reviewer")]
       end)%Z
    lines.

(** *** The result store: [ReviewTreeDataProvider] *)

(** A [Map<string, V>]: entries in insertion order, one per key. *)
Definition JSMap (V : Type) : Type := list (jsstring * V).

Fixpoint Map_set {V} (k : jsstring) (v : V) (mp : JSMap V) : JSMap V :=
  match mp with
  | [] => [(k, v)]
  | (k', v') :: mp' =>
      if jsstring_eqb k k' then (k, v) :: mp' else (k', v') :: Map_set k v mp'
  end.

Fixpoint Map_get {V} (k : jsstring) (mp : JSMap V) : option V :=
  match mp with
  | [] => None
  | (k', v') :: mp' => if jsstring_eqb k k' then Some v' else Map_get k mp'
  end.

Definition Map_has {V} (k : jsstring) (mp : JSMap V) : bool :=
  match Map_get k mp with Some _ => true | None => false end.

Fixpoint Map_delete {V} (k : jsstring) (mp : JSMap V) : JSMap V :=
  match mp with
  | [] => []
  | (k', v') :: mp' =>
      if jsstring_eqb k k' then mp' else (k', v') :: Map_delete k mp'
  end.

Definition Map_values {V} (mp : JSMap V) : list V := map snd mp.

(** [treeView.badge] *)
Record Badge : Type := mkBadge { value : nat; tooltip : jsstring }.

Record TreeView : Type := mkTreeView { badge : option Badge }.

(** The provider.  [fired] logs every [_onDidChangeTreeData.fire()], each
    with the map and the tree view a listener sees when it is called. *)
Record ReviewTreeDataProvider : Type := mkProvider
  { _reviewItemsByFile : JSMap (list ReviewItem);
    _treeView : option TreeView;
    fired : list (JSMap (list ReviewItem) * option TreeView) }.

(** [new ReviewTreeDataProvider()] *)
Definition new_ReviewTreeDataProvider : ReviewTreeDataProvider :=
  mkProvider [] None [].

Definition setTreeView (treeView : TreeView) (p : ReviewTreeDataProvider)
  : ReviewTreeDataProvider :=
  mkProvider (_reviewItemsByFile p) (Some treeView) (fired p).

(** [let total = 0; for (const items of map.values()) total += items.length] *)
Definition totalReviewCount (mp : JSMap (list ReviewItem)) : nat :=
  fold_left (fun total items => total + length items) (Map_values mp) 0.

(** The badge assignment shared by [update] and [updateBadge]. *)
Definition setBadge (totalReviewCount : nat) (treeView : option TreeView)
  : option TreeView :=
  match treeView with
  | Some _ =>
      if 0 <? totalReviewCount
      then Some (mkTreeView
                   (Some (mkBadge totalReviewCount
                            (Number_toString (N.of_nat totalReviewCount)
                             ++ [0x4ef6; 0x306e; 0x6307; 0x6458; 0x4e8b; 0x9805]%N))))
      else Some (mkTreeView None)
  | None => None
  end.

Definition fire (p : ReviewTreeDataProvider) : ReviewTreeDataProvider :=
  mkProvider (_reviewItemsByFile p) (_treeView p)
             (fired p ++ [(_reviewItemsByFile p, _treeView p)]).

(** [update(uriString, text)] *)
Definition update (uriString text : jsstring) (p : ReviewTreeDataProvider)
  : ReviewTreeDataProvider :=
  let uri := uriString in
  let items := _parseReviewItems text (Some uri) in
  let byFile := Map_set uriString items (_reviewItemsByFile p) in
  fire (mkProvider byFile (setBadge (totalReviewCount byFile) (_treeView p))
                   (fired p)).

(** [updateBadge()] *)
Definition updateBadge (p : ReviewTreeDataProvider) : ReviewTreeDataProvider :=
  mkProvider (_reviewItemsByFile p)
             (setBadge (totalReviewCount (_reviewItemsByFile p)) (_treeView p))
             (fired p).

(** [clearFileReviews(uriString)], on the provider (the diagnostics of the
    document are cleared besides). *)
Definition clearFileReviews (uriString : jsstring) (p : ReviewTreeDataProvider)
  : ReviewTreeDataProvider :=
  if Map_has uriString (_reviewItemsByFile p) then
    fire (updateBadge
            (mkProvider (Map_delete uriString (_reviewItemsByFile p))
                        (_treeView p) (fired p)))
  else p.

(** The aggregate finding count the tree view shows: the badge value, and
    no badge for none. *)
Definition aggregateCount (p : ReviewTreeDataProvider) : nat :=
  match _treeView p with
  | Some tv => match badge tv with Some b => value b | None => 0 end
  | None => 0
  end.

(** A history of store mutations, oldest first. *)
Inductive StoreOp : Type :=
| OpUpdate (uriString text : jsstring)
| OpClear (uriString : jsstring).

Definition applyOp (p : ReviewTreeDataProvider) (op : StoreOp)
  : ReviewTreeDataProvider :=
  match op with
  | OpUpdate u t => update u t p
  | OpClear u => clearFileReviews u p
  end.

Definition runOps (ops : list StoreOp) (p : ReviewTreeDataProvider)
  : ReviewTreeDataProvider :=
  fold_left applyOp ops p.

(** The provider as [activate] leaves it: created, then given its view. *)
Definition activated : ReviewTreeDataProvider :=
  setTreeView (mkTreeView None) new_ReviewTreeDataProvider.

(** The structured path end to end: the tool-call payload is formatted into
    review text by the client, and that text is parsed like any other. *)
Definition parseStructured (reviews : option (list LlmClient.ReviewItem))
           (doc : TextDocument) : list ReviewItem :=
  _parseReviewItems (LlmClient.reviewTextOfToolCall reviews doc)
                    (Some (uriOf doc)).

Definition parseStructuredFindings (reviews : option (list LlmClient.ReviewItem))
           (doc : TextDocument) : list Finding :=
  parseFindings (LlmClient.reviewTextOfToolCall reviews doc).

End Extension.

(* ================================================================== *)
(** ** What the specification speaks of *)
(* ================================================================== *)

Module Spec.
Import JS RegExp VSCode Extension.

(** The findings of the lines that match, in line order, before any is
    dropped as a duplicate. *)
Definition matchedOf (lines : list jsstring) : list Finding :=
  flat_map (fun line => match matchLine line with
                        | Some f => [f]
                        | None => []
                        end) lines.

Definition matchedFindings (text : jsstring) : list Finding :=
  matchedOf (reviewLines text).

(** What an identity key is derived from: severity, message, line and
    column, a missing line or column counting as 0. *)
Definition identity (f : Finding) : Severity * jsstring * N * N :=
  (f_severity f, f_content f,
   match f_lineNumber f with Some line => line | None => 0%N end,
   match f_colNumber f with Some column => column | None => 0%N end).

Definition Severity_eqb (a b : Severity) : bool :=
  match a, b with
  | Error, Error | Warning, Warning | Info, Info | Hint, Hint => true
  | _, _ => false
  end.

(** [g] has the identity of [f]. *)
Definition sameIdentity (f g : Finding) : bool :=
  match identity f, identity g with
  | (s, m, l, c), (s', m', l', c') =>
      Severity_eqb s s' && jsstring_eqb m m' && (l =? l')%N && (c =? c')%N
  end.

(** [g] has the key of [f], as the code builds it. *)
Definition sameKey (f g : Finding) : bool :=
  jsstring_eqb (reviewKey g) (reviewKey f).

(** A number as a finding has it, or none: what [parseInt] returns is
    rounded already. *)
Definition isNumber (n : option N) : Prop :=
  match n with Some n => toNumber n = n | None => True end.

(** The order of a findings list: ascending line numbers, no line number
    last. *)
Definition lineLe (a b : option N) : Prop :=
  match a, b with
  | _, None => True
  | None, Some _ => False
  | Some x, Some y => (x <= y)%N
  end.

Definition option_N_eqb (a b : option N) : bool :=
  match a, b with
  | None, None => true
  | Some x, Some y => (x =? y)%N
  | _, _ => false
  end.

(** The freeform input of the first scenario. *)
Definition scenarioText : jsstring :=
  js "[ERROR] null pointer risk in getUser [Ln 12, Col 4]"
  ++ [10%N] ++ js "[HINT]: rename variable x".

(** The structured payload of the duplicate scenario. *)
Definition duplicatePayload : option (list LlmClient.ReviewItem) :=
  Some [LlmClient.mkReview (js "warning") (js "m") None;
        LlmClient.mkReview (js "warning") (js "m") None].

(** The text of the last update of [u] that no clear of [u] followed. *)
Definition liveText (u : jsstring) (ops : list StoreOp) : option jsstring :=
  fold_left
    (fun cur op =>
       match op with
       | OpUpdate u' t => if jsstring_eqb u u' then Some t else cur
       | OpClear u' => if jsstring_eqb u u' then None else cur
       end)
    ops None.

Definition opUri (op : StoreOp) : jsstring :=
  match op with OpUpdate u _ => u | OpClear u => u end.

(** The sum, over every uri the history mentions, of the number of findings
    of its live update, if it has one. *)
Definition expectedCount (ops : list StoreOp) : nat :=
  list_sum
    (map (fun u => match liveText u ops with
                   | Some t => length (_parseReviewItems t (Some u))
                   | None => 0
                   end)
         (nodup (list_eq_dec N.eq_dec) (map opUri ops))).

(** [p] is a prefix of [s] up to the case of ASCII letters. *)
Fixpoint startsWith_i (p s : jsstring) : bool :=
  match p, s with
  | [], _ => true
  | a :: p', b :: s' => (upperAscii b =? upperAscii a)%N && startsWith_i p' s'
  | _ :: _, [] => false
  end.

(** The closed enumeration of severity tokens. *)
Definition severityTokens : list jsstring :=
  [js "ERROR"; js "WARNING"; js "INFO"; js "HINT"].

Definition tagOf (token : jsstring) : jsstring := js "[" ++ token ++ js "]".

(** The line opens with one of the four tokens in brackets, in any case. *)
Definition hasSeverityTag (line : jsstring) : bool :=
  existsb (fun t => startsWith_i (tagOf t) line) severityTokens.

(** The severity a token names. *)
Definition severityOfToken (t : jsstring) : Severity :=
  if jsstring_eqb t (js "ERROR") then Error
  else if jsstring_eqb t (js "WARNING") then Warning
  else if jsstring_eqb t (js "INFO") then Info
  else if jsstring_eqb t (js "HINT") then Hint
  else Info.

(** Text without line feed and without [<]: one line, no reasoning span. *)
Definition plainText (s : jsstring) : bool :=
  forallb (fun c => negb (c =? 10)%N && negb (c =? 60)%N) s.

(** A snippet up to whitespace: its solid code units, with a gap for every
    whitespace run. *)
Inductive atom : Type := Lit (c : N) | Gap.

Definition startsWs (t : jsstring) : bool :=
  match t with x :: _ => isWhiteSpace x | [] => false end.

Fixpoint squeeze (s : jsstring) : list atom :=
  match s with
  | [] => []
  | c :: t =>
      if isWhiteSpace c
      then (if startsWs t then squeeze t else Gap :: squeeze t)
      else Lit c :: squeeze t
  end.

(** The shape of a snippet: leading and trailing whitespace do not count. *)
Definition shape (snippet : jsstring) : list atom := squeeze (trim snippet).

(** One or more whitespace units, then text that [kb] accepts. *)
Fixpoint gapThen (kb : jsstring -> bool) (t : jsstring) : bool :=
  match t with
  | x :: t' => isWhiteSpace x && (gapThen kb t' || kb t')
  | [] => false
  end.

(** [t] opens with text of shape [p]: the solid units as they are, one or
    more whitespace units for every gap. *)
Fixpoint matchesShape (p : list atom) (t : jsstring) : bool :=
  match p with
  | [] => true
  | Lit c :: p' =>
      match t with
      | x :: t' => (x =? c)%N && matchesShape p' t'
      | [] => false
      end
  | Gap :: p' => gapThen (matchesShape p') t
  end.

(** The snippet occurs in the text at [offset], whitespace runs aside. *)
Definition occursAt (snippet docText : jsstring) (offset : nat) : Prop :=
  offset <= length docText
  /\ matchesShape (shape snippet) (skipn offset docText) = true.

(** The regex pass gave no position: it threw, or it found no match. *)
Definition regexPassFails (mkRegExp : jsstring -> LlmClient.completion regex)
           (snippet : jsstring) (doc : TextDocument) : Prop :=
  match LlmClient.regexPass mkRegExp snippet doc with
  | LlmClient.Throw _ => True
  | LlmClient.Normal None => True
  | LlmClient.Normal (Some _) => False
  end.

End Spec.

(* ================================================================== *)
(** ** Notions used in the proofs *)
(* ================================================================== *)

Module Inv.
Import JS RegExp VSCode Extension Spec.

Definition entryCount (mp : JSMap (list ReviewItem)) (u : jsstring) : nat :=
  match Map_get u mp with Some items => length items | None => 0 end.

(** The view [setBadge] leaves, whatever view there was. *)
Definition viewFor (n : nat) : option TreeView :=
  setBadge n (Some (mkTreeView None)).

Definition liveStep (u : jsstring) (cur : option jsstring) (op : StoreOp)
  : option jsstring :=
  match op with
  | OpUpdate u' t => if jsstring_eqb u u' then Some t else cur
  | OpClear u' => if jsstring_eqb u u' then None else cur
  end.

(** What holds of the store after any history run from activation. *)
Record storeInv (ops : list StoreOp) (p : ReviewTreeDataProvider) : Prop :=
  { inv_keys : NoDup (map fst (_reviewItemsByFile p));
    inv_get : forall u,
        Map_get u (_reviewItemsByFile p)
        = option_map (fun t => _parseReviewItems t (Some u)) (liveText u ops);
    inv_view : _treeView p = viewFor (totalReviewCount (_reviewItemsByFile p)) }.

(** The findings kept from a list when those whose key was seen, before
    or earlier in the list, are dropped. *)
Fixpoint firstByKey (seen : list jsstring) (l : list Finding) : list Finding :=
  match l with
  | [] => []
  | f :: l' =>
      if Set_has (reviewKey f) seen then firstByKey seen l'
      else f :: firstByKey (reviewKey f :: seen) l'
  end.

(** The capture groups of a pattern. *)
Fixpoint groups (r : regex) : list nat :=
  match r with
  | Seq a b | Alt a b => groups a ++ groups b
  | Star _ r' => groups r'
  | Group i r' => i :: groups r'
  | _ => []
  end.

(** [s'] is [s] after some code units were consumed and, at most, groups
    of [gs] captured. *)
Definition reaches (gs : list nat) (s s' : mstate) : Prop :=
  (exists consumed,
      rest s = consumed ++ rest s' /\ pos s' = pos s + length consumed)
  /\ forall j, ~ In j gs -> capture j (caps s') = capture j (caps s).

(** How the source escapes one code unit. *)
Definition escapeUnit (c : N) : jsstring :=
  if LlmClient.isSyntaxChar c then [92%N; c] else [c].

(** Every whitespace run replaced by [G]. *)
Fixpoint collapse (G : jsstring) (s : jsstring) : jsstring :=
  match s with
  | [] => []
  | x :: t =>
      if isWhiteSpace x
      then (if startsWs t then collapse G t else G ++ collapse G t)
      else x :: collapse G t
  end.

(** The pattern text and the pattern of a shape. *)
Definition renderAtom (a : atom) : jsstring :=
  match a with Lit c => escapeUnit c | Gap => js "\s+" end.

Definition render (p : list atom) : jsstring := flat_map renderAtom p.

Fixpoint regex_of (p : list atom) : regex :=
  match p with
  | [] => Empty
  | Lit c :: p' => Seq (lit c) (regex_of p')
  | Gap :: p' => Seq (Plus true ws) (regex_of p')
  end.

Definition succeeds (o : option mstate) : bool :=
  match o with Some _ => true | None => false end.

(** The tokens of the pattern of a shape. *)
Definition atomTokens (a : atom) : list token :=
  match a with
  | Lit c => [Atom (lit c)]
  | Gap => [Atom ws; Quantifier 43]
  end.

(** The code units of a printed number: digits, and the point and the
    exponent mark of the exponential notation. *)
Definition numeralUnit (c : N) : bool :=
  (isDigit c || (c =? 46) || (c =? 101) || (c =? 43))%N.

(** What is printed for a natural that is not [Infinity]. *)
Definition numeral (v : N) : jsstring :=
  if (v <? 10 ^ 21)%N then decimal v else exponential v.

End Inv.

(* ================================================================== *)
(** ** Histories of the store *)
(* ================================================================== *)

Module History.
Import JS RegExp VSCode Extension Spec.

(** The change notifications a history fires: one for every update, one for
    every clear of a uri that has an entry when it is cleared.  [before] is
    the history so far. *)
Fixpoint notifications (before ops : list StoreOp) : nat :=
  match ops with
  | [] => 0
  | op :: ops' =>
      (match op with
       | OpUpdate _ _ => 1
       | OpClear u => match liveText u before with Some _ => 1 | None => 0 end
       end)
      + notifications (before ++ [op]) ops'
  end.

End History.

(* ================================================================== *)
(** ** Notions for the further properties *)
(* ================================================================== *)

Module More.
Import JS RegExp VSCode Extension Spec.

(** A string without whitespace. *)
Definition solid (w : jsstring) : bool :=
  forallb (fun c => negb (isWhiteSpace c)) w.

End More.

(* ================================================================== *)
(** ** extension.ts: the tree view *)
(* ================================================================== *)

Module Tree.
Import JS RegExp VSCode Extension.

(** A [vscode.Uri], reduced to the two fields the source reads. *)
Record Uri : Type := mkUri { path : jsstring; fsPath : jsstring }.

(** [s.lastIndexOf(c)], [None] for -1. *)
Fixpoint lastIndexOf_from (i : nat) (c : N) (s : jsstring) : option nat :=
  match s with
  | [] => None
  | x :: t =>
      match lastIndexOf_from (S i) c t with
      | Some j => Some j
      | None => if (x =? c)%N then Some i else None
      end
  end.

Definition lastIndexOf (c : N) (s : jsstring) : option nat :=
  lastIndexOf_from 0 c s.

(** [p.substring(p.lastIndexOf('/') + 1)] *)
Definition fileNameOf (p : jsstring) : jsstring :=
  match lastIndexOf 47 p with
  | Some i => skipn (i + 1) p
  | None => p
  end.

(** [getWorkspaceRelativePath(uri)]; [workspaceFolders] holds the
    [uri.fsPath] of every workspace folder, [None] when there is no
    workspace. *)
Definition getWorkspaceRelativePath (workspaceFolders : option (list jsstring))
           (uri : Uri) : jsstring :=
  match workspaceFolders with
  | None => fileNameOf (path uri)
  | Some workspaceFolders =>
      let fullPath := fsPath uri in
      match find (fun folderPath => startsWith folderPath fullPath)
                 workspaceFolders with
      | Some folderPath =>
          let relativePath :=
            replace_all (lit 92) (fun _ => js "/")
                        (skipn (length folderPath) fullPath) in
          if startsWith (js "/") relativePath then relativePath
          else js "/" ++ relativePath
      | None => fileNameOf (path uri)
      end
  end.

Definition Severity_eqb (a b : Severity) : bool :=
  match a, b with
  | Error, Error | Warning, Warning | Info, Info | Hint, Hint => true
  | _, _ => false
  end.







End Tree.

(* ================================================================== *)
(** ** extension.ts: when a document is reviewed *)
(* ================================================================== *)

Module Lint.
Import JS RegExp VSCode Extension.

(** [isProgrammingLanguage(languageId)] *)
Definition programmingLanguages : list jsstring :=
  [js "javascript"; js "typescript"; js "python"; js "java"; js "c";
   js "cpp"; js "csharp"; js "ruby"; js "go"; js "php"; js "swift";
   js "kotlin"; js "rust"; js "scala"; js "perl"; js "dart"; js "haskell";
   js "elixir"; js "clojure"; js "shellscript"; js "bash"; js "powershell";
   js "objective-c"; js "groovy"; js "lua"; js "coffeescript"; js "jsonc";
   js "vue"; js "jsx"; js "tsx"].

Definition isProgrammingLanguage (languageId : jsstring) : bool :=
  existsb (jsstring_eqb languageId) programmingLanguages.

(** What [shouldExclude] takes from outside: the workspace folders, the two
    pattern lists of the configuration, [path.relative] and [minimatch]
    (with the options the source passes). *)
Record Environment : Type := mkEnvironment
  { workspaceFolders : option (list jsstring);
    INCLUDE_PATTERNS : list jsstring;
    EXCLUDE_PATTERNS : list jsstring;
    relative : jsstring -> jsstring -> jsstring;
    minimatch : jsstring -> jsstring -> bool }.

(** [shouldExclude(fsPath)] *)
Definition shouldExclude (env : Environment) (fsPath : jsstring) : bool :=
  match workspaceFolders env with
  | None => false
  | Some [] => false
  | Some folders =>
      match find (fun folderPath => startsWith folderPath fsPath) folders with
      | None => false
      | Some folderPath =>
          let relativePath :=
            replace_all (lit 92) (fun _ => js "/")
                        (relative env folderPath fsPath) in
          if (0 <? length (INCLUDE_PATTERNS env))
             && negb (existsb (minimatch env relativePath) (INCLUDE_PATTERNS env))
          then true
          else existsb (minimatch env relativePath) (EXCLUDE_PATTERNS env)
      end
  end.

(** What [lintIfNeeded] and the review command read of a document. *)
Record DocumentInfo : Type := mkDocumentInfo
  { isUntitled : bool;
    languageId : jsstring;
    docFsPath : jsstring;
    docUri : jsstring }.

(** [lintIfNeeded(doc)] at time [now] (milliseconds), with the uris of the
    visible editors: whether a review is queued, and [lastRunMap] after. *)
Definition lintIfNeeded (env : Environment) (visible : list jsstring) (now : Z)
           (doc : DocumentInfo) (lastRunMap : JSMap Z) : bool * JSMap Z :=
  if isUntitled doc then (false, lastRunMap)
  else if negb (isProgrammingLanguage (languageId doc)) then (false, lastRunMap)
  else if shouldExclude env (docFsPath doc) then (false, lastRunMap)
  else if negb (existsb (fun editorUri => jsstring_eqb editorUri (docUri doc))
                        visible)
  then (false, lastRunMap)
  else
    let uri := docUri doc in
    let last := match Map_get uri lastRunMap with Some l => l | None => 0%Z end in
    if (now - last <? 30000)%Z then (false, lastRunMap)
    else (true, Map_set uri now lastRunMap).

(** The review command on the document of the active editor: whether the
    review runs, and [lastRunMap] after. *)
Definition reviewCurrentFile (env : Environment) (doc : DocumentInfo)
           (lastRunMap : JSMap Z) : bool * JSMap Z :=
  if isUntitled doc then (false, lastRunMap)
  else if negb (isProgrammingLanguage (languageId doc)) then (false, lastRunMap)
  else if shouldExclude env (docFsPath doc) then (false, lastRunMap)
  else (true, Map_set (docUri doc) 0%Z lastRunMap).

(** A sequence of automatic triggers, each with its time and the visible
    editors; the reviews it queues, oldest first, as (uri, time). *)
Fixpoint runTriggers (env : Environment)
         (triggers : list (Z * list jsstring * DocumentInfo))
         (lastRunMap : JSMap Z) : list (jsstring * Z) * JSMap Z :=
  match triggers with
  | [] => ([], lastRunMap)
  | (now, visible, doc) :: rest =>
      let (queued, lastRunMap') := lintIfNeeded env visible now doc lastRunMap in
      let (later, final) := runTriggers env rest lastRunMap' in
      ((if queued then [(docUri doc, now)] else []) ++ later, final)
  end.



End Lint.

(* ================================================================== *)
(** ** Notions for the review triggers *)
(* ================================================================== *)

Module Cooldown.
Import JS RegExp VSCode Extension.

(** [lastRunMap.get(uri) ?? 0] *)
Definition lastRun (u : jsstring) (lastRunMap : JSMap Z) : Z :=
  match Map_get u lastRunMap with Some l => l | None => 0%Z end.

(** The times at which reviews of [u] were queued. *)
Definition queuedTimes (u : jsstring) (queued : list (jsstring * Z)) : list Z :=
  map snd (filter (fun q => jsstring_eqb (fst q) u) queued).

End Cooldown.

(* ================================================================== *)
(** ** Notions for the round trip of a structured entry *)
(* ================================================================== *)

Module RoundTrip.
Import JS RegExp VSCode Extension Spec.

(** The words a pattern can match, positions aside. *)
Inductive matches : regex -> jsstring -> Prop :=
| matches_Empty : matches Empty []
| matches_Chr (p : N -> bool) (c : N) : p c = true -> matches (Chr p) [c]
| matches_Seq (a b : regex) (u v : jsstring) :
    matches a u -> matches b v -> matches (Seq a b) (u ++ v)
| matches_AltL (a b : regex) (u : jsstring) : matches a u -> matches (Alt a b) u
| matches_AltR (a b : regex) (u : jsstring) : matches b u -> matches (Alt a b) u
| matches_Star0 (g : bool) (r : regex) : matches (Star g r) []
| matches_StarS (g : bool) (r : regex) (u v : jsstring) :
    matches r u -> matches (Star g r) v -> matches (Star g r) (u ++ v)
| matches_Group (i : nat) (r : regex) (u : jsstring) :
    matches r u -> matches (Group i r) u
| matches_Bol : matches Bol []
| matches_Eol : matches Eol [].

(** The code units some atom of a pattern takes. *)
Fixpoint accepts (r : regex) (c : N) : bool :=
  match r with
  | Chr p => p c
  | Seq a b | Alt a b => accepts a c || accepts b c
  | Star _ r' | Group _ r' => accepts r' c
  | _ => false
  end.

(** The parts of [severityRegex]. *)
Definition tagAlternatives : regex :=
  Alt (word_i "ERROR") (Alt (word_i "WARNING")
      (Alt (word_i "INFO") (word_i "HINT"))).

(** [,\s*Col\s+(\d+)] *)
Definition columnRe : regex :=
  Seq (lit_i 44)
  (Seq (Star true ws)
  (Seq (word_i "Col")
  (Seq (Plus true ws)
       (Group 4 (Plus true digit))))).

(** What follows [\[] in the location: [Ln\s+(\d+)(?:,\s*Col\s+(\d+))?\]] *)
Definition afterBracketRe : regex :=
  Seq (Seq (lit_i 76) (lit_i 110))
  (Seq (Plus true ws)
  (Seq (Group 3 (Plus true digit))
  (Seq (Opt columnRe)
       (lit_i 93)))).

(** [\s+\[Ln\s+(\d+)(?:,\s*Col\s+(\d+))?\]] *)
Definition locationRe : regex :=
  Seq (Plus true ws)
  (Seq (word_i "[Ln")
  (Seq (Plus true ws)
  (Seq (Group 3 (Plus true digit))
  (Seq (Opt columnRe)
       (lit_i 93))))).

(** [\s*:?\s*(.+?)(?:...)?$] *)
Definition afterTagRe : regex :=
  Seq (Star true ws)
  (Seq (Opt (lit_i 58))
  (Seq (Star true ws)
  (Seq (Group 2 (Plus false dot))
  (Seq (Opt locationRe)
       Eol)))).

(** A message the line pattern reads back as it is: it opens with a code
    unit that is neither whitespace nor a colon, and holds no line
    terminator and no [<]. *)
Definition readableMessage (msg : jsstring) : bool :=
  match msg with
  | x :: _ => negb (isWhiteSpace x) && negb (x =? 58)%N
  | [] => false
  end
  && forallb (fun c => negb (isLineTerminator c) && negb (c =? 60)%N) msg.

(** The line [formatFunctionCallResults] prints for an entry. *)
Definition entryLine (sev msg : jsstring) (position : option Position)
  : jsstring :=
  js "[" ++ sev ++ js "]" ++ msg
  ++ match position with
     | Some position =>
         js " [Ln " ++ Number_toString (N.of_nat (line position + 1))
         ++ js ", Col " ++ Number_toString (N.of_nat (character position))
         ++ js "]"
     | None => []
     end.

(** The position the resolver gives for the snippet of an entry. *)
Definition resolved (doc : TextDocument) (review : LlmClient.ReviewItem)
  : option Position :=
  match LlmClient.findPositionByCodeSnippet (LlmClient.codeSnippet review) doc with
  | LlmClient.Normal position => position
  | LlmClient.Throw _ => None
  end.

Definition lineOfEntry (doc : TextDocument) (review : LlmClient.ReviewItem)
  : jsstring :=
  entryLine (LlmClient.severity review) (LlmClient.message review)
            (resolved doc review).

(** The finding an entry stands for. *)
Definition findingOf (sev msg : jsstring) (position : option Position)
  : Finding :=
  mkFinding (severityOfToken sev) (trimEnd msg)
            (option_map (fun p => N.of_nat (line p + 1)) position)
            (option_map (fun p => N.of_nat (character p)) position).

Definition findingOfEntry (doc : TextDocument) (review : LlmClient.ReviewItem)
  : Finding :=
  findingOf (LlmClient.severity review) (LlmClient.message review)
            (resolved doc review).

(** The captures of the line pattern on the line of an entry. *)
Definition entryCaps (sev msg : jsstring) (position : option Position)
  : list (nat * jsstring) :=
  match position with
  | Some p =>
      [(4, Number_toString (N.of_nat (character p)));
       (3, Number_toString (N.of_nat (line p + 1)));
       (2, trimEnd msg); (1, sev)]
  | None => [(2, trimEnd msg); (1, sev)]
  end.

(** A text no longer than a JS string can be. *)
Definition isString (s : jsstring) : Prop := (N.of_nat (length s) < 2 ^ 53)%N.

(** A position whose one-based line and whose character are below 2^53, as
    those of any position in a string are: numbers that are printed digit by
    digit and read back as they are. *)
Definition safePosition (position : option Position) : Prop :=
  match position with
  | Some p => (N.of_nat (line p + 1) <= 2 ^ 53)%N
              /\ (N.of_nat (character p) <= 2 ^ 53)%N
  | None => True
  end.

(** An entry the line pattern reads back: a token of the enumeration, a
    readable message and, where no location is printed after it, a message
    that does not end like one. *)
Definition readable (sev msg : jsstring) (position : option Position) : Prop :=
  In sev severityTokens
  /\ readableMessage msg = true
  /\ (position = None -> last (trimEnd msg) 0%N <> 93%N).

(** An entry of a payload that is read back: readable, at a position, if
    the resolver finds one, whose line and column are printed digit by
    digit (as those of every position in a string are). *)
Definition readableEntry (doc : TextDocument) (review : LlmClient.ReviewItem)
  : Prop :=
  readable (LlmClient.severity review) (LlmClient.message review)
           (resolved doc review)
  /\ safePosition (resolved doc review).

(** The markers of headings, rules and code fences. *)
Definition markers : list jsstring :=
  [js "---"; js "==="; js "###"; js "```"].

(** Whether the line filter of the tree keeps the line of an entry. *)
Definition shownInTree (doc : TextDocument) (review : LlmClient.ReviewItem)
  : bool :=
  negb (existsb (fun w => includes w (trim (lineOfEntry doc review))) markers).

(** The body of the loop of [updateDiagnostics]. *)
Definition diagnosticsOfLine (doc : TextDocument) (line : jsstring)
  : list Diagnostic :=
  match exec severityRegex line with
  | None => []
  | Some (_, e) =>
      let severityText :=
        toUpperCase (match capture 1 (caps e) with Some v => v | None => [] end) in
      let content :=
        trim (match capture 2 (caps e) with Some v => v | None => [] end) in
      let lineNumber :=
        match capture 3 (caps e) with
        | Some d => minus1 (parseInt10 d)
        | None => 0
        end in
      let colNumber :=
        match capture 4 (caps e) with
        | Some d => Z.of_N (parseInt10 d)
        | None => 0
        end in
      let diagnosticSeverity :=
        if jsstring_eqb severityText (js "ERROR") then DiagError
        else if jsstring_eqb severityText (js "WARNING") then DiagWarning
        else if jsstring_eqb severityText (js "INFO") then DiagInformation
        else if jsstring_eqb severityText (js "HINT") then DiagHint
        else DiagInformation in
      let safeLineNumber :=
        Z.max 0 (Z.min lineNumber (lineCount doc - 1)) in
      let lineText := lineAt doc safeLineNumber in
      let len := Z.of_nat (length lineText) in
      [mkDiagnostic
         (mkRange safeLineNumber (Z.min colNumber len) safeLineNumber len)
         content diagnosticSeverity (js "LLM Reviewer")]
  end%Z.

(** What may stand between the tag and the message: whitespace other than
    a line feed, with at most one colon in it. *)
Definition separator (sep : jsstring) : bool :=
  negb (existsb (N.eqb 10) sep)
  && match trimStart sep with
     | [] => true
     | c :: r => (c =? 58)%N && forallb isWhiteSpace r
     end.

(** A line of the shape the line pattern is written for. *)
Definition taggedLine (sev sep msg : jsstring) (position : option Position)
  : jsstring :=
  js "[" ++ sev ++ js "]" ++ sep ++ msg
  ++ match position with
     | Some position =>
         js " [Ln " ++ Number_toString (N.of_nat (line position + 1))
         ++ js ", Col " ++ Number_toString (N.of_nat (character position))
         ++ js "]"
     | None => []
     end.

(** The severity of the entry is a token of the enumeration, in any letter
    case. *)
Definition recognised (review : LlmClient.ReviewItem) : bool :=
  existsb (jsstring_eqb (toUpperCase (LlmClient.severity review)))
          severityTokens.

(** An entry that is one line of text: no line feed and no [<] in its
    severity and message, and no [\]] in its severity. *)
Definition oneLine (review : LlmClient.ReviewItem) : Prop :=
  plainText (LlmClient.severity review) = true
  /\ plainText (LlmClient.message review) = true
  /\ ~ In 93%N (LlmClient.severity review).

(** A pattern without [^]: what it matches does not depend on where in
    the subject the attempt starts. *)
Fixpoint bolFree (r : regex) : bool :=
  match r with
  | Bol => false
  | Seq a b | Alt a b => bolFree a && bolFree b
  | Star _ r' | Group _ r' => bolFree r'
  | _ => true
  end.

(** The state [s], seen [d] code units further into a longer subject. *)
Definition shift (d : nat) (s : mstate) : mstate :=
  MState (pos s + d) (rest s) (caps s).

(** A reasoning span. *)
Definition thinkSpan (body : jsstring) : jsstring :=
  js "<think>" ++ body ++ js "</think>".

End RoundTrip.

(* ================================================================== *)
(** ** The response of the model *)
(* ================================================================== *)

Module Response.
Import JS VSCode.





End Response.

(* ================================================================== *)
(** ** llm-client.ts on the arguments as [JSON.parse] returns them *)
(* ================================================================== *)

Module Untyped.
Import JS VSCode.

(** A value of the parsed arguments where the source expects a string.
    The arguments are what the model sent: nothing has checked them
    against the schema of the tool.  Of a value that is not a string
    ([null], a number, a boolean, an array, an object, or [undefined] for
    a property that is not there) the source asks only whether it is
    truthy and what a template literal prints for it, which is nothing
    when the conversion throws (an object, or an array holding one, whose
    [toString] property is not a function); no such value has a [replace]
    method. *)
Inductive Value : Type :=
| Str (s : jsstring)
| NotString (truthy : bool) (printed : option jsstring).

Definition undefined : Value := NotString false (Some (js "undefined")).

(** [`${v}`] *)
Definition toString (v : Value) : LlmClient.completion jsstring :=
  match v with
  | Str s => LlmClient.Normal s
  | NotString _ (Some printed) => LlmClient.Normal printed
  | NotString _ None =>
      LlmClient.Throw (js "TypeError: Cannot convert object to primitive value")
  end.

(** An element of the [reviews] array: [null], or any other value, with
    what reading its three properties gives ([undefined] for each on a
    value that has none). *)
Inductive Entry : Type :=
| Null
| Object (severity message codeSnippet : Value).

(** What [JSON.parse] returned: [null]; a value whose [reviews] is missing,
    falsy or not an array; or a value with its [reviews] array. *)
Inductive Result : Type :=
| ResultNull
| NoReviews
| Reviews (reviews : list Entry).

(** [findPositionByCodeSnippet]: a falsy snippet gives [null]; on a truthy
    one the first statement calls [snippet.replace], outside the [try]. *)
Definition findPositionByCodeSnippet (snippet : Value) (doc : TextDocument)
  : LlmClient.completion (option Position) :=
  match snippet with
  | NotString false _ => LlmClient.Normal None
  | NotString true _ =>
      LlmClient.Throw (js "TypeError: snippet.replace is not a function")
  | Str s => LlmClient.findPositionByCodeSnippet (Some s) doc
  end.

(** [formatFunctionCallResults] *)
Definition formatFunctionCallResults (result : Result) (doc : TextDocument)
  : LlmClient.completion jsstring :=
  match result with
  | ResultNull =>
      LlmClient.Throw
        (js "TypeError: Cannot read properties of null (reading 'reviews')")
  | NoReviews => LlmClient.Normal LlmClient.noReviewText
  | Reviews reviews =>
      LlmClient.bind
        (LlmClient.mapM
           (fun review =>
              match review with
              | Null =>
                  LlmClient.Throw
                    (js "TypeError: Cannot read properties of null (reading 'codeSnippet')")
              | Object severity message codeSnippet =>
                  LlmClient.bind
                    (findPositionByCodeSnippet codeSnippet doc)
                    (fun position =>
                       let locationText :=
                         match position with
                         | Some position =>
                             js " [Ln "
                             ++ Number_toString (N.of_nat (line position + 1))
                             ++ js ", Col "
                             ++ Number_toString (N.of_nat (character position))
                             ++ js "]"
                         | None => []
                         end in
                       LlmClient.bind (toString severity) (fun severity =>
                       LlmClient.bind (toString message) (fun message =>
                       LlmClient.Normal (js "[" ++ severity ++ js "]"
                                         ++ message ++ locationText))))
              end)
           reviews)
        (fun formattedLines =>
           LlmClient.Normal (join [10%N] formattedLines))
  end.

(** The part of [requestLLMReviewWithFunctionCalling] after [JSON.parse]:
    the formatter runs inside the [try] block, whose [catch] logs the error
    and lets the function return the fixed text. *)
Definition reviewTextOfToolCall (result : Result) (doc : TextDocument)
  : jsstring :=
  match formatFunctionCallResults result doc with
  | LlmClient.Normal formattedReviews => formattedReviews
  | LlmClient.Throw _ => LlmClient.noReviewText
  end.

(** The error thrown when a value is printed, if any. *)
Definition unprintable (v : Value) : option jsstring :=
  match toString v with
  | LlmClient.Throw error => Some error
  | LlmClient.Normal _ => None
  end.

(** The [TypeError] an entry makes the formatter throw, if any: on a
    [null] entry, on a truthy snippet that is not a string, and then on a
    severity or a message that cannot be printed. *)
Definition typeErrorOf (review : Entry) : option jsstring :=
  match review with
  | Null =>
      Some (js "TypeError: Cannot read properties of null (reading 'codeSnippet')")
  | Object _ _ (NotString true _) =>
      Some (js "TypeError: snippet.replace is not a function")
  | Object severity message _ =>
      match unprintable severity with
      | Some error => Some error
      | None => unprintable message
      end
  end.

(** What is printed for a value that can be printed. *)
Definition printedText (v : Value) : jsstring :=
  match toString v with
  | LlmClient.Normal text => text
  | LlmClient.Throw _ => []
  end.

(** An entry as the formatter reads it when it does not throw: severity
    and message as a template literal prints them, and the snippet if it
    is a string. *)
Definition asReview (review : Entry) : LlmClient.ReviewItem :=
  match review with
  | Null => LlmClient.mkReview [] [] None
  | Object severity message codeSnippet =>
      LlmClient.mkReview (printedText severity) (printedText message)
                         (match codeSnippet with
                          | Str s => Some s
                          | NotString _ _ => None
                          end)
  end.

(** An entry that is as the schema of the tool says. *)
Definition ofReview (review : LlmClient.ReviewItem) : Entry :=
  Object (Str (LlmClient.severity review))
         (Str (LlmClient.message review))
         (match LlmClient.codeSnippet review with
          | Some s => Str s
          | None => undefined
          end).

End Untyped.

(* ================================================================== *)
(** ** Reviews and closed documents over a session *)
(* ================================================================== *)

Module Session.
Import JS VSCode Extension Lint.










End Session.

(* ================================================================== *)
(** ** Properties *)
(* ================================================================== *)

Import JS RegExp VSCode Extension Spec Inv.

(** *** Strings and maps *)

Lemma jsstring_eqb_eq (a b : jsstring) : jsstring_eqb a b = true <-> a = b.
Proof.
  unfold jsstring_eqb. destruct (list_eq_dec N.eq_dec a b); split; congruence.
Qed.

Lemma jsstring_eqb_refl (a : jsstring) : jsstring_eqb a a = true.
Proof. now apply jsstring_eqb_eq. Qed.

Lemma jsstring_eqb_neq (a b : jsstring) : jsstring_eqb a b = false <-> a <> b.
Proof.
  unfold jsstring_eqb. destruct (list_eq_dec N.eq_dec a b); split; congruence.
Qed.

Lemma Map_get_set_same {V} (k : jsstring) (v : V) (mp : JSMap V) :
  Map_get k (Map_set k v mp) = Some v.
Proof.
  induction mp as [|[k' v'] mp IH]; simpl.
  - now rewrite jsstring_eqb_refl.
  - destruct (jsstring_eqb k k') eqn:E; simpl.
    + now rewrite jsstring_eqb_refl.
    + now rewrite E.
Qed.

Lemma Map_get_set_other {V} (k u : jsstring) (v : V) (mp : JSMap V) :
  u <> k -> Map_get u (Map_set k v mp) = Map_get u mp.
Proof.
  intros Hne. induction mp as [|[k' v'] mp IH]; simpl.
  - apply jsstring_eqb_neq in Hne. now rewrite Hne.
  - destruct (jsstring_eqb k k') eqn:E; simpl.
    + apply jsstring_eqb_eq in E. subst k'.
      apply jsstring_eqb_neq in Hne. now rewrite Hne.
    + now rewrite IH.
Qed.

Lemma Map_set_twice {V} (k : jsstring) (v w : V) (mp : JSMap V) :
  Map_set k w (Map_set k v mp) = Map_set k w mp.
Proof.
  induction mp as [|[k' v'] mp IH]; simpl.
  - now rewrite jsstring_eqb_refl.
  - destruct (jsstring_eqb k k') eqn:E; simpl.
    + now rewrite jsstring_eqb_refl.
    + now rewrite E, IH.
Qed.

Lemma setBadge_twice (n n' : nat) (tv : option TreeView) :
  setBadge n (setBadge n' tv) = setBadge n tv.
Proof.
  destruct tv as [tv|]; [|reflexivity].
  unfold setBadge. destruct n', n; reflexivity.
Qed.

(** *** The loop on items is the loop on findings *)

Lemma collectItems_findings uri lines uniq found :
  collectItems uri lines uniq (map (itemOf uri) found)
  = map (itemOf uri) (collectFindings lines uniq found).
Proof.
  revert uniq found.
  induction lines as [|line lines IH]; intros uniq found; simpl.
  - reflexivity.
  - destruct (matchLine line) as [f|]; [|apply IH].
    destruct (Set_has (reviewKey f) uniq); simpl; [apply IH|].
    rewrite <- IH. now rewrite map_app.
Qed.

Lemma insert_sorted_map {A B} (g : A -> B) (cA : A -> A -> Z) (cB : B -> B -> Z) :
  (forall a b, cB (g a) (g b) = cA a b) ->
  forall x l, insert_sorted cB (g x) (map g l) = map g (insert_sorted cA x l).
Proof.
  intros Hc x l. induction l as [|y l IH]; simpl; [reflexivity|].
  rewrite Hc. destruct (0 <? cA x y)%Z; simpl; [now rewrite IH|reflexivity].
Qed.

Lemma Array_sort_map {A B} (g : A -> B) (cA : A -> A -> Z) (cB : B -> B -> Z) :
  (forall a b, cB (g a) (g b) = cA a b) ->
  forall l, Array_sort cB (map g l) = map g (Array_sort cA l).
Proof.
  intros Hc l. induction l as [|x l IH]; simpl; [reflexivity|].
  rewrite IH. now apply insert_sorted_map.
Qed.

(** The items returned are the findings, each rendered by the constructor
    call of the loop body. *)
Lemma _parseReviewItems_findings text uri :
  _parseReviewItems text uri = map (itemOf uri) (parseFindings text).
Proof.
  unfold _parseReviewItems, parseFindings.
  change (@nil ReviewItem) with (map (itemOf uri) []).
  rewrite collectItems_findings.
  now apply Array_sort_map.
Qed.

(** *** The freeform scenario *)

(** C1: the scenario text parses to exactly two findings.  The first has
    severity Error, message "null pointer risk in getUser" and the inline
    numbers 12 and 4, and its item jumps to the zero-based position line 11,
    column 4; the second has severity Hint, message "rename variable x", no
    line or column, and no position to jump to.  The diagnostics pass reads
    the same two entries, with the same messages, the first at zero-based
    line 11 where the document has that many lines. *)
Theorem C1_freeform_scenario (uri : jsstring) (doc : TextDocument) :
  parseFindings scenarioText
  = [ mkFinding Error (js "null pointer risk in getUser") (Some 12%N) (Some 4%N);
      mkFinding Hint (js "rename variable x") None None ]
  /\ _parseReviewItems scenarioText (Some uri)
     = map (itemOf (Some uri)) (parseFindings scenarioText)
  /\ map (fun it => (severity it, positionOf it))
         (_parseReviewItems scenarioText (Some uri))
     = [ (Some Error, Some (11, 4)%Z); (Some Hint, None) ]
  /\ map (fun d => (d_severity d, d_message d))
         (updateDiagnostics doc scenarioText)
     = [ (DiagError, js "null pointer risk in getUser");
         (DiagHint, js "rename variable x") ]
  /\ map (fun d => start_line (range d)) (updateDiagnostics doc scenarioText)
     = [ Z.max 0 (Z.min 11 (lineCount doc - 1));
         Z.max 0 (Z.min 0 (lineCount doc - 1)) ]%Z.
Proof.
  split; [vm_compute; reflexivity|].
  split; [apply _parseReviewItems_findings|].
  split; [vm_compute; reflexivity|].
  split; vm_compute; reflexivity.
Qed.

(** *** The duplicate scenario of the structured path *)

(** C7: the payload with the same warning twice gives, through the
    structured path, exactly one finding: the second line has the identity
    key of the first and is not added. *)
Theorem C7_structured_duplicate_once (doc : TextDocument) :
  parseStructuredFindings duplicatePayload doc
  = [ mkFinding Warning (js "m") None None ]
  /\ parseStructured duplicatePayload doc
     = [ itemOf (Some (uriOf doc)) (mkFinding Warning (js "m") None None) ]
  /\ length (parseStructured duplicatePayload doc) = 1
  /\ length (matchedFindings
               (LlmClient.reviewTextOfToolCall duplicatePayload doc)) = 2.
Proof.
  repeat split; vm_compute; reflexivity.
Qed.

(** *** The result store: update *)

(** C8: an update sets the entry of its uri to the parsed text, leaves every
    other entry alone, recomputes the badge from the new map, and fires one
    notification, whose listener sees the new entry and badge.  A second
    update with the same uri and text leaves
    map and view as the first did and fires a second notification. *)
Theorem C8_update_replaces_and_notifies (uri text : jsstring)
        (p : ReviewTreeDataProvider) :
  let p1 := update uri text p in
  let p2 := update uri text p1 in
  Map_get uri (_reviewItemsByFile p1) = Some (_parseReviewItems text (Some uri))
  /\ (forall u, u <> uri ->
        Map_get u (_reviewItemsByFile p1) = Map_get u (_reviewItemsByFile p))
  /\ fired p1 = fired p ++ [(_reviewItemsByFile p1, _treeView p1)]
  /\ _treeView p1
     = setBadge (totalReviewCount (_reviewItemsByFile p1)) (_treeView p)
  /\ _reviewItemsByFile p2 = _reviewItemsByFile p1
  /\ _treeView p2 = _treeView p1
  /\ fired p2
     = fired p ++ [(_reviewItemsByFile p1, _treeView p1);
                   (_reviewItemsByFile p1, _treeView p1)].
Proof.
  cbv zeta. unfold update, fire; simpl.
  rewrite !Map_set_twice, !setBadge_twice.
  split; [apply Map_get_set_same|].
  split; [intros u Hu; now apply Map_get_set_other|].
  split; [reflexivity|].
  split; [reflexivity|].
  split; [reflexivity|].
  split; [reflexivity|].
  now rewrite <- app_assoc.
Qed.

(** *** The result store: the aggregate count *)

Lemma fold_left_add_shift {A} (g : A -> nat) (l : list A) (a : nat) :
  fold_left (fun total x => total + g x) l a
  = a + list_sum (map g l).
Proof.
  revert a. induction l as [|x l IH]; intros a; simpl; [lia|].
  rewrite IH. lia.
Qed.

Lemma totalReviewCount_sum (mp : JSMap (list ReviewItem)) :
  totalReviewCount mp = list_sum (map (fun kv => length (snd kv)) mp).
Proof.
  unfold totalReviewCount, Map_values.
  rewrite (fold_left_add_shift (@length ReviewItem)), map_map. reflexivity.
Qed.

Lemma Map_get_In_keys {V} (u : jsstring) (mp : JSMap V) :
  Map_get u mp <> None -> In u (map fst mp).
Proof.
  induction mp as [|[k v] mp IH]; simpl; [congruence|].
  destruct (jsstring_eqb u k) eqn:E.
  - apply jsstring_eqb_eq in E. now left.
  - intros H. right. now apply IH.
Qed.

Lemma Map_get_not_key {V} (u : jsstring) (mp : JSMap V) :
  ~ In u (map fst mp) -> Map_get u mp = None.
Proof.
  intros H. destruct (Map_get u mp) eqn:E; [|reflexivity].
  exfalso. apply H, Map_get_In_keys. congruence.
Qed.

Lemma Map_set_keys {V} (k : jsstring) (v : V) (mp : JSMap V) (u : jsstring) :
  In u (map fst (Map_set k v mp)) -> u = k \/ In u (map fst mp).
Proof.
  induction mp as [|[k' v'] mp IH]; simpl.
  - intros [H|[]]; now left.
  - destruct (jsstring_eqb k k') eqn:E; simpl.
    + apply jsstring_eqb_eq in E. subst k'. intros [H|H]; auto.
    + intros [H|H]; auto. destruct (IH H); auto.
Qed.

Lemma Map_set_NoDup {V} (k : jsstring) (v : V) (mp : JSMap V) :
  NoDup (map fst mp) -> NoDup (map fst (Map_set k v mp)).
Proof.
  induction mp as [|[k' v'] mp IH]; simpl; intros H.
  - constructor; [easy|constructor].
  - inversion H as [|? ? Hn Hd]; subst.
    destruct (jsstring_eqb k k') eqn:E; simpl.
    + apply jsstring_eqb_eq in E. subst k'. now constructor.
    + constructor; [|now apply IH].
      intros Hin. apply Map_set_keys in Hin. destruct Hin as [->|Hin].
      * now rewrite jsstring_eqb_refl in E.
      * contradiction.
Qed.

Lemma Map_delete_keys {V} (k : jsstring) (mp : JSMap V) (u : jsstring) :
  In u (map fst (Map_delete k mp)) -> In u (map fst mp).
Proof.
  induction mp as [|[k' v'] mp IH]; simpl; [easy|].
  destruct (jsstring_eqb k k'); simpl; intuition.
Qed.

Lemma Map_delete_NoDup {V} (k : jsstring) (mp : JSMap V) :
  NoDup (map fst mp) -> NoDup (map fst (Map_delete k mp)).
Proof.
  induction mp as [|[k' v'] mp IH]; simpl; intros H; [constructor|].
  inversion H as [|? ? Hn Hd]; subst.
  destruct (jsstring_eqb k k'); simpl; [assumption|].
  constructor; [|now apply IH].
  intros Hin. now apply Map_delete_keys in Hin.
Qed.

Lemma Map_get_delete_same {V} (k : jsstring) (mp : JSMap V) :
  NoDup (map fst mp) -> Map_get k (Map_delete k mp) = None.
Proof.
  induction mp as [|[k' v'] mp IH]; simpl; intros H; [reflexivity|].
  inversion H as [|? ? Hn Hd]; subst.
  destruct (jsstring_eqb k k') eqn:E; simpl.
  - apply jsstring_eqb_eq in E. subst k'. now apply Map_get_not_key.
  - rewrite E. now apply IH.
Qed.

Lemma Map_get_delete_other {V} (k u : jsstring) (mp : JSMap V) :
  u <> k -> Map_get u (Map_delete k mp) = Map_get u mp.
Proof.
  intros Hne. induction mp as [|[k' v'] mp IH]; simpl; [reflexivity|].
  destruct (jsstring_eqb k k') eqn:E; simpl.
  - apply jsstring_eqb_eq in E. subst k'.
    apply jsstring_eqb_neq in Hne. now rewrite Hne.
  - now rewrite IH.
Qed.

(** Summing a function that is [a] at [k] and [h] elsewhere, over a
    duplicate-free list holding [k]. *)
Lemma list_sum_single (k : jsstring) (a : nat) (h : jsstring -> nat)
      (l : list jsstring) :
  NoDup l -> In k l -> h k = 0 ->
  list_sum (map (fun u => if jsstring_eqb u k then a else h u) l)
  = a + list_sum (map h l).
Proof.
  intros Hnd Hin Hk. induction l as [|x l IH]; [easy|].
  inversion Hnd as [|? ? Hx Hl]; subst. simpl.
  destruct (jsstring_eqb x k) eqn:E.
  - apply jsstring_eqb_eq in E. subst x. rewrite Hk.
    replace (map (fun u => if jsstring_eqb u k then a else h u) l) with (map h l);
      [lia|].
    apply map_ext_in. intros u Hu.
    destruct (jsstring_eqb u k) eqn:E'; [|reflexivity].
    apply jsstring_eqb_eq in E'. now subst u.
  - destruct Hin as [->|Hin]; [now rewrite jsstring_eqb_refl in E|].
    rewrite (IH Hl Hin). lia.
Qed.

(** The total over the map is the sum of the entry sizes over any
    duplicate-free list of uris that covers its keys. *)
Lemma totalReviewCount_over (mp : JSMap (list ReviewItem)) (l : list jsstring) :
  NoDup (map fst mp) -> NoDup l ->
  (forall u, In u (map fst mp) -> In u l) ->
  totalReviewCount mp = list_sum (map (entryCount mp) l).
Proof.
  rewrite totalReviewCount_sum.
  induction mp as [|[k v] mp IH]; simpl; intros Hk Hl Hcov.
  - induction l as [|x l IHl]; [reflexivity|].
    simpl. inversion Hl; subst. now rewrite <- IHl.
  - inversion Hk as [|? ? Hn Hd]; subst.
    rewrite (IH Hd Hl) by (intros u Hu; apply Hcov; now right).
    unfold entryCount at 2; simpl.
    rewrite <- (list_sum_single k (length v) (entryCount mp) l Hl).
    + f_equal. apply map_ext. intros u. unfold entryCount. simpl.
      now destruct (jsstring_eqb u k).
    + apply Hcov. now left.
    + unfold entryCount. now rewrite Map_get_not_key.
Qed.

Lemma Map_get_key {V} (u : jsstring) (mp : JSMap V) :
  In u (map fst mp) -> Map_get u mp <> None.
Proof.
  induction mp as [|[k v] mp IH]; simpl; [easy|].
  destruct (jsstring_eqb u k) eqn:E; [easy|].
  intros [H|H]; [|now apply IH].
  subst k. now rewrite jsstring_eqb_refl in E.
Qed.

Lemma setBadge_viewFor (n : nat) (tv : TreeView) :
  setBadge n (Some tv) = viewFor n.
Proof. reflexivity. Qed.

Lemma aggregateCount_viewFor mp n fl :
  aggregateCount (mkProvider mp (viewFor n) fl) = n.
Proof.
  unfold aggregateCount, viewFor, setBadge; simpl.
  destruct n; reflexivity.
Qed.

Lemma liveText_snoc u ops op :
  liveText u (ops ++ [op]) = liveStep u (liveText u ops) op.
Proof. unfold liveText. now rewrite fold_left_app. Qed.

Lemma liveText_mentions u ops t :
  liveText u ops = Some t -> In u (map opUri ops).
Proof.
  revert t. induction ops as [|op ops IH] using rev_ind; [discriminate|].
  intros t. rewrite liveText_snoc, map_app, in_app_iff. simpl.
  destruct op as [u' t'|u']; simpl;
    destruct (jsstring_eqb u u') eqn:E;
    try (apply jsstring_eqb_eq in E; subst u'; now auto);
    try discriminate; intros H; left; now apply IH with t.
Qed.

Lemma storeInv_activated : storeInv [] activated.
Proof.
  split; simpl; try reflexivity. constructor.
Qed.

Lemma viewFor_is_Some n : exists tv, viewFor n = Some tv.
Proof. unfold viewFor, setBadge. destruct (0 <? n); now eexists. Qed.

Lemma storeInv_step ops p op :
  storeInv ops p -> storeInv (ops ++ [op]) (applyOp p op).
Proof.
  intros [Hk Hget Hv].
  destruct (viewFor_is_Some (totalReviewCount (_reviewItemsByFile p))) as [tv Htv].
  rewrite Htv in Hv.
  destruct op as [k t|k]; simpl.
  - unfold update, fire; simpl. rewrite Hv. split; simpl.
    + now apply Map_set_NoDup.
    + intros u. rewrite liveText_snoc. simpl.
      destruct (jsstring_eqb u k) eqn:E.
      * apply jsstring_eqb_eq in E. subst u. apply Map_get_set_same.
      * apply jsstring_eqb_neq in E. rewrite Map_get_set_other by assumption.
        apply Hget.
    + reflexivity.
  - unfold clearFileReviews, Map_has.
    destruct (Map_get k (_reviewItemsByFile p)) as [old|] eqn:Eold.
    + unfold fire, updateBadge; simpl. rewrite Hv. split; simpl.
      * now apply Map_delete_NoDup.
      * intros u. rewrite liveText_snoc. simpl.
        destruct (jsstring_eqb u k) eqn:E.
        -- apply jsstring_eqb_eq in E. subst u. now apply Map_get_delete_same.
        -- apply jsstring_eqb_neq in E. rewrite Map_get_delete_other by assumption.
           apply Hget.
      * reflexivity.
    + split; try assumption.
      * intros u. rewrite liveText_snoc. simpl.
        destruct (jsstring_eqb u k) eqn:E; [|apply Hget].
        apply jsstring_eqb_eq in E. subst u. exact Eold.
      * now rewrite Hv, Htv.
Qed.

Lemma storeInv_run ops : storeInv ops (runOps ops activated).
Proof.
  induction ops as [|op ops IH] using rev_ind.
  - apply storeInv_activated.
  - unfold runOps. rewrite fold_left_app. simpl. now apply storeInv_step.
Qed.

(** C9: after any history of updates and clears run on the activated
    store, the aggregate count shown by the badge is the sum, over the uris
    updated and not cleared since, of the number of findings of their last
    update.  It is the total the store computes from its map, and the view
    carries the badge of that sum (no badge when the sum is 0). *)
Theorem C9_aggregate_count (ops : list StoreOp) :
  let p := runOps ops activated in
  aggregateCount p = expectedCount ops
  /\ totalReviewCount (_reviewItemsByFile p) = expectedCount ops
  /\ _treeView p = setBadge (expectedCount ops) (Some (mkTreeView None)).
Proof.
  cbv zeta.
  destruct (storeInv_run ops) as [Hk Hget Hv].
  assert (Htot : totalReviewCount (_reviewItemsByFile (runOps ops activated))
                 = expectedCount ops).
  { rewrite (totalReviewCount_over _ (nodup (list_eq_dec N.eq_dec) (map opUri ops))).
    - unfold expectedCount. f_equal. apply map_ext. intros u.
      unfold entryCount. rewrite Hget. now destruct (liveText u ops).
    - assumption.
    - apply NoDup_nodup.
    - intros u Hu. apply nodup_In. apply Map_get_key in Hu.
      rewrite Hget in Hu. destruct (liveText u ops) as [t|] eqn:El; [|easy].
      now apply liveText_mentions with t. }
  rewrite Htot in Hv.
  split; [|split; [assumption|]].
  - unfold aggregateCount. rewrite Hv. unfold viewFor, setBadge.
    destruct (expectedCount ops); reflexivity.
  - exact Hv.
Qed.

(** *** The final sort *)

Section StableSort.
Context {A : Type} (key : A -> option N).

Let compare (a b : A) : Z := compareLine (key a) (key b).
Let le (a b : A) : Prop := lineLe (key a) (key b).

Lemma compareLine_le (a b : option N) :
  (0 <? compareLine a b)%Z = false <-> lineLe a b.
Proof.
  destruct a as [x|], b as [y|]; simpl; rewrite ?Z.ltb_ge, ?Z.ltb_lt;
    try (split; intros; (lia || easy)).
Qed.

Lemma compareLine_gt (a b : option N) :
  (0 <? compareLine a b)%Z = true -> lineLe b a /\ a <> b.
Proof.
  destruct a as [x|], b as [y|]; simpl; rewrite ?Z.ltb_lt;
    intros H; split; try easy; try lia.
  intros [= ->]. lia.
Qed.

Lemma lineLe_trans (a b c : option N) : lineLe a b -> lineLe b c -> lineLe a c.
Proof.
  destruct a as [x|], b as [y|], c as [z|]; simpl; try easy. lia.
Qed.

Lemma insert_sorted_perm (x : A) (l : list A) :
  Permutation (x :: l) (insert_sorted compare x l).
Proof.
  induction l as [|y l IH]; simpl; [reflexivity|].
  destruct (0 <? compare x y)%Z; [|reflexivity].
  rewrite perm_swap. now constructor.
Qed.

Lemma Array_sort_perm (l : list A) : Permutation l (Array_sort compare l).
Proof.
  induction l as [|x l IH]; simpl; [constructor|].
  rewrite <- insert_sorted_perm. now constructor.
Qed.

Lemma insert_sorted_sorted (x : A) (l : list A) :
  StronglySorted le l -> StronglySorted le (insert_sorted compare x l).
Proof.
  induction l as [|y l IH]; simpl; intros Hs.
  - constructor; constructor.
  - inversion Hs as [|? ? Hl Hy]; subst.
    destruct (0 <? compare x y)%Z eqn:E.
    + constructor; [now apply IH|].
      apply (Permutation_Forall (insert_sorted_perm x l)).
      constructor; [|assumption].
      now apply compareLine_gt in E.
    + apply compareLine_le in E.
      constructor; [assumption|].
      constructor; [assumption|].
      eapply Forall_impl; [|exact Hy].
      intros z Hz. unfold le in *. now apply lineLe_trans with (key y).
Qed.

Lemma Array_sort_sorted (l : list A) : StronglySorted le (Array_sort compare l).
Proof.
  induction l as [|x l IH]; simpl; [constructor|].
  now apply insert_sorted_sorted.
Qed.

Lemma option_N_eqb_eq (a b : option N) : option_N_eqb a b = true <-> a = b.
Proof.
  destruct a as [x|], b as [y|]; simpl; try (split; congruence).
  rewrite N.eqb_eq. split; congruence.
Qed.

(** Elements of one line number keep their order: the sort only moves an
    element past elements of a different line number. *)
Lemma insert_sorted_filter (k : option N) (x : A) (l : list A) :
  filter (fun a => option_N_eqb (key a) k) (insert_sorted compare x l)
  = filter (fun a => option_N_eqb (key a) k) (x :: l).
Proof.
  induction l as [|y l IH]; [reflexivity|].
  simpl insert_sorted.
  destruct (0 <? compare x y)%Z eqn:E; [|reflexivity].
  apply compareLine_gt in E. destruct E as [_ Hne].
  simpl in *. rewrite IH.
  destruct (option_N_eqb (key x) k) eqn:Ex;
    destruct (option_N_eqb (key y) k) eqn:Ey; try reflexivity.
  apply option_N_eqb_eq in Ex, Ey. congruence.
Qed.

Lemma Array_sort_filter (k : option N) (l : list A) :
  filter (fun a => option_N_eqb (key a) k) (Array_sort compare l)
  = filter (fun a => option_N_eqb (key a) k) l.
Proof.
  induction l as [|x l IH]; [reflexivity|].
  simpl Array_sort. rewrite insert_sorted_filter. simpl. now rewrite IH.
Qed.
End StableSort.

(** C3: the list the parser returns is in ascending order of line number
    with the items that have none at the end; it holds the items the loop
    collected and no others; and the items of any one line number, as those
    with none, stand in the order the loop collected them. *)
Theorem C3_sorted_by_line_stable (text : jsstring) (uri : option jsstring) :
  let collected := collectItems uri (reviewLines text) [] [] in
  let out := _parseReviewItems text uri in
  StronglySorted (fun a b => lineLe (lineNumber a) (lineNumber b)) out
  /\ Permutation collected out
  /\ forall k : option N,
       filter (fun it => option_N_eqb (lineNumber it) k) out
       = filter (fun it => option_N_eqb (lineNumber it) k) collected.
Proof.
  cbv zeta. unfold _parseReviewItems.
  split; [apply (Array_sort_sorted lineNumber)|].
  split; [apply (Array_sort_perm lineNumber)|].
  intros k. apply (Array_sort_filter lineNumber).
Qed.

(** *** Identity keys *)

Lemma js_cons (a : ascii) (s : string) : js (String a s) = N_of_ascii a :: js s.
Proof. reflexivity. Qed.

Lemma js_inj (a b : string) : js a = js b -> a = b.
Proof.
  revert b. induction a as [|x a IH]; intros [|y b]; try discriminate.
  - reflexivity.
  - rewrite !js_cons. intros [= Hxy Hab].
    f_equal; [|now apply IH].
    rewrite <- (ascii_N_embedding x), <- (ascii_N_embedding y). now rewrite Hxy.
Qed.

Lemma string_of_uint_digits (d : Decimal.uint) :
  Forall (fun c => isDigit c = true) (js (NilEmpty.string_of_uint d)).
Proof.
  induction d as [|d IH|d IH|d IH|d IH|d IH|d IH|d IH|d IH|d IH|d IH];
    cbn [NilEmpty.string_of_uint]; [constructor|..];
    rewrite js_cons; (constructor; [reflexivity|exact IH]).
Qed.

Lemma Severity_value_no_dash (s : Severity) : ~ In 45%N (Severity_value s).
Proof.
  destruct s; vm_compute; intuition discriminate.
Qed.

Lemma Severity_value_inj (s s' : Severity) :
  Severity_value s = Severity_value s' -> s = s'.
Proof. destruct s, s'; (reflexivity || discriminate). Qed.

(** A string is cut at its first separator in one way only. *)
Lemma cut_at_first (sep : N) (a a' b b' : jsstring) :
  ~ In sep a -> ~ In sep a' ->
  a ++ sep :: b = a' ++ sep :: b' -> a = a' /\ b = b'.
Proof.
  revert a'. induction a as [|x a IH]; intros [|y a'] Ha Ha'; simpl.
  - now intros [= ->].
  - intros [= <- _]. exfalso. apply Ha'. now left.
  - intros [= -> _]. exfalso. apply Ha. now left.
  - intros [= -> H].
    destruct (IH a') as [-> ->]; auto.
    + intros Hin. apply Ha. now right.
    + intros Hin. apply Ha'. now right.
Qed.

(** And at its last separator in one way only. *)
Lemma cut_at_last (sep : N) (a a' b b' : jsstring) :
  ~ In sep b -> ~ In sep b' ->
  a ++ sep :: b = a' ++ sep :: b' -> a = a' /\ b = b'.
Proof.
  intros Hb Hb' H.
  apply (f_equal (@rev N)) in H.
  rewrite !rev_app_distr in H. simpl in H. rewrite <- !app_assoc in H. simpl in H.
  apply cut_at_first in H; try (rewrite <- in_rev; assumption).
  destruct H as [H1 H2].
  apply (f_equal (@rev N)) in H1, H2. rewrite !rev_involutive in H1, H2.
  now split.
Qed.


(** *** Numbers *)

Lemma safe_below_Infinity : (2 ^ 53 < Infinity)%N.
Proof. vm_compute. reflexivity. Qed.

(** A natural up to 2^53 is a number. *)
Lemma toNumber_small (n : N) : (n <= 2 ^ 53)%N -> toNumber n = n.
Proof.
  intros Hn. destruct (N.eq_dec n (2 ^ 53)) as [->|Hne];
    [vm_compute; reflexivity|].
  assert (Hlt : (n < 2 ^ 53)%N) by lia.
  assert (He : (N.log2 n - 52 = 0)%N).
  { destruct (N.eq_dec n 0) as [->|H0]; [reflexivity|].
    assert (N.log2 n < 53)%N by (apply N.log2_lt_pow2; lia). lia. }
  unfold toNumber. cbv zeta. rewrite He.
  change (negb (0 =? 0)%N) with false. cbn [andb].
  rewrite N.shiftr_0_r, N.shiftl_0_r. pose proof safe_below_Infinity. lia.
Qed.

(** A natural of 53 bits times a power of two is a number. *)
Lemma toNumber_fixed (q e : N) :
  (2 ^ 52 <= q < 2 ^ 53)%N -> (q * 2 ^ e < Infinity)%N ->
  toNumber (q * 2 ^ e) = (q * 2 ^ e)%N.
Proof.
  intros [Hq1 Hq2] Hlt.
  assert (Hq0 : (0 < q)%N).
  { assert (2 ^ 52 = 4503599627370496)%N by reflexivity. lia. }
  assert (Hlq : N.log2 q = 52%N).
  { apply N.log2_unique; [lia|]. split; [exact Hq1|exact Hq2]. }
  assert (He : (N.log2 (q * 2 ^ e) - 52 = e)%N).
  { rewrite N.log2_mul_pow2 by lia. lia. }
  assert (Hp : (2 ^ e <> 0)%N) by (apply N.pow_nonzero; lia).
  unfold toNumber. cbv zeta. rewrite He.
  rewrite N.shiftr_div_pow2, N.div_mul by exact Hp.
  rewrite !N.shiftl_mul_pow2, N.sub_diag, N.mul_1_l.
  assert (Hh : (2 ^ (e - 1) <> 0)%N) by (apply N.pow_nonzero; lia).
  replace (2 ^ (e - 1) <? 0)%N with false by (symmetry; apply N.ltb_ge; lia).
  replace (0 =? 2 ^ (e - 1))%N with false by (symmetry; apply N.eqb_neq; lia).
  cbn [andb orb]. rewrite andb_false_r. lia.
Qed.

Lemma toNumber_Infinity : toNumber Infinity = Infinity.
Proof. vm_compute. reflexivity. Qed.

(** What rounding gives: the natural itself, [Infinity], or 53 bits times a
    power of two. *)
Lemma toNumber_cases (n : N) :
  (n <= 2 ^ 53 /\ toNumber n = n)%N
  \/ toNumber n = Infinity
  \/ exists q e, (2 ^ 52 <= q < 2 ^ 53)%N /\ (q * 2 ^ e < Infinity)%N
                 /\ toNumber n = (q * 2 ^ e)%N.
Proof.
  destruct (N.le_gt_cases n (2 ^ 53)) as [Hn|Hn];
    [left; split; [exact Hn|now apply toNumber_small]|].
  right.
  assert (H0 : (0 < n)%N) by lia.
  destruct (N.log2_spec n H0) as [Hlo Hhi].
  assert (HL : (53 <= N.log2 n)%N).
  { apply N.log2_le_pow2; [exact H0|lia]. }
  set (e := (N.log2 n - 52)%N).
  assert (HLe : N.log2 n = (52 + e)%N) by (unfold e; lia).
  assert (Hp : (2 ^ e <> 0)%N) by (apply N.pow_nonzero; lia).
  set (q := N.shiftr n e).
  assert (Hq : (2 ^ 52 <= q < 2 ^ 53)%N).
  { unfold q. rewrite N.shiftr_div_pow2. split.
    - apply N.div_le_lower_bound; [exact Hp|].
      rewrite N.mul_comm, <- N.pow_add_r, <- HLe. exact Hlo.
    - apply N.Div0.div_lt_upper_bound.
      rewrite <- N.pow_add_r.
      replace (e + 53)%N with (N.succ (N.log2 n)) by lia. exact Hhi. }
  unfold toNumber. cbv zeta. fold e. fold q.
  set (up := (negb (e =? 0)
              && ((N.shiftl 1 (e - 1) <? n - N.shiftl q e)
                  || (n - N.shiftl q e =? N.shiftl 1 (e - 1)) && N.odd q))%N).
  set (q' := if up then (q + 1)%N else q).
  assert (Hq' : (2 ^ 52 <= q' <= 2 ^ 53)%N) by (unfold q'; destruct up; lia).
  rewrite N.shiftl_mul_pow2.
  destruct (N.le_gt_cases Infinity (q' * 2 ^ e)) as [Hi|Hi].
  - left. lia.
  - right. replace (N.min (q' * 2 ^ e) Infinity) with (q' * 2 ^ e)%N by lia.
    destruct (N.eq_dec q' (2 ^ 53)) as [E|E].
    + exists (2 ^ 52)%N, (e + 1)%N.
      assert (Hv : (q' * 2 ^ e = 2 ^ 52 * 2 ^ (e + 1))%N).
      { rewrite E, N.pow_add_r. change (2 ^ 53)%N with (2 ^ 52 * 2 ^ 1)%N. lia. }
      rewrite Hv in *. repeat split; lia.
    + exists q', e. repeat split; try lia.
Qed.

(** Rounding a number again gives the number. *)
Lemma toNumber_idem (n : N) : toNumber (toNumber n) = toNumber n.
Proof.
  destruct (toNumber_cases n) as [[_ H]|[H|[q [e [Hq [Hlt H]]]]]]; rewrite H.
  - exact H.
  - apply toNumber_Infinity.
  - now apply toNumber_fixed.
Qed.

Lemma parseInt10_number (d : jsstring) : toNumber (parseInt10 d) = parseInt10 d.
Proof. apply toNumber_idem. Qed.

Lemma minus1_small (x : N) :
  (x <= 2 ^ 53)%N -> minus1 x = (Z.of_N x - 1)%Z.
Proof.
  intros Hx. unfold minus1. destruct (x =? 0)%N eqn:E.
  - apply N.eqb_eq in E. now subst.
  - apply N.eqb_neq in E. rewrite toNumber_small by lia. lia.
Qed.

Lemma plus1_small (x : N) : (x < 2 ^ 53)%N -> plus1 x = (x + 1)%N.
Proof. intros Hx. unfold plus1. apply toNumber_small. lia. Qed.

(** The digits printed for a number round to it. *)
Lemma shortest_from_sound (x : N) :
  toNumber x = x ->
  forall fuel unit, toNumber (shortest_from fuel unit x) = x.
Proof.
  intros Hx. induction fuel as [|fuel IH]; intros unit; [exact Hx|].
  cbn [shortest_from].
  destruct (toNumber (x / unit * unit) =? x)%N eqn:E1;
    destruct (toNumber (x / unit * unit + unit) =? x)%N eqn:E2;
    try apply N.eqb_eq in E1; try apply N.eqb_eq in E2.
  - destruct (x - x / unit * unit <? x / unit * unit + unit - x)%N; [exact E1|].
    destruct (x / unit * unit + unit - x <? x - x / unit * unit)%N; [exact E2|].
    destruct (N.even (x / unit)); assumption.
  - exact E1.
  - exact E2.
  - apply IH.
Qed.

Lemma shortest_sound (x : N) : toNumber x = x -> toNumber (shortest x) = x.
Proof.
  intros Hx. unfold shortest. destruct (x <=? 2 ^ 53)%N; [exact Hx|].
  now apply shortest_from_sound.
Qed.

(** *** Numerals *)

Lemma decimal_inj (n n' : N) : decimal n = decimal n' -> n = n'.
Proof.
  unfold decimal. intros H. apply js_inj in H.
  apply DecimalN.Unsigned.to_uint_inj.
  assert (Some (N.to_uint n) = Some (N.to_uint n')) as [= ->]; [|reflexivity].
  now rewrite <- !NilEmpty.usu, H.
Qed.

Lemma decimal_digits (n : N) : Forall (fun c => isDigit c = true) (decimal n).
Proof. apply string_of_uint_digits. Qed.

Lemma decimal_nonempty (n : N) : decimal n <> [].
Proof.
  unfold decimal, N.to_uint. destruct n as [|p]; [discriminate|].
  pose proof (DecimalPos.Unsigned.to_uint_nonnil p) as Hn.
  destruct (Pos.to_uint p); [congruence|..]; discriminate.
Qed.

Lemma withoutLeadingZeros_spec (l : jsstring) :
  l = repeat 48%N (length l - length (withoutLeadingZeros l))
      ++ withoutLeadingZeros l
  /\ length (withoutLeadingZeros l) <= length l.
Proof.
  induction l as [|c l [IH1 IH2]]; [now split|].
  cbn [withoutLeadingZeros]. destruct (c =? 48)%N eqn:E.
  - apply N.eqb_eq in E. subst c. cbn [length].
    replace (S (length l) - length (withoutLeadingZeros l))
      with (S (length l - length (withoutLeadingZeros l))) by lia.
    cbn [repeat app]. split; [now rewrite <- IH1|lia].
  - rewrite Nat.sub_diag. now split.
Qed.

Lemma withoutTrailingZeros_spec (l : jsstring) :
  l = withoutTrailingZeros l
      ++ repeat 48%N (length l - length (withoutTrailingZeros l)).
Proof.
  unfold withoutTrailingZeros.
  destruct (withoutLeadingZeros_spec (rev l)) as [H _].
  apply (f_equal (@rev N)) in H.
  rewrite rev_involutive, rev_app_distr, rev_repeat in H.
  now rewrite !length_rev in *.
Qed.

Lemma withoutTrailingZeros_In (c : N) (l : jsstring) :
  In c (withoutTrailingZeros l) -> In c l.
Proof.
  intros H. rewrite (withoutTrailingZeros_spec l). apply in_or_app. now left.
Qed.

Lemma digit_numeralUnit (l : jsstring) :
  Forall (fun c => isDigit c = true) l ->
  Forall (fun c => numeralUnit c = true) l.
Proof.
  apply Forall_impl. intros c Hc. unfold numeralUnit. now rewrite Hc.
Qed.

Lemma exponential_units (v : N) :
  Forall (fun c => numeralUnit c = true) (exponential v).
Proof.
  unfold exponential.
  pose proof (digit_numeralUnit _ (decimal_digits v)) as Hd.
  destruct (withoutTrailingZeros (decimal v)) as [|d ds] eqn:E; [exact Hd|].
  assert (Hs : Forall (fun c => numeralUnit c = true) (d :: ds)).
  { apply Forall_forall. intros c Hc. rewrite Forall_forall in Hd.
    apply Hd, withoutTrailingZeros_In. now rewrite E. }
  inversion Hs as [|? ? Hd1 Hds]; subst.
  constructor; [exact Hd1|].
  apply Forall_app. split.
  - destruct ds; [constructor|]. constructor; [reflexivity|exact Hds].
  - change (js "e+") with [101%N; 43%N]. cbn [app].
    repeat (constructor; [reflexivity|]).
    apply digit_numeralUnit, decimal_digits.
Qed.

Lemma digits_no_unit (c : N) (l : jsstring) :
  isDigit c = false -> Forall (fun x => isDigit x = true) l -> ~ In c l.
Proof.
  intros Hc Hl Hin. rewrite Forall_forall in Hl. apply Hl in Hin. congruence.
Qed.

(** The exponential notation of two naturals is the same only when they
    are. *)
Lemma exponential_inj (v v' : N) :
  withoutTrailingZeros (decimal v) <> [] ->
  withoutTrailingZeros (decimal v') <> [] ->
  exponential v = exponential v' -> v = v'.
Proof.
  unfold exponential. intros Hv Hv' H.
  pose proof (withoutTrailingZeros_spec (decimal v)) as S1.
  pose proof (withoutTrailingZeros_spec (decimal v')) as S2.
  pose proof (decimal_digits v) as D1. pose proof (decimal_digits v') as D2.
  destruct (withoutTrailingZeros (decimal v)) as [|d ds] eqn:E1; [congruence|].
  destruct (withoutTrailingZeros (decimal v')) as [|d' ds'] eqn:E2; [congruence|].
  assert (G1 : Forall (fun c => isDigit c = true) (d :: ds)).
  { apply Forall_forall. intros c Hc. rewrite Forall_forall in D1.
    apply D1, withoutTrailingZeros_In. now rewrite E1. }
  assert (G2 : Forall (fun c => isDigit c = true) (d' :: ds')).
  { apply Forall_forall. intros c Hc. rewrite Forall_forall in D2.
    apply D2, withoutTrailingZeros_In. now rewrite E2. }
  injection H as Hd H. subst d'.
  change (js "e+") with [101%N; 43%N] in H. cbn [app] in H.
  assert (Hm : forall u, Forall (fun c => isDigit c = true) u ->
                 ~ In 101%N (match u with [] => [] | _ :: _ => 46%N :: u end)).
  { intros u Hu Hin. destruct u as [|a u]; [exact Hin|].
    destruct Hin as [Hin|Hin]; [discriminate|].
    revert Hin. now apply digits_no_unit. }
  inversion G1 as [|? ? _ G1']; inversion G2 as [|? ? _ G2']; subst.
  apply cut_at_first in H; [|now apply Hm|now apply Hm].
  destruct H as [Hds He]. injection He as He.
  apply decimal_inj, Nat2N.inj in He.
  assert (Hds' : ds = ds').
  { destruct ds, ds'; try discriminate; [reflexivity|].
    injection Hds as -> ->. reflexivity. }
  subst ds'.
  pose proof (decimal_nonempty v) as N1. pose proof (decimal_nonempty v') as N2.
  assert (Hlen : length (decimal v) = length (decimal v')).
  { destruct (decimal v), (decimal v'); try congruence. cbn [length] in *. lia. }
  apply decimal_inj. rewrite S1, S2, Hlen. reflexivity.
Qed.

Lemma exponential_marked (v : N) :
  withoutTrailingZeros (decimal v) <> [] -> In 101%N (exponential v).
Proof.
  unfold exponential. intros Hv.
  destruct (withoutTrailingZeros (decimal v)) as [|d ds]; [congruence|].
  right. apply in_or_app. right. now left.
Qed.

Lemma numeral_units (v : N) : Forall (fun c => numeralUnit c = true) (numeral v).
Proof.
  unfold numeral. destruct (v <? 10 ^ 21)%N.
  - apply digit_numeralUnit, decimal_digits.
  - apply exponential_units.
Qed.

Lemma numeral_inj (v v' : N) : numeral v = numeral v' -> v = v'.
Proof.
  assert (Hx : forall a b, exponential a = decimal b -> a = b).
  { intros a b H. destruct (withoutTrailingZeros (decimal a)) eqn:E.
    - unfold exponential in H. rewrite E in H. now apply decimal_inj.
    - exfalso. apply (digits_no_unit 101 (decimal b) eq_refl (decimal_digits b)).
      rewrite <- H. apply exponential_marked. congruence. }
  unfold numeral.
  destruct (v <? 10 ^ 21)%N, (v' <? 10 ^ 21)%N; intros H.
  - now apply decimal_inj.
  - symmetry. now apply Hx.
  - now apply Hx.
  - destruct (withoutTrailingZeros (decimal v)) eqn:E;
      destruct (withoutTrailingZeros (decimal v')) eqn:E'.
    + unfold exponential in H. rewrite E, E' in H. now apply decimal_inj.
    + symmetry. apply Hx. unfold exponential at 1 in H. rewrite E in H.
      now symmetry.
    + apply Hx. unfold exponential at 2 in H. now rewrite E' in H.
    + apply exponential_inj; congruence.
Qed.

Lemma Number_toString_numeral (n : N) :
  Number_toString n
  = if (n =? Infinity)%N then js "Infinity" else numeral (shortest n).
Proof. reflexivity. Qed.

(** Up to 2^53 a number is printed as its decimal numeral. *)
Lemma Number_toString_small (n : N) :
  (n <= 2 ^ 53)%N -> Number_toString n = decimal n.
Proof.
  intros Hn. pose proof safe_below_Infinity as Hi.
  unfold Number_toString, shortest.
  replace (n =? Infinity)%N with false by (symmetry; apply N.eqb_neq; lia).
  replace (n <=? 2 ^ 53)%N with true by (symmetry; apply N.leb_le; lia).
  replace (n <? 10 ^ 21)%N with true; [reflexivity|].
  symmetry. apply N.ltb_lt.
  assert (2 ^ 53 < 10 ^ 21)%N by (vm_compute; reflexivity). lia.
Qed.

(** No printed number holds a code unit outside digits, [.], [e], [+] and
    the letters of [Infinity]. *)
Lemma Number_toString_units (n : N) (c : N) :
  In c (Number_toString n) ->
  numeralUnit c = true \/ In c (js "Infinity").
Proof.
  rewrite Number_toString_numeral. destruct (n =? Infinity)%N.
  - now right.
  - intros H. left. pose proof (numeral_units (shortest n)) as Hu.
    rewrite Forall_forall in Hu. now apply Hu.
Qed.

Lemma Number_toString_no_dash (n : N) : ~ In 45%N (Number_toString n).
Proof.
  intros H. apply Number_toString_units in H.
  destruct H as [H|H]; [discriminate|].
  vm_compute in H. intuition discriminate.
Qed.

(** Two numbers print the same only when they are the same. *)
Lemma Number_toString_inj (n n' : N) :
  toNumber n = n -> toNumber n' = n' ->
  Number_toString n = Number_toString n' -> n = n'.
Proof.
  intros Hn Hn'. rewrite !Number_toString_numeral.
  assert (Hx : forall v, js "Infinity" <> numeral v).
  { intros v H. pose proof (numeral_units v) as Hu.
    rewrite <- H, Forall_forall in Hu.
    specialize (Hu 73%N (or_introl eq_refl)). discriminate. }
  destruct (n =? Infinity)%N eqn:E; destruct (n' =? Infinity)%N eqn:E';
    intros H.
  - apply N.eqb_eq in E, E'. congruence.
  - now apply Hx in H.
  - symmetry in H. now apply Hx in H.
  - apply numeral_inj in H.
    rewrite <- (shortest_sound n Hn), <- (shortest_sound n' Hn'). now rewrite H.
Qed.
(** *** Identity keys, taken apart *)

Lemma reviewKey_shape (f : Finding) :
  reviewKey f
  = Severity_value (f_severity f)
    ++ 45%N :: ((f_content f ++ 45%N :: Number_toString (orZero (f_lineNumber f)))
                ++ 45%N :: Number_toString (orZero (f_colNumber f))).
Proof.
  unfold reviewKey. change (js "-") with [45%N].
  rewrite <- !app_assoc. reflexivity.
Qed.

Lemma isNumber_orZero (n : option N) :
  isNumber n -> toNumber (orZero n) = orZero n.
Proof. destruct n; [trivial|reflexivity]. Qed.

(** The numbers of a finding read off a line are numbers. *)
Lemma matchLine_numbers (line : jsstring) (f : Finding) :
  matchLine line = Some f ->
  isNumber (f_lineNumber f) /\ isNumber (f_colNumber f).
Proof.
  unfold matchLine. destruct (exec severityRegex line) as [[j e]|]; [|discriminate].
  intros [= <-]. cbn [f_lineNumber f_colNumber].
  split.
  - destruct (capture 3 (caps e)); [apply parseInt10_number|exact I].
  - destruct (capture 4 (caps e)); [apply parseInt10_number|exact I].
Qed.

Lemma matchedOf_numbers (lines : list jsstring) (f : Finding) :
  In f (matchedOf lines) ->
  isNumber (f_lineNumber f) /\ isNumber (f_colNumber f).
Proof.
  unfold matchedOf. rewrite in_flat_map. intros [line [_ H]].
  destruct (matchLine line) as [g|] eqn:E; [|destruct H].
  destruct H as [<-|[]]. exact (matchLine_numbers _ _ E).
Qed.

(** Equal keys are equal (severity, message, line, column), a missing line
    or column read as 0: the text of a key can be taken apart again, and a
    number is printed as no other number is. *)
Lemma reviewKey_identity (f g : Finding) :
  isNumber (f_lineNumber f) -> isNumber (f_colNumber f) ->
  isNumber (f_lineNumber g) -> isNumber (f_colNumber g) ->
  reviewKey f = reviewKey g <-> identity f = identity g.
Proof.
  intros Hfl Hfc Hgl Hgc.
  apply isNumber_orZero in Hfl, Hfc, Hgl, Hgc.
  change (identity f)
    with (f_severity f, f_content f,
          orZero (f_lineNumber f), orZero (f_colNumber f)).
  change (identity g)
    with (f_severity g, f_content g,
          orZero (f_lineNumber g), orZero (f_colNumber g)).
  split.
  - rewrite !reviewKey_shape. intros H.
    apply cut_at_first in H; try apply Severity_value_no_dash.
    destruct H as [Hs H]. apply Severity_value_inj in Hs.
    apply cut_at_last in H; try apply Number_toString_no_dash.
    destruct H as [H Hc]. apply Number_toString_inj in Hc; try assumption.
    apply cut_at_last in H; try apply Number_toString_no_dash.
    destruct H as [H Hl]. apply Number_toString_inj in Hl; try assumption.
    congruence.
  - unfold reviewKey. now intros [= -> -> -> ->].
Qed.

Lemma Severity_eqb_eq (a b : Severity) : Severity_eqb a b = true <-> a = b.
Proof. destruct a, b; split; (reflexivity || discriminate). Qed.

Lemma sameIdentity_eq (f g : Finding) :
  sameIdentity f g = true <-> identity f = identity g.
Proof.
  unfold sameIdentity.
  destruct (identity f) as [[[s m] l] c], (identity g) as [[[s' m'] l'] c'].
  rewrite !andb_true_iff, Severity_eqb_eq, !N.eqb_eq.
  split.
  - intros [[[-> Hm] ->] ->]. apply jsstring_eqb_eq in Hm. now subst.
  - intros [= -> -> -> ->]. repeat split. apply jsstring_eqb_refl.
Qed.

(** Among findings read off lines, to have the key of a finding is to have
    its identity. *)
Lemma sameKey_sameIdentity (f g : Finding) :
  isNumber (f_lineNumber f) -> isNumber (f_colNumber f) ->
  isNumber (f_lineNumber g) -> isNumber (f_colNumber g) ->
  sameKey g f = sameIdentity g f.
Proof.
  intros Hfl Hfc Hgl Hgc. unfold sameKey.
  pose proof (reviewKey_identity f g Hfl Hfc Hgl Hgc) as H.
  destruct (jsstring_eqb (reviewKey f) (reviewKey g)) eqn:E.
  - apply jsstring_eqb_eq in E. symmetry. apply sameIdentity_eq.
    symmetry. now apply H.
  - apply jsstring_eqb_neq in E. symmetry.
    destruct (sameIdentity g f) eqn:E'; [|reflexivity].
    apply sameIdentity_eq in E'. exfalso. apply E. apply H. now symmetry.
Qed.

Lemma find_ext_In {A} (p q : A -> bool) (l : list A) :
  (forall x, In x l -> p x = q x) -> find p l = find q l.
Proof.
  induction l as [|x l IH]; intros H; [reflexivity|].
  cbn [find]. rewrite (H x) by now left.
  destruct (q x); [reflexivity|]. apply IH. intros y Hy. apply H. now right.
Qed.

Lemma NoDup_map_finer {A B C} (k : A -> B) (i : A -> C) (l : list A) :
  (forall x y, In x l -> In y l -> i x = i y -> k x = k y) ->
  NoDup (map k l) -> NoDup (map i l).
Proof.
  induction l as [|x l IH]; intros H Hk; [constructor|].
  cbn [map] in *. inversion Hk as [|? ? Hx Hk']; subst.
  constructor.
  - rewrite in_map_iff. intros [y [Hy Hin]]. apply Hx.
    rewrite in_map_iff. exists y. split; [|exact Hin].
    apply H; [now right|now left|exact Hy].
  - apply IH; [|exact Hk']. intros a b Ha Hb. apply H; now right.
Qed.

Lemma collectFindings_firstByKey lines uniq found :
  collectFindings lines uniq found = found ++ firstByKey uniq (matchedOf lines).
Proof.
  revert uniq found.
  induction lines as [|line lines IH]; intros uniq found; simpl.
  - now rewrite app_nil_r.
  - destruct (matchLine line) as [f|]; simpl; [|apply IH].
    destruct (Set_has (reviewKey f) uniq); simpl; [apply IH|].
    rewrite IH, <- app_assoc. reflexivity.
Qed.

Lemma Set_has_In (k : jsstring) (s : list jsstring) :
  Set_has k s = true <-> In k s.
Proof.
  unfold Set_has. rewrite existsb_exists. split.
  - intros [x [Hx E]]. apply jsstring_eqb_eq in E. now subst.
  - intros H. exists k. split; [assumption|apply jsstring_eqb_refl].
Qed.

Lemma Set_has_not_In (k : jsstring) (s : list jsstring) :
  Set_has k s = false <-> ~ In k s.
Proof.
  rewrite <- Set_has_In. destruct (Set_has k s); split; congruence.
Qed.

Lemma firstByKey_keys seen l g :
  In g (firstByKey seen l) -> ~ In (reviewKey g) seen.
Proof.
  revert seen. induction l as [|f l IH]; intros seen; simpl; [easy|].
  destruct (Set_has (reviewKey f) seen) eqn:E; [apply IH|].
  intros [<-|H].
  - now apply Set_has_not_In.
  - apply IH in H. intros Hin. apply H. now right.
Qed.

Lemma firstByKey_NoDup seen l : NoDup (map reviewKey (firstByKey seen l)).
Proof.
  revert seen. induction l as [|f l IH]; intros seen; simpl; [constructor|].
  destruct (Set_has (reviewKey f) seen); [apply IH|].
  simpl. constructor; [|apply IH].
  rewrite in_map_iff. intros [g [Hk Hg]].
  apply firstByKey_keys in Hg. apply Hg. left. now symmetry.
Qed.

(** A finding is kept exactly when its key was not seen before and it is
    the first of the list with that key. *)
Lemma firstByKey_first seen l g :
  In g (firstByKey seen l)
  <-> ~ In (reviewKey g) seen /\ find (sameKey g) l = Some g.
Proof.
  revert seen. induction l as [|f l IH]; intros seen; simpl.
  - split; [easy|]. now intros [_ H].
  - unfold sameKey at 1.
    destruct (Set_has (reviewKey f) seen) eqn:E.
    + apply Set_has_In in E. rewrite IH.
      destruct (jsstring_eqb (reviewKey f) (reviewKey g)) eqn:Ek.
      * apply jsstring_eqb_eq in Ek. split.
        -- intros [Hn _]. exfalso. apply Hn. now rewrite <- Ek.
        -- intros [Hn _]. exfalso. apply Hn. now rewrite <- Ek.
      * reflexivity.
    + apply Set_has_not_In in E. simpl. rewrite IH. simpl.
      destruct (jsstring_eqb (reviewKey f) (reviewKey g)) eqn:Ek.
      * apply jsstring_eqb_eq in Ek. split.
        -- intros [<-|[Hn _]]; [now split|].
           exfalso. apply Hn. now left.
        -- intros [_ [= <-]]. now left.
      * apply jsstring_eqb_neq in Ek. split.
        -- intros [<-|[Hn Hf]]; [congruence|]. split; [|assumption].
           intros Hin. apply Hn. now right.
        -- intros [Hn Hf]. right. split; [|assumption].
           intros [H|H]; [congruence|contradiction].
Qed.

(** The findings that come out of a parse are findings read off lines. *)
Lemma parseFindings_matched (text : jsstring) (g : Finding) :
  In g (parseFindings text) -> In g (matchedFindings text).
Proof.
  unfold parseFindings, matchedFindings.
  rewrite collectFindings_firstByKey. cbn [app]. intros H.
  apply (Permutation_in _ (Permutation_sym
           (Array_sort_perm f_lineNumber
              (firstByKey [] (matchedOf (reviewLines text)))))) in H.
  apply firstByKey_first in H. destruct H as [_ H].
  now apply find_some in H.
Qed.

(** C2: the findings of one parse have pairwise distinct identity keys, and
    pairwise distinct identities: severity, message, line and column, a
    missing line or column counting as 0.  The key is derived from the
    identity and from nothing else: two findings read off lines have the
    same key exactly when they have the same identity.  And of the matching
    lines with one identity only the first, in line order, gives a
    finding. *)
Theorem C2_identity_keys_distinct (text : jsstring) :
  NoDup (map reviewKey (parseFindings text))
  /\ NoDup (map identity (parseFindings text))
  /\ (forall uri, _parseReviewItems text uri
                  = map (itemOf uri) (parseFindings text))
  /\ (forall line line' f g,
        matchLine line = Some f -> matchLine line' = Some g ->
        (reviewKey f = reviewKey g <-> identity f = identity g))
  /\ (forall g, In g (parseFindings text)
                <-> find (sameIdentity g) (matchedFindings text) = Some g).
Proof.
  pose proof (Array_sort_perm f_lineNumber
                (firstByKey [] (matchedOf (reviewLines text)))) as Hp.
  assert (Hout : parseFindings text
                 = Array_sort compareFindings
                     (firstByKey [] (matchedOf (reviewLines text)))).
  { unfold parseFindings. now rewrite collectFindings_firstByKey. }
  assert (Hkeys : NoDup (map reviewKey (parseFindings text))).
  { rewrite Hout.
    eapply Permutation_NoDup; [apply Permutation_map; exact Hp|].
    apply firstByKey_NoDup. }
  assert (Hsame : forall g, In g (matchedFindings text) ->
            find (sameKey g) (matchedFindings text)
            = find (sameIdentity g) (matchedFindings text)).
  { intros g Hg. apply find_ext_In. intros f Hf.
    apply matchedOf_numbers in Hg, Hf.
    apply sameKey_sameIdentity; tauto. }
  split; [exact Hkeys|]. split; [|split; [|split]].
  - revert Hkeys. apply NoDup_map_finer. intros f g Hf Hg Hi.
    apply parseFindings_matched, matchedOf_numbers in Hf, Hg.
    apply reviewKey_identity; tauto.
  - intros uri. apply _parseReviewItems_findings.
  - intros line line' f g Hf Hg.
    apply matchLine_numbers in Hf, Hg. apply reviewKey_identity; tauto.
  - intros g. split.
    + intros H. rewrite <- Hsame by now apply parseFindings_matched.
      rewrite Hout in H.
      apply (Permutation_in _ (Permutation_sym Hp)) in H.
      apply firstByKey_first in H. now destruct H.
    + intros H. assert (Hg : In g (matchedFindings text))
        by now apply find_some in H.
      rewrite <- Hsame in H by exact Hg.
      rewrite Hout. apply (Permutation_in _ Hp).
      apply firstByKey_first. now split.
Qed.

(** Line numbers from 2^53 on are the doubles [parseInt] returns:
    9007199254740993 is read as 9007199254740992.  Two findings that differ
    in such digits only are one finding, and two with different messages
    tie in the sort and stay in the order of their lines. *)
Lemma large_line_numbers :
  let n := js "9007199254740993" in
  let n' := js "9007199254740992" in
  parseInt10 n = parseInt10 n'
  /\ parseFindings (js "[ERROR] a [Ln " ++ n ++ js "]" ++ [10%N]
                    ++ js "[ERROR] a [Ln " ++ n' ++ js "]")
     = [mkFinding Error (js "a") (Some 9007199254740992%N) None]
  /\ parseFindings (js "[ERROR] a [Ln " ++ n ++ js "]" ++ [10%N]
                    ++ js "[ERROR] b [Ln " ++ n' ++ js "]")
     = [mkFinding Error (js "a") (Some 9007199254740992%N) None;
        mkFinding Error (js "b") (Some 9007199254740992%N) None]
  /\ reviewKey (mkFinding Error (js "a") (Some (parseInt10 (js "1" ++ repeat 48%N 21))) None)
     = js "error-a-1e+21-0".
Proof. cbv zeta. repeat split; vm_compute; reflexivity. Qed.

(** *** The matcher: where a success leaves the continuation *)

Lemma reaches_refl gs s : reaches gs s s.
Proof. split; [exists []; simpl; split; [reflexivity|lia]|reflexivity]. Qed.

Lemma reaches_trans gs1 gs2 gs s1 s2 s3 :
  incl gs1 gs -> incl gs2 gs ->
  reaches gs1 s1 s2 -> reaches gs2 s2 s3 -> reaches gs s1 s3.
Proof.
  intros I1 I2 [[c1 [R1 P1]] C1] [[c2 [R2 P2]] C2]. split.
  - exists (c1 ++ c2). rewrite <- app_assoc, <- R2, length_app. split; [assumption|lia].
  - intros j Hj. rewrite C2, C1; auto.
Qed.

Lemma reaches_incl gs gs' s s' : incl gs gs' -> reaches gs s s' -> reaches gs' s s'.
Proof.
  intros I H. apply (reaches_trans gs [] gs' s s' s'); auto.
  - easy.
  - apply reaches_refl.
Qed.

Lemma star_loop_reaches gs g (step : cont -> cont) :
  (forall k s e, step k s = Some e -> exists s', reaches gs s s' /\ k s' = Some e) ->
  forall fuel k s e,
    star_loop g step k fuel s = Some e ->
    exists s', reaches gs s s' /\ k s' = Some e.
Proof.
  intros Hstep fuel. induction fuel as [|fuel IH]; intros k s e; simpl.
  - intros H. exists s. split; [apply reaches_refl|assumption].
  - assert (Hagain :
      step (fun s' => if pos s <? pos s' then star_loop g step k fuel s' else None) s
      = Some e -> exists s', reaches gs s s' /\ k s' = Some e).
    { intros H. apply Hstep in H. destruct H as [s1 [R1 H]].
      destruct (pos s <? pos s1); [|discriminate].
      apply IH in H. destruct H as [s2 [R2 H]].
      exists s2. split; [|assumption].
      now apply (reaches_trans gs gs gs s s1 s2). }
    destruct g.
    + destruct (step _ s) as [e'|] eqn:E.
      * intros [= <-]. now apply Hagain.
      * intros H. exists s. split; [apply reaches_refl|assumption].
    + destruct (k s) as [e'|] eqn:E.
      * intros [= <-]. exists s. split; [apply reaches_refl|assumption].
      * apply Hagain.
Qed.

(** Whenever [m r k s] succeeds, [k] was called, and succeeded, on a state
    that [s] reaches by capturing only groups of [r]. *)
Lemma m_reaches (r : regex) :
  forall k s e, m r k s = Some e ->
                exists s', reaches (groups r) s s' /\ k s' = Some e.
Proof.
  induction r as [|p|a IHa b IHb|a IHa b IHb|g r IH|i r IH| |];
    intros k s e; simpl.
  - intros H. exists s. split; [apply reaches_refl|assumption].
  - destruct (rest s) as [|c t] eqn:Er; [discriminate|].
    destruct (p c); [|discriminate]. intros H.
    eexists. split; [|exact H]. split; simpl; [|reflexivity].
    exists [c]. simpl. split; [assumption|lia].
  - intros H. apply IHa in H. destruct H as [s1 [R1 H]].
    apply IHb in H. destruct H as [s2 [R2 H]].
    exists s2. split; [|assumption].
    apply (reaches_trans (groups a) (groups b) _ s s1 s2); auto.
    + now apply incl_appl.
    + now apply incl_appr.
  - destruct (m a k s) as [e'|] eqn:E.
    + intros [= <-]. apply IHa in E. destruct E as [s1 [R1 H]].
      exists s1. split; [|assumption].
      eapply reaches_incl; [|exact R1]. now apply incl_appl.
    + intros H. apply IHb in H. destruct H as [s1 [R1 H]].
      exists s1. split; [|assumption].
      eapply reaches_incl; [|exact R1]. now apply incl_appr.
  - apply star_loop_reaches. exact IH.
  - intros H. apply IH in H. destruct H as [s1 [[[c [R1 P1]] C1] H]].
    eexists. split; [|exact H]. split; simpl.
    + exists c. now split.
    + intros j Hj. destruct (Nat.eqb j i) eqn:E.
      * apply Nat.eqb_eq in E. exfalso. apply Hj. now left.
      * apply C1. intros Hin. apply Hj. now right.
  - destruct (pos s =? 0); [|discriminate].
    intros H. exists s. split; [apply reaches_refl|assumption].
  - destruct (rest s); [|discriminate].
    intros H. exists s. split; [apply reaches_refl|assumption].
Qed.

(** A pattern anchored at the start matches at index 0 or nowhere. *)
Lemma search_Bol_later (r : regex) (i : nat) (t : jsstring) :
  0 < i -> search (Seq Bol r) i t = None.
Proof.
  revert i. induction t as [|c t IH]; intros i Hi; simpl;
    unfold match_at; simpl; destruct i; try lia; simpl; [reflexivity|].
  apply IH. lia.
Qed.

Lemma exec_Bol (r : regex) (s : jsstring) :
  exec (Seq Bol r) s
  = match match_at (Seq Bol r) 0 s with Some e => Some (0, e) | None => None end.
Proof.
  unfold exec. destruct s as [|c t]; simpl search.
  - now destruct (match_at _ 0 []).
  - destruct (match_at _ 0 (c :: t)); [reflexivity|].
    apply search_Bol_later. lia.
Qed.

(** *** Severity tags *)

Lemma startsWith_i_app (a b s : jsstring) :
  startsWith_i (a ++ b) s
  = startsWith_i a s && startsWith_i b (skipn (length a) s).
Proof.
  revert s. induction a as [|x a IH]; intros s; simpl; [reflexivity|].
  destruct s as [|y s]; [reflexivity|].
  now rewrite IH, andb_assoc.
Qed.

Lemma startsWith_i_upper (w t : jsstring) :
  startsWith_i w t = true ->
  toUpperCase (firstn (length w) t) = toUpperCase w.
Proof.
  revert t. induction w as [|x w IH]; intros t; simpl; [reflexivity|].
  destruct t as [|y t]; [discriminate|].
  rewrite andb_true_iff, N.eqb_eq. intros [Hxy H].
  simpl. now rewrite Hxy, (IH t H).
Qed.

Lemma mstate_eta (s : mstate) : MState (pos s) (rest s) (caps s) = s.
Proof. now destruct s. Qed.

(** A literal word under [i]: the subject continues with the word, in any
    case, and the continuation runs right after it. *)
Lemma m_seq_of_lit_i (w : jsstring) :
  forall k s e,
    m (seq_of lit_i w) k s = Some e ->
    startsWith_i w (rest s) = true
    /\ k (MState (pos s + length w) (skipn (length w) (rest s)) (caps s)) = Some e.
Proof.
  induction w as [|c w IH]; intros k s e.
  - simpl. rewrite Nat.add_0_r, mstate_eta. now split.
  - assert (Hone : forall k s e,
               m (lit_i c) k s = Some e ->
               exists t, rest s = t
                         /\ startsWith_i [c] (rest s) = true
                         /\ k (MState (pos s + 1) (skipn 1 (rest s)) (caps s)) = Some e).
    { clear. intros k s e. simpl. destruct (rest s) as [|x t]; [discriminate|].
      destruct (upperAscii x =? upperAscii c)%N; [|discriminate].
      intros H. exists (x :: t). rewrite Nat.add_1_r. now repeat split. }
    destruct w as [|c' w].
    + intros H. apply Hone in H. destruct H as [_ [_ [H1 H2]]]. now split.
    + change (seq_of lit_i (c :: c' :: w))
        with (Seq (lit_i c) (seq_of lit_i (c' :: w))).
      cbn [m]. intros H. apply Hone in H. destruct H as [_ [_ [H1 H2]]].
      apply IH in H2. cbn [pos rest caps] in H2. destruct H2 as [H2 H3].
      change (c :: c' :: w) with ([c] ++ c' :: w).
      rewrite startsWith_i_app, H1. cbn [length app]. split; [exact H2|].
      rewrite skipn_skipn in H3.
      replace (pos s + 1 + length (c' :: w)) with (pos s + S (length (c' :: w))) in H3
        by lia.
      replace (length (c' :: w) + 1) with (S (length (c' :: w))) in H3 by lia.
      exact H3.
Qed.

(** A match of a pattern of the shape of [severityRegex]: the line opens
    with a bracketed token of the enumeration, and capture 1 is that token
    as the line spells it. *)
Lemma tagged_match (REST : regex) (line : jsstring) (e : mstate) :
  ~ In 1 (groups REST) ->
  match_at
    (Seq Bol
      (Seq (lit_i 91)
      (Seq (Group 1 (Alt (word_i "ERROR") (Alt (word_i "WARNING")
                    (Alt (word_i "INFO") (word_i "HINT")))))
      (Seq (lit_i 93) REST)))) 0 line = Some e ->
  exists t v,
    In t severityTokens
    /\ startsWith_i (tagOf t) line = true
    /\ capture 1 (caps e) = Some v
    /\ toUpperCase v = t.
Proof.
  intros Hg. unfold match_at. cbn [m pos rest caps Nat.eqb].
  destruct line as [|c t1]; [discriminate|].
  change (lit_i 91) with (Chr (fun x => (upperAscii x =? upperAscii 91)%N)).
  cbn [m rest pos caps].
  destruct (upperAscii c =? upperAscii 91)%N eqn:Ec; [|discriminate].
  set (s1 := MState 1 t1 []).
  set (K := fun s' : mstate => _).
  intros H.
  assert (Hw : exists w, In w severityTokens /\ m (seq_of lit_i w) K s1 = Some e).
  { unfold word_i in H.
    destruct (m (seq_of lit_i (js "ERROR")) K s1) eqn:E1;
      [exists (js "ERROR"); split; [now left|congruence]|].
    destruct (m (seq_of lit_i (js "WARNING")) K s1) eqn:E2;
      [exists (js "WARNING"); split; [right; now left|congruence]|].
    destruct (m (seq_of lit_i (js "INFO")) K s1) eqn:E3;
      [exists (js "INFO"); split; [right; right; now left|congruence]|].
    exists (js "HINT"). split; [right; right; right; now left|assumption]. }
  destruct Hw as [w [Hin Hm]].
  apply m_seq_of_lit_i in Hm. destruct Hm as [Hpre HK].
  unfold s1 in Hpre. cbn [rest] in Hpre.
  unfold K, s1, lit_i in HK. cbn [m pos rest caps] in HK.
  destruct (skipn (length w) t1) as [|c2 t2] eqn:Es; [discriminate|].
  destruct (upperAscii c2 =? upperAscii 93)%N eqn:Ec2; [|discriminate].
  apply m_reaches in HK. destruct HK as [s' [[_ Hc] [= <-]]].
  exists w, (firstn (length w) t1). repeat split.
  - assumption.
  - unfold tagOf. change (js "[") with [91%N]. change (js "]") with [93%N].
    cbn [app startsWith_i]. rewrite Ec. cbn [andb].
    rewrite startsWith_i_app, Hpre, Es. cbn [andb startsWith_i]. now rewrite Ec2.
  - rewrite (Hc 1 Hg). cbn [caps capture Nat.eqb].
    f_equal. f_equal. lia.
  - rewrite (startsWith_i_upper _ _ Hpre).
    destruct Hin as [<-|[<-|[<-|[<-|[]]]]]; reflexivity.
Qed.

Lemma severityRegex_groups : ~ In 1 (groups
  (Seq (Star true ws)
   (Seq (Opt (lit_i 58))
   (Seq (Star true ws)
   (Seq (Group 2 (Plus false dot))
   (Seq (Opt
          (Seq (Plus true ws)
          (Seq (word_i "[Ln")
          (Seq (Plus true ws)
          (Seq (Group 3 (Plus true digit))
          (Seq (Opt
                 (Seq (lit_i 44)
                 (Seq (Star true ws)
                 (Seq (word_i "Col")
                 (Seq (Plus true ws)
                      (Group 4 (Plus true digit)))))))
               (lit_i 93)))))))
        Eol)))))).
Proof. vm_compute. intuition discriminate. Qed.

(** What a matching line is: it opens with a tag of the enumeration, and
    the severity of the finding is the one the tag names. *)
Lemma matchLine_tag (line : jsstring) (f : Finding) :
  matchLine line = Some f ->
  exists t, In t severityTokens
            /\ startsWith_i (tagOf t) line = true
            /\ f_severity f = severityOfToken t.
Proof.
  unfold matchLine, severityRegex. rewrite exec_Bol.
  destruct (match_at _ 0 line) as [e|] eqn:E; [|discriminate].
  apply tagged_match in E; [|apply severityRegex_groups].
  destruct E as [t [v [Hin [Hpre [Hcap Hup]]]]].
  rewrite Hcap, Hup. intros [= <-]. exists t. now repeat split.
Qed.

Lemma matchLine_untagged (line : jsstring) :
  hasSeverityTag line = false -> matchLine line = None.
Proof.
  intros Hn. destruct (matchLine line) as [f|] eqn:E; [|reflexivity].
  apply matchLine_tag in E. destruct E as [t [Hin [Hpre _]]].
  unfold hasSeverityTag in Hn.
  assert (existsb (fun t => startsWith_i (tagOf t) line) severityTokens = true).
  { apply existsb_exists. now exists t. }
  congruence.
Qed.

(** *** One structured entry, formatted and parsed *)

Lemma plainText_cons c s :
  plainText (c :: s) = true -> c <> 10%N /\ c <> 60%N /\ plainText s = true.
Proof.
  unfold plainText. simpl. rewrite !andb_true_iff, !negb_true_iff, !N.eqb_neq.
  tauto.
Qed.

Lemma plainText_app a b :
  plainText a = true -> plainText b = true -> plainText (a ++ b) = true.
Proof. unfold plainText. rewrite forallb_app. now intros -> ->. Qed.

Lemma search_thinkRegex_plain (i : nat) (t : jsstring) :
  plainText t = true -> search thinkRegex i t = None.
Proof.
  change thinkRegex
    with (Seq (Seq (lit 60) (seq_of lit (js "think>")))
              (Seq (Star false any) (word "</think>"))).
  revert i. induction t as [|c t IH]; intros i Hp.
  - reflexivity.
  - apply plainText_cons in Hp. destruct Hp as [_ [H60 Hp]].
    cbn [search]. unfold match_at at 1, lit. cbn [m rest].
    apply N.eqb_neq in H60. rewrite H60. now apply IH.
Qed.

Lemma replace_all_thinkRegex_plain (f : jsstring -> jsstring) (t : jsstring) :
  plainText t = true -> replace_all thinkRegex f t = t.
Proof.
  intros Hp. unfold replace_all. cbn [replace_all_from].
  now rewrite search_thinkRegex_plain.
Qed.

Lemma split_on_plain (t : jsstring) :
  plainText t = true -> split_on 10 t = [t].
Proof.
  induction t as [|c t IH]; intros Hp; [reflexivity|].
  apply plainText_cons in Hp. destruct Hp as [H10 [_ Hp]].
  simpl. apply N.eqb_neq in H10. rewrite H10. now rewrite IH.
Qed.

Lemma trimStart_app_solid (x y : jsstring) (c : N) :
  isWhiteSpace c = false -> trimStart (x ++ c :: y) = trimStart x ++ c :: y.
Proof.
  intros Hc. induction x as [|a x IH]; simpl.
  - now rewrite Hc.
  - destruct (isWhiteSpace a); [exact IH|reflexivity].
Qed.

Lemma trimEnd_app_solid (x y : jsstring) (c : N) :
  isWhiteSpace c = false -> trimEnd (x ++ c :: y) = x ++ c :: trimEnd y.
Proof.
  intros Hc. unfold trimEnd.
  rewrite rev_app_distr. simpl. rewrite <- app_assoc. simpl.
  rewrite (trimStart_app_solid _ _ _ Hc).
  rewrite rev_app_distr. simpl. rewrite rev_involutive, <- app_assoc.
  reflexivity.
Qed.

(** Trimming a formatted entry only trims the end of its message. *)
Lemma trim_entry (tok msg : jsstring) :
  trim (91%N :: tok ++ 93%N :: msg) = 91%N :: tok ++ 93%N :: trimEnd msg.
Proof.
  unfold trim. cbn [trimStart]. change (isWhiteSpace 91) with false. cbv iota.
  exact (trimEnd_app_solid (91%N :: tok) msg 93 eq_refl).
Qed.

Lemma replace_first_bullet_entry (f : jsstring -> jsstring) (l : jsstring) :
  replace_first bulletRegex f (91%N :: l) = 91%N :: l.
Proof.
  unfold replace_first, bulletRegex. rewrite exec_Bol. reflexivity.
Qed.

Lemma upperAscii_bracket (c : N) : upperAscii c = 93%N -> c = 93%N.
Proof.
  unfold upperAscii.
  destruct ((97 <=? c) && (c <=? 122))%N eqn:E; [|easy].
  apply andb_true_iff in E. destruct E as [E1 E2].
  apply N.leb_le in E1, E2. lia.
Qed.

(** A line ["[tok]..."] whose token holds no bracket opens with the tag of
    [t] only if [tok] is [t] up to case. *)
Lemma startsWith_i_tag (t tok tail : jsstring) :
  Forall (fun x => upperAscii x = x /\ x <> 93%N) t ->
  ~ In 93%N tok ->
  startsWith_i (t ++ [93%N]) (tok ++ 93%N :: tail) = true ->
  toUpperCase tok = t.
Proof.
  intros Ht. revert tok. induction Ht as [|x t [Hx Hx'] Ht IH]; intros tok Hn.
  - destruct tok as [|c tok]; [reflexivity|].
    cbn [app startsWith_i]. rewrite andb_true_iff, N.eqb_eq. intros [Hc _].
    apply upperAscii_bracket in Hc. exfalso. apply Hn. now left.
  - destruct tok as [|c tok]; cbn [app startsWith_i toUpperCase map];
      rewrite andb_true_iff, N.eqb_eq.
    + intros [Hc _]. change (upperAscii 93) with 93%N in Hc. congruence.
    + intros [Hc H]. rewrite Hc, Hx. f_equal. apply IH; [|assumption].
      intros Hin. apply Hn. now right.
Qed.

Lemma hasSeverityTag_entry (tok tail : jsstring) :
  ~ In 93%N tok -> ~ In (toUpperCase tok) severityTokens ->
  hasSeverityTag (91%N :: tok ++ 93%N :: tail) = false.
Proof.
  intros Hn Htok.
  destruct (hasSeverityTag _) eqn:E; [|reflexivity].
  exfalso. unfold hasSeverityTag in E. apply existsb_exists in E.
  destruct E as [t [Hin H]]. apply Htok.
  unfold tagOf in H. change (js "[") with [91%N] in H.
  change (js "]") with [93%N] in H. cbn [app startsWith_i] in H.
  apply andb_true_iff in H. destruct H as [_ H].
  apply startsWith_i_tag in H; [now rewrite H|..|assumption].
  destruct Hin as [<-|[<-|[<-|[<-|[]]]]];
    repeat (constructor; [split; [reflexivity|discriminate]|]); constructor.
Qed.

(** An entry with a token outside the enumeration leaves no line that
    matches. *)
Lemma reviewLines_entry_unmatched (tok msg : jsstring) :
  plainText tok = true -> plainText msg = true ->
  ~ In 93%N tok -> ~ In (toUpperCase tok) severityTokens ->
  matchedOf (reviewLines (91%N :: tok ++ 93%N :: msg)) = [].
Proof.
  intros Ht Hm Hn Htok. unfold reviewLines.
  assert (Hp : plainText (91%N :: tok ++ 93%N :: msg) = true).
  { change (91%N :: tok ++ 93%N :: msg) with ([91%N] ++ tok ++ [93%N] ++ msg).
    repeat apply plainText_app; auto. }
  rewrite (replace_all_thinkRegex_plain _ _ Hp), (split_on_plain _ Hp).
  cbn [map]. rewrite trim_entry. cbn [filter].
  destruct (keepLine _); [|reflexivity].
  cbn [map]. rewrite replace_first_bullet_entry, trim_entry.
  cbn [matchedOf flat_map].
  now rewrite matchLine_untagged by now apply hasSeverityTag_entry.
Qed.

(** The structured entry with severity "CRITICAL" is not a finding of
    severity Info: the structured path returns nothing for it, and the
    diagnostics pass reports nothing either. *)
Lemma C6_structured_entry_not_defaulted :
  let doc := mkDoc (js "const x = 1") (js "file:///a.ts") in
  let payload := Some [LlmClient.mkReview (js "CRITICAL") (js "m") None] in
  ~ In (js "CRITICAL") severityTokens
  /\ parseStructured payload doc = []
  /\ updateDiagnostics doc (LlmClient.reviewTextOfToolCall payload doc) = []
  /\ ~ (exists f, In f (parseStructuredFindings payload doc)
                  /\ f_severity f = Info).
Proof.
  cbv zeta. split; [vm_compute; intuition discriminate|].
  split; [vm_compute; reflexivity|].
  split; [vm_compute; reflexivity|].
  intros [f [Hin _]]. vm_compute in Hin. exact Hin.
Qed.

(** *** Global replacement, step by step *)

Lemma search_ge (r : regex) (t : jsstring) :
  forall i j e, search r i t = Some (j, e) -> i <= j.
Proof.
  induction t as [|x t IH]; intros i j e; simpl.
  - destruct (match_at r i []); [intros [= <- _]; lia|discriminate].
  - destruct (match_at r i (x :: t)); [intros [= <- _]; lia|].
    intros H. apply IH in H. lia.
Qed.

(** Where no match starts, the code unit is kept and the scan moves on. *)
Lemma replace_all_from_miss (r : regex) (g : jsstring -> jsstring)
      (fuel i : nat) (x : N) (t : jsstring) :
  match_at r i (x :: t) = None ->
  replace_all_from (S fuel) r g i (x :: t)
  = x :: replace_all_from (S fuel) r g (S i) t.
Proof.
  intros Hm. cbn [replace_all_from search]. rewrite Hm.
  destruct (search r (S i) t) as [[j e]|] eqn:Es; [|reflexivity].
  pose proof (search_ge _ _ _ _ _ Es) as Hj.
  replace (j - i) with (S (j - S i)) by lia.
  cbn [firstn skipn app].
  destruct (pos e =? j); [destruct (rest e)|]; reflexivity.
Qed.

(** Where a non-empty match starts, it is replaced and the scan resumes
    after it. *)
Lemma replace_all_from_hit (r : regex) (g : jsstring -> jsstring)
      (fuel i : nat) (t : jsstring) (e : mstate) :
  match_at r i t = Some e -> pos e <> i ->
  replace_all_from (S fuel) r g i t
  = g (firstn (pos e - i) t) ++ replace_all_from fuel r g (pos e) (rest e).
Proof.
  intros Hm Hp. cbn [replace_all_from].
  assert (Hs : search r i t = Some (i, e)).
  { destruct t; simpl; now rewrite Hm. }
  rewrite Hs, Nat.sub_diag. cbn [firstn skipn app].
  apply Nat.eqb_neq in Hp. now rewrite Hp.
Qed.

Lemma replace_all_from_nil (r : regex) (g : jsstring -> jsstring)
      (fuel i : nat) :
  match_at r i [] = None -> replace_all_from fuel r g i [] = [].
Proof.
  intros Hm. destruct fuel; [reflexivity|].
  cbn [replace_all_from search]. now rewrite Hm.
Qed.

(** Replacing every code unit of a class. *)
Lemma replace_all_Chr (p : N -> bool) (g : jsstring -> jsstring) (s : jsstring) :
  replace_all (Chr p) g s
  = flat_map (fun c => if p c then g [c] else [c]) s.
Proof.
  unfold replace_all.
  assert (H : forall t fuel i, length t < fuel ->
              replace_all_from fuel (Chr p) g i t
              = flat_map (fun c => if p c then g [c] else [c]) t).
  { clear s. induction t as [|x t IH]; intros fuel i Hf.
    - now apply replace_all_from_nil.
    - destruct fuel as [|fuel]; [simpl in Hf; lia|]. simpl in Hf.
      destruct (p x) eqn:Ex.
      + rewrite (replace_all_from_hit _ _ _ _ _ (MState (S i) t [])).
        * cbn [pos rest flat_map]. rewrite Ex.
          replace (S i - i) with 1 by lia. cbn [firstn].
          rewrite IH by lia. reflexivity.
        * unfold match_at. cbn [m rest pos caps]. now rewrite Ex.
        * cbn [pos]. lia.
      + rewrite replace_all_from_miss.
        * cbn [flat_map]. rewrite Ex. cbn [app]. rewrite IH by lia. reflexivity.
        * unfold match_at. cbn [m rest]. now rewrite Ex. }
  apply H. lia.
Qed.

(** *** Whitespace runs *)

Lemma trimStart_length (t : jsstring) : length (trimStart t) <= length t.
Proof.
  induction t as [|x t IH]; simpl; [lia|].
  destruct (isWhiteSpace x); simpl; lia.
Qed.

(** [\s*], greedy, followed by nothing: the whole run is taken. *)
Lemma star_ws_Some :
  forall fuel t i cs,
    length t <= fuel ->
    star_loop true (m ws) Some fuel (MState i t cs)
    = Some (MState (i + (length t - length (trimStart t))) (trimStart t) cs).
Proof.
  induction fuel as [|fuel IH]; intros t i cs Hf.
  - destruct t; [|simpl in Hf; lia]. simpl. now rewrite Nat.add_0_r.
  - cbn [star_loop]. unfold ws at 1. cbn [m rest pos caps].
    destruct t as [|x t].
    + simpl. now rewrite Nat.add_0_r.
    + cbn [trimStart]. destruct (isWhiteSpace x) eqn:Ex.
      * replace (i <? S i) with true by (symmetry; apply Nat.ltb_lt; lia).
        simpl in Hf. rewrite IH by lia.
        pose proof (trimStart_length t).
        f_equal. f_equal. cbn [length]. lia.
      * rewrite Nat.sub_diag, Nat.add_0_r. reflexivity.
Qed.

(** One attempt of [/\s+/]: it needs a whitespace unit and takes the run. *)
Lemma match_at_whitespaceRun (i : nat) (t : jsstring) :
  match_at LlmClient.whitespaceRunRe i t
  = match t with
    | x :: t' =>
        if isWhiteSpace x
        then Some (MState (S i + (length t' - length (trimStart t')))
                          (trimStart t') [])
        else None
    | [] => None
    end.
Proof.
  unfold match_at, LlmClient.whitespaceRunRe, Plus. cbn [m].
  unfold ws at 1. cbn [m rest pos caps].
  destruct t as [|x t]; [reflexivity|].
  destruct (isWhiteSpace x); [|reflexivity].
  now apply star_ws_Some.
Qed.

(** *** The escaped snippet, read as a shape *)

Lemma collapse_run (G t : jsstring) :
  startsWs t = true -> collapse G t = G ++ collapse G (trimStart t).
Proof.
  induction t as [|x t IH]; [discriminate|].
  cbn [startsWs collapse trimStart]. intros ->.
  destruct (startsWs t) eqn:E; [now apply IH|].
  destruct t as [|y t]; [reflexivity|].
  cbn [startsWs] in E. cbn [trimStart]. now rewrite E.
Qed.

Lemma replace_all_whitespaceRun (G s : jsstring) :
  replace_all LlmClient.whitespaceRunRe (fun _ => G) s = collapse G s.
Proof.
  unfold replace_all.
  assert (H : forall n t fuel i, length t <= n -> length t < fuel ->
              replace_all_from fuel LlmClient.whitespaceRunRe (fun _ => G) i t
              = collapse G t).
  { clear s. induction n as [|n IH]; intros t fuel i Hn Hf.
    - destruct t; [|simpl in Hn; lia].
      apply replace_all_from_nil. now rewrite match_at_whitespaceRun.
    - destruct t as [|x t].
      + apply replace_all_from_nil. now rewrite match_at_whitespaceRun.
      + destruct fuel as [|fuel]; [lia|]. simpl in Hn, Hf.
        pose proof (trimStart_length t) as Hl.
        destruct (isWhiteSpace x) eqn:Ex.
        * rewrite (replace_all_from_hit _ _ _ _ _
                     (MState (S i + (length t - length (trimStart t)))
                             (trimStart t) [])).
          -- cbn [pos rest]. rewrite IH by lia.
             rewrite (collapse_run G (x :: t)) by exact Ex.
             cbn [trimStart]. now rewrite Ex.
          -- rewrite match_at_whitespaceRun. now rewrite Ex.
          -- cbn [pos]. lia.
        * rewrite replace_all_from_miss.
          -- cbn [collapse]. rewrite Ex. rewrite IH by lia. reflexivity.
          -- rewrite match_at_whitespaceRun. now rewrite Ex. }
  apply (H (length s)); lia.
Qed.

Lemma syntaxChar_solid (c : N) :
  LlmClient.isSyntaxChar c = true -> isWhiteSpace c = false.
Proof.
  unfold LlmClient.isSyntaxChar.
  rewrite !orb_true_iff, !N.eqb_eq.
  intuition subst; reflexivity.
Qed.

Lemma whitespace_escapeUnit (c : N) :
  isWhiteSpace c = true -> escapeUnit c = [c].
Proof.
  intros Hc. unfold escapeUnit.
  destruct (LlmClient.isSyntaxChar c) eqn:E; [|reflexivity].
  apply syntaxChar_solid in E. congruence.
Qed.

(** Trimming passes through a unit-wise rewriting that keeps whitespace
    units and puts solid text for solid units. *)
Lemma trimStart_flat_map (f : N -> jsstring) (s : jsstring) :
  (forall c, isWhiteSpace c = true -> f c = [c]) ->
  (forall c, isWhiteSpace c = false -> startsWs (f c) = false /\ f c <> []) ->
  trimStart (flat_map f s) = flat_map f (trimStart s).
Proof.
  intros Hw Hs. induction s as [|c s IH]; [reflexivity|].
  cbn [flat_map trimStart]. destruct (isWhiteSpace c) eqn:Ec.
  - rewrite (Hw c Ec). cbn [app trimStart]. now rewrite Ec.
  - destruct (Hs c Ec) as [H1 H2].
    destruct (f c) as [|y r] eqn:Ef; [congruence|].
    cbn [startsWs] in H1. cbn [app trimStart flat_map]. rewrite H1.
    now rewrite Ef.
Qed.

Lemma rev_flat_map {A B} (f : A -> list B) (s : list A) :
  rev (flat_map f s) = flat_map (fun c => rev (f c)) (rev s).
Proof.
  induction s as [|c s IH]; [reflexivity|].
  cbn [flat_map rev]. rewrite rev_app_distr, IH, flat_map_app.
  simpl. now rewrite app_nil_r.
Qed.

Lemma escapeUnit_solid (c : N) :
  isWhiteSpace c = false ->
  startsWs (escapeUnit c) = false /\ escapeUnit c <> []
  /\ startsWs (rev (escapeUnit c)) = false /\ rev (escapeUnit c) <> [].
Proof.
  intros Hc. unfold escapeUnit.
  destruct (LlmClient.isSyntaxChar c); cbn; rewrite ?Hc; repeat split; easy.
Qed.

Lemma trim_flat_map_escapeUnit (s : jsstring) :
  trim (flat_map escapeUnit s) = flat_map escapeUnit (trim s).
Proof.
  unfold trim, trimEnd.
  rewrite (trimStart_flat_map escapeUnit).
  - rewrite rev_flat_map.
    rewrite (trimStart_flat_map (fun c => rev (escapeUnit c))).
    + rewrite rev_flat_map. apply flat_map_ext. intros c. apply rev_involutive.
    + intros c Hc. now rewrite (whitespace_escapeUnit c Hc).
    + intros c Hc. now destruct (escapeUnit_solid c Hc) as [_ [_ [? ?]]].
  - apply whitespace_escapeUnit.
  - intros c Hc. now destruct (escapeUnit_solid c Hc) as [? [? _]].
Qed.

Lemma startsWs_flat_map_escapeUnit (s : jsstring) :
  startsWs (flat_map escapeUnit s) = startsWs s.
Proof.
  destruct s as [|c s]; [reflexivity|].
  cbn [flat_map startsWs]. destruct (isWhiteSpace c) eqn:Ec.
  - rewrite (whitespace_escapeUnit c Ec). cbn. exact Ec.
  - destruct (escapeUnit_solid c Ec) as [H1 [H2 _]].
    destruct (escapeUnit c); [congruence|]. exact H1.
Qed.

Lemma collapse_escaped (G s : jsstring) :
  collapse G (flat_map escapeUnit s)
  = flat_map (fun a => match a with Lit c => escapeUnit c | Gap => G end)
             (squeeze s).
Proof.
  induction s as [|c s IH]; [reflexivity|].
  cbn [flat_map squeeze]. destruct (isWhiteSpace c) eqn:Ec.
  - rewrite (whitespace_escapeUnit c Ec). cbn [app collapse]. rewrite Ec.
    rewrite startsWs_flat_map_escapeUnit.
    destruct (startsWs s); [exact IH|].
    cbn [flat_map]. now rewrite IH.
  - cbn [flat_map]. rewrite <- IH. unfold escapeUnit.
    destruct (LlmClient.isSyntaxChar c); cbn [app collapse];
      change (isWhiteSpace 92) with false; rewrite ?Ec; reflexivity.
Qed.

(** The pattern text the source builds is the rendering of the shape. *)
Lemma escapeSnippet_render (snippet : jsstring) :
  LlmClient.escapeSnippet snippet = render (shape snippet).
Proof.
  unfold LlmClient.escapeSnippet, LlmClient.syntaxCharRe.
  rewrite replace_all_Chr.
  change (flat_map _ snippet) with (flat_map escapeUnit snippet).
  rewrite trim_flat_map_escapeUnit, replace_all_whitespaceRun.
  apply collapse_escaped.
Qed.

(** The class the source escapes is the [SyntaxCharacter] of the grammar. *)
Lemma isSyntaxChar_grammar (c : N) :
  LlmClient.isSyntaxChar c = isSyntaxCharacter c.
Proof.
  apply eq_true_iff_eq.
  unfold LlmClient.isSyntaxChar, isSyntaxCharacter. cbn [existsb].
  rewrite !orb_true_iff, !N.eqb_eq. intuition discriminate.
Qed.

Lemma charToken_plain (c : N) :
  isSyntaxCharacter c = false -> charToken c = Atom (lit c).
Proof.
  unfold isSyntaxCharacter, charToken. cbn [existsb].
  rewrite !orb_false_iff. intros H. decompose [and] H.
  repeat match goal with E : (_ =? _)%N = false |- _ => rewrite E; clear E end.
  reflexivity.
Qed.

Lemma escapeToken_syntax (c : N) :
  isSyntaxCharacter c = true -> escapeToken c = Atom (lit c).
Proof. unfold escapeToken. now intros ->. Qed.

Lemma tokens_render (p : list atom) :
  tokens (render p) = Accepted (flat_map atomTokens p).
Proof.
  induction p as [|a p IH]; [reflexivity|].
  unfold render in *. cbn [flat_map]. destruct a as [c|]; cbn [renderAtom atomTokens].
  - unfold escapeUnit. rewrite isSyntaxChar_grammar.
    destruct (isSyntaxCharacter c) eqn:E.
    + cbn [app tokens]. change (92 =? 92)%N with true. cbv iota.
      now rewrite IH, (escapeToken_syntax c E).
    + cbn [app tokens].
      replace (c =? 92)%N with false.
      * now rewrite IH, (charToken_plain c E).
      * symmetry. apply N.eqb_neq. intros ->. discriminate.
  - change (js "\s+") with [92%N; 115%N; 43%N]. cbn [app tokens].
    change (92 =? 92)%N with true. change (43 =? 92)%N with false. cbv iota.
    rewrite IH. reflexivity.
Qed.

Lemma alternatives_render (p : list atom) :
  alternatives (flat_map atomTokens p) = Accepted [regex_of p].
Proof.
  induction p as [|a p IH]; [reflexivity|].
  cbn [flat_map regex_of]. destruct a as [c|]; cbn [atomTokens app].
  - cbn [alternatives].
    destruct p as [|[c'|] p']; cbn [flat_map atomTokens app] in *.
    + reflexivity.
    + fold (alternatives (Atom (lit c') :: flat_map atomTokens p')).
      now rewrite IH.
    + fold (alternatives (Atom ws :: Quantifier 43 :: flat_map atomTokens p')).
      now rewrite IH.
  - cbn [alternatives].
    destruct p as [|[c'|] p']; cbn [flat_map atomTokens app] in *.
    + reflexivity.
    + fold (alternatives (Atom (lit c') :: flat_map atomTokens p')).
      now rewrite IH.
    + fold (alternatives (Atom ws :: Quantifier 43 :: flat_map atomTokens p')).
      now rewrite IH.
Qed.

Lemma parsePattern_render (p : list atom) :
  parsePattern (render p) = Accepted (regex_of p).
Proof.
  unfold parsePattern. now rewrite tokens_render, alternatives_render.
Qed.

(** The constructor never throws on an escaped snippet. *)
Lemma RegExp_new_escapeSnippet (snippet : jsstring) :
  LlmClient.RegExp_new (LlmClient.escapeSnippet snippet)
  = LlmClient.Normal (regex_of (shape snippet)).
Proof.
  unfold LlmClient.RegExp_new.
  now rewrite escapeSnippet_render, parsePattern_render.
Qed.

(** *** The compiled pattern matches what the shape describes *)

(** [\s*] and then [K], where [K] succeeds by what is left only. *)
Lemma star_ws_then (K : cont) (kb : jsstring -> bool) :
  (forall i t cs, succeeds (K (MState i t cs)) = kb t) ->
  forall fuel t i cs,
    length t <= fuel ->
    succeeds (star_loop true (m ws) K fuel (MState i t cs))
    = gapThen kb t || kb t.
Proof.
  intros HK. induction fuel as [|fuel IH]; intros t i cs Hf.
  - destruct t; [|simpl in Hf; lia]. simpl. apply HK.
  - cbn [star_loop]. unfold ws at 1. cbn [m rest pos caps].
    destruct t as [|x t]; [simpl; apply HK|].
    cbn [gapThen]. destruct (isWhiteSpace x) eqn:Ex.
    + replace (i <? S i) with true by (symmetry; apply Nat.ltb_lt; lia).
      simpl in Hf. specialize (IH t (S i) cs ltac:(lia)).
      destruct (star_loop true (m ws) K fuel (MState (S i) t cs)) eqn:E.
      * simpl in IH. now rewrite <- IH.
      * simpl in IH. rewrite <- IH. simpl. apply HK.
    + simpl. apply HK.
Qed.

Lemma m_regex_of (p : list atom) :
  forall i t cs,
    succeeds (m (regex_of p) Some (MState i t cs)) = matchesShape p t.
Proof.
  induction p as [|a p IH]; intros i t cs; [reflexivity|].
  destruct a as [c|]; cbn [regex_of matchesShape m].
  - unfold lit. cbn [m rest pos caps]. destruct t as [|x t]; [reflexivity|].
    destruct (x =? c)%N; [apply IH|reflexivity].
  - unfold Plus. cbn [m]. unfold ws at 1. cbn [m rest pos caps].
    destruct t as [|x t]; [reflexivity|].
    cbn [gapThen]. destruct (isWhiteSpace x); [|reflexivity].
    cbn [andb]. apply (star_ws_then _ (matchesShape p)); [exact IH|lia].
Qed.

Lemma match_at_regex_of (p : list atom) (i : nat) (t : jsstring) :
  succeeds (match_at (regex_of p) i t) = matchesShape p t.
Proof. apply m_regex_of. Qed.

(** *** The first match *)

Lemma search_least (r : regex) (t : jsstring) :
  forall i j e,
    search r i t = Some (j, e) ->
    j <= i + length t
    /\ match_at r j (skipn (j - i) t) = Some e
    /\ forall o, i <= o < j -> match_at r o (skipn (o - i) t) = None.
Proof.
  induction t as [|x t IH]; intros i j e; cbn [search].
  - destruct (match_at r i []) eqn:E; [|discriminate].
    intros [= <- <-]. rewrite Nat.sub_diag. repeat split; [lia|assumption|lia].
  - destruct (match_at r i (x :: t)) eqn:E.
    + intros [= <- <-]. rewrite Nat.sub_diag. repeat split; [lia|assumption|lia].
    + intros H. pose proof (search_ge _ _ _ _ _ H) as Hj.
      apply IH in H. destruct H as [H1 [H2 H3]].
      replace (j - i) with (S (j - S i)) by lia. cbn [skipn length].
      repeat split; [lia|assumption|].
      intros o Ho. destruct (Nat.eq_dec o i) as [->|Hne].
      * now rewrite Nat.sub_diag.
      * replace (o - i) with (S (o - S i)) by lia. cbn [skipn].
        apply H3. lia.
Qed.

Lemma search_finds (r : regex) (t : jsstring) :
  forall i n,
    n <= length t ->
    match_at r (i + n) (skipn n t) <> None ->
    exists j e, search r i t = Some (j, e) /\ j <= i + n.
Proof.
  induction t as [|x t IH]; intros i n Hn Hm; cbn [search].
  - simpl in Hn. assert (n = 0) by lia. subst n.
    rewrite Nat.add_0_r in Hm. cbn [skipn] in Hm.
    destruct (match_at r i []) as [e|]; [|congruence].
    exists i, e. split; [reflexivity|lia].
  - destruct (match_at r i (x :: t)) as [e|] eqn:E.
    + exists i, e. split; [reflexivity|lia].
    + destruct n as [|n].
      * rewrite Nat.add_0_r in Hm. cbn [skipn] in Hm. congruence.
      * simpl in Hn. cbn [skipn] in Hm.
        replace (i + S n) with (S i + n) in Hm by lia.
        destruct (IH (S i) n ltac:(lia) Hm) as [j [e' [Hs Hj]]].
        exists j, e'. split; [assumption|lia].
Qed.

(** *** A text has its own shape *)

Lemma squeeze_startsWs (s : jsstring) :
  startsWs s = true -> exists r, squeeze s = Gap :: r.
Proof.
  induction s as [|c s IH]; [discriminate|].
  cbn [startsWs squeeze]. intros ->.
  destruct (startsWs s); [now apply IH|now eexists].
Qed.

Lemma matchesShape_self (v tail : jsstring) :
  matchesShape (squeeze v) (v ++ tail) = true.
Proof.
  induction v as [|c v IH]; [reflexivity|].
  cbn [squeeze app]. destruct (isWhiteSpace c) eqn:Ec.
  - destruct (startsWs v) eqn:Ev.
    + destruct (squeeze_startsWs v Ev) as [r Hr]. rewrite Hr in *.
      cbn [matchesShape] in *. cbn [gapThen]. now rewrite Ec, IH.
    + cbn [matchesShape gapThen]. rewrite Ec, IH. now rewrite orb_true_r.
  - cbn [matchesShape]. now rewrite N.eqb_refl, IH.
Qed.

Lemma trimStart_split (s : jsstring) : exists lead, s = lead ++ trimStart s.
Proof.
  induction s as [|c s [lead IH]]; [now exists []|].
  cbn [trimStart]. destruct (isWhiteSpace c).
  - exists (c :: lead). simpl. now rewrite <- IH.
  - now exists [].
Qed.

Lemma trim_split (s : jsstring) : exists lead trail, s = lead ++ trim s ++ trail.
Proof.
  destruct (trimStart_split s) as [lead Hl].
  destruct (trimStart_split (rev (trimStart s))) as [liart Ht].
  exists lead, (rev liart). unfold trim, trimEnd.
  rewrite <- rev_app_distr, <- Ht, rev_involutive. exact Hl.
Qed.

(** *** Positions *)

Lemma positionAt_from_line (t : jsstring) :
  forall l c offset,
    line (positionAt_from l c offset t)
    = l + count_occ N.eq_dec (firstn offset t) 10%N.
Proof.
  induction t as [|x t IH]; intros l c offset.
  - destruct offset; simpl; lia.
  - destruct offset as [|o]; [simpl; lia|].
    cbn [positionAt_from firstn count_occ].
    destruct (x =? 10)%N eqn:E.
    + apply N.eqb_eq in E. subst x. rewrite IH.
      destruct (N.eq_dec 10 10); [lia|congruence].
    + apply N.eqb_neq in E. rewrite IH.
      destruct (N.eq_dec x 10); [congruence|lia].
Qed.

(** *** The snippet resolver *)

(** What the regex pass returns: the position of the leftmost match of the
    shape, if there is one. *)
Lemma regexPass_search (snippet : jsstring) (doc : TextDocument) :
  LlmClient.regexPass LlmClient.RegExp_new snippet doc
  = LlmClient.Normal
      (match search (regex_of (shape snippet)) 0 (getText doc) with
       | Some (offset, _) => Some (positionAt doc offset)
       | None => None
       end).
Proof.
  unfold LlmClient.regexPass. rewrite RegExp_new_escapeSnippet.
  cbn [LlmClient.bind]. unfold exec.
  now destruct (search _ 0 (getText doc)) as [[offset e]|].
Qed.

Lemma findPosition_of_regexPass (snippet : jsstring) (doc : TextDocument)
      (p : Position) :
  snippet <> [] ->
  LlmClient.regexPass LlmClient.RegExp_new snippet doc
  = LlmClient.Normal (Some p) ->
  LlmClient.findPositionByCodeSnippet (Some snippet) doc
  = LlmClient.Normal (Some p).
Proof.
  intros Hne H.
  unfold LlmClient.findPositionByCodeSnippet,
    LlmClient.findPositionByCodeSnippet_with.
  destruct snippet as [|x s]; [congruence|].
  now rewrite H.
Qed.

(** C4: a snippet that is a stretch of the document, whitespace runs
    aside, is found: the resolver returns the position of an offset at
    which the snippet occurs up to whitespace, no smaller offset is such an
    occurrence, the offset is not past the stretch, and the line of the
    position is the number of line feeds before the offset. *)
Theorem C4_snippet_found_at_first_match
        (doc : TextDocument) (snippet original pre post : jsstring) :
  snippet <> [] ->
  getText doc = pre ++ original ++ post ->
  shape snippet = shape original ->
  exists offset,
    LlmClient.findPositionByCodeSnippet (Some snippet) doc
    = LlmClient.Normal (Some (positionAt doc offset))
    /\ occursAt snippet (getText doc) offset
    /\ (forall o, o < offset -> ~ occursAt snippet (getText doc) o)
    /\ offset <= length pre + length original
    /\ line (positionAt doc offset)
       = count_occ N.eq_dec (firstn offset (getText doc)) 10%N.
Proof.
  intros Hne Hdoc Hshape.
  destruct (trim_split original) as [lead [trail Ho]].
  assert (HT : matchesShape (shape snippet) (trim original ++ trail ++ post) = true).
  { rewrite Hshape. apply matchesShape_self. }
  remember (trim original) as T eqn:HeqT. clear HeqT Hshape. subst original.
  set (n := length pre + length lead).
  assert (Hlen : n <= length (getText doc)
                 /\ n <= length pre + length (lead ++ T ++ trail)).
  { rewrite Hdoc. rewrite !length_app. unfold n. lia. }
  assert (Hskip : skipn n (getText doc) = T ++ trail ++ post).
  { rewrite Hdoc. unfold n.
    rewrite <- !app_assoc, (app_assoc pre lead).
    rewrite <- (length_app pre lead).
    rewrite skipn_app, skipn_all, Nat.sub_diag. reflexivity. }
  assert (Hm : match_at (regex_of (shape snippet)) (0 + n)
                        (skipn n (getText doc)) <> None).
  { intros Hnone.
    pose proof (match_at_regex_of (shape snippet) (0 + n) (skipn n (getText doc))) as H.
    rewrite Hnone, Hskip, HT in H. discriminate. }
  destruct (search_finds _ _ 0 n (proj1 Hlen) Hm) as [j [e [Hs Hj]]].
  pose proof (search_least _ _ _ _ _ Hs) as [Hb [Hat Hleast]].
  rewrite Nat.sub_0_r in Hat.
  exists j. split; [|split; [|split; [|split]]].
  - apply findPosition_of_regexPass; [assumption|].
    rewrite regexPass_search. now rewrite Hs.
  - split; [simpl in Hb; lia|].
    rewrite <- (match_at_regex_of _ j), Hat. reflexivity.
  - intros o Ho' [_ Hocc].
    rewrite <- (match_at_regex_of _ o) in Hocc.
    specialize (Hleast o ltac:(lia)). rewrite Nat.sub_0_r in Hleast.
    now rewrite Hleast in Hocc.
  - lia.
  - unfold positionAt. now rewrite positionAt_from_line.
Qed.

Lemma C4_snippet_found_at_first_match_witness :
  let doc := mkDoc (js "let y = 2" ++ [10%N] ++ js "const x = 1;")
                   (js "file:///a.ts") in
  exists offset,
    LlmClient.findPositionByCodeSnippet (Some (js "const   x = 1")) doc
    = LlmClient.Normal (Some (positionAt doc offset))
    /\ occursAt (js "const   x = 1") (getText doc) offset
    /\ (forall o, o < offset -> ~ occursAt (js "const   x = 1") (getText doc) o)
    /\ offset <= length (js "let y = 2" ++ [10%N]) + length (js "const x = 1")
    /\ line (positionAt doc offset)
       = count_occ N.eq_dec (firstn offset (getText doc)) 10%N.
Proof.
  apply (C4_snippet_found_at_first_match
           (mkDoc (js "let y = 2" ++ [10%N] ++ js "const x = 1;")
                  (js "file:///a.ts"))
           (js "const   x = 1") (js "const x = 1")
           (js "let y = 2" ++ [10%N]) (js ";"));
    [discriminate|reflexivity|reflexivity].
Defined.

(** Whitespace put where the document has none is not a run altered: such
    a snippet is not found by the regex pass, and this one is too short
    for the word-anchor pass. *)
Example resolver_inserted_whitespace_absent :
  LlmClient.findPositionByCodeSnippet
    (Some (js "a + b")) (mkDoc (js "a+b") (js "file:///a.ts"))
  = LlmClient.Normal None.
Proof. vm_compute. reflexivity. Qed.

(** A snippet that matches nowhere but is long enough: the word-anchor
    pass answers with the first anchor word whose surroundings hold two of
    the words. *)
Example resolver_word_anchor :
  LlmClient.findPositionByCodeSnippet
    (Some (js "function sum(items) { return"))
    (mkDoc (js "// add" ++ [10%N]
            ++ js "function total(items) { return items.length }")
           (js "file:///a.ts"))
  = LlmClient.Normal (Some (mkPosition 1 0)).
Proof. vm_compute. reflexivity. Qed.

(** C10: a snippet of whitespace only, and not empty, escapes to the empty
    pattern, which matches at offset 0: the resolver returns line 0,
    character 0, whatever the document. *)
Theorem C10_whitespace_only_snippet (doc : TextDocument) (snippet : jsstring) :
  snippet <> [] ->
  forallb isWhiteSpace snippet = true ->
  LlmClient.escapeSnippet snippet = []
  /\ LlmClient.findPositionByCodeSnippet (Some snippet) doc
     = LlmClient.Normal (Some (positionAt doc 0))
  /\ positionAt doc 0 = mkPosition 0 0.
Proof.
  intros Hne Hws.
  assert (Ht : trimStart snippet = []).
  { clear Hne. induction snippet as [|c s IH]; [reflexivity|].
    simpl in Hws. apply andb_true_iff in Hws. destruct Hws as [Hc Hs].
    cbn [trimStart]. rewrite Hc. now apply IH. }
  assert (Hshape : shape snippet = []).
  { unfold shape, trim. now rewrite Ht. }
  split; [now rewrite escapeSnippet_render, Hshape|].
  split.
  - apply findPosition_of_regexPass; [assumption|].
    rewrite regexPass_search, Hshape.
    now destruct (getText doc).
  - unfold positionAt. now destruct (getText doc).
Qed.

Lemma C10_whitespace_only_snippet_witness :
  let doc := mkDoc (js "let y = 2" ++ [10%N] ++ js "const x = 1;")
                   (js "file:///a.ts") in
  let snippet := [32%N; 9%N; 10%N] in
  LlmClient.escapeSnippet snippet = []
  /\ LlmClient.findPositionByCodeSnippet (Some snippet) doc
     = LlmClient.Normal (Some (positionAt doc 0))
  /\ positionAt doc 0 = mkPosition 0 0.
Proof.
  apply (C10_whitespace_only_snippet
           (mkDoc (js "let y = 2" ++ [10%N] ++ js "const x = 1;")
                  (js "file:///a.ts"))
           [32%N; 9%N; 10%N]);
    [discriminate|reflexivity].
Defined.

(** C5: whatever the regex constructor does, when the regex pass throws or
    finds no match the resolver returns normally; its result is that of the
    word-anchor pass when the snippet, as given, is longer than 15 code
    units, and absent otherwise.  And no call of the resolver throws. *)
Theorem C5_regex_failure_falls_back
        (mkRegExp : jsstring -> LlmClient.completion regex)
        (snippet : jsstring) (doc : TextDocument) :
  regexPassFails mkRegExp snippet doc ->
  LlmClient.findPositionByCodeSnippet_with mkRegExp (Some snippet) doc
  = LlmClient.Normal (if 15 <? length snippet
                      then LlmClient.fuzzyPass snippet doc
                      else None)
  /\ (length snippet <= 15 ->
      LlmClient.findPositionByCodeSnippet_with mkRegExp (Some snippet) doc
      = LlmClient.Normal None)
  /\ (forall mk s d, exists r,
         LlmClient.findPositionByCodeSnippet_with mk s d = LlmClient.Normal r).
Proof.
  intros Hfail.
  assert (H : LlmClient.findPositionByCodeSnippet_with mkRegExp (Some snippet) doc
              = LlmClient.Normal (if 15 <? length snippet
                                  then LlmClient.fuzzyPass snippet doc
                                  else None)).
  { unfold LlmClient.findPositionByCodeSnippet_with, regexPassFails in *.
    destruct snippet as [|x s]; [reflexivity|].
    destruct (LlmClient.regexPass mkRegExp (x :: s) doc) as [[p|]|e];
      [contradiction|..];
      cbn [LlmClient.bind LlmClient.try_catch];
      destruct (15 <? length (x :: s)); reflexivity. }
  split; [exact H|]. split.
  - intros Hlen. rewrite H.
    replace (15 <? length snippet) with false; [reflexivity|].
    symmetry. apply Nat.ltb_ge. exact Hlen.
  - intros mk s d. unfold LlmClient.findPositionByCodeSnippet_with.
    destruct s as [[|x s]|]; try (now eexists).
    destruct (LlmClient.regexPass mk (x :: s) d) as [[p|]|e];
      cbn [LlmClient.bind LlmClient.try_catch];
      try destruct (15 <? length (x :: s)); now eexists.
Qed.

Lemma C5_regex_failure_falls_back_witness :
  let throwing := fun _ : jsstring =>
                    @LlmClient.Throw regex (js "SyntaxError") in
  let doc := mkDoc (js "function total(items) { return items.length }")
                   (js "file:///a.ts") in
  let snippet := js "function  total(items)  {  return" in
  LlmClient.findPositionByCodeSnippet_with throwing (Some snippet) doc
  = LlmClient.Normal (if 15 <? length snippet
                      then LlmClient.fuzzyPass snippet doc
                      else None)
  /\ (length snippet <= 15 ->
      LlmClient.findPositionByCodeSnippet_with throwing (Some snippet) doc
      = LlmClient.Normal None)
  /\ (forall mk s d, exists r,
         LlmClient.findPositionByCodeSnippet_with mk s d = LlmClient.Normal r).
Proof.
  apply (C5_regex_failure_falls_back
           (fun _ => LlmClient.Throw (js "SyntaxError"))
           (js "function  total(items)  {  return")
           (mkDoc (js "function total(items) { return items.length }")
                  (js "file:///a.ts"))).
  exact I.
Defined.

(* ================================================================== *)
(** ** Further properties of the result store *)
(* ================================================================== *)

Import History.

(** X1: after any history of updates and clears, the entry of a uri is the
    parse of the text of its last update if no clear of it followed, and
    there is no entry otherwise; no uri has two entries. *)
Theorem store_entries_after_history (ops : list StoreOp) (u : jsstring) :
  Map_get u (_reviewItemsByFile (runOps ops activated))
  = option_map (fun t => _parseReviewItems t (Some u)) (liveText u ops)
  /\ NoDup (map fst (_reviewItemsByFile (runOps ops activated))).
Proof.
  destruct (storeInv_run ops) as [Hk Hget _]. split; [apply Hget|exact Hk].
Qed.

Lemma notifications_snoc (before ops : list StoreOp) (op : StoreOp) :
  notifications before (ops ++ [op])
  = notifications before ops + notifications (before ++ ops) [op].
Proof.
  revert before. induction ops as [|o ops IH]; intros before.
  - simpl. now rewrite app_nil_r.
  - cbn [app notifications]. rewrite IH, <- app_assoc. simpl. lia.
Qed.

Lemma fired_applyOp (ops : list StoreOp) (p : ReviewTreeDataProvider)
      (op : StoreOp) :
  storeInv ops p ->
  length (fired (applyOp p op)) = length (fired p) + notifications ops [op].
Proof.
  intros [_ Hget _]. destruct op as [u t|u]; simpl.
  - unfold update, fire. simpl. rewrite length_app. simpl. lia.
  - unfold clearFileReviews, Map_has. rewrite Hget.
    destruct (liveText u ops); simpl; [|lia].
    rewrite length_app. simpl. lia.
Qed.

(** X2: a history fires one change notification for every update and for
    every clear of a uri that has an entry at that time, and no other: a
    clear of a uri that has no entry leaves the store as it is, and a clear
    of one that has removes the entry and fires once. *)
Theorem store_notifications_after_history (ops : list StoreOp) :
  let p := runOps ops activated in
  length (fired p) = notifications [] ops
  /\ (forall u,
        match liveText u ops with
        | None => clearFileReviews u p = p
        | Some _ =>
            Map_get u (_reviewItemsByFile (clearFileReviews u p)) = None
            /\ length (fired (clearFileReviews u p)) = S (length (fired p))
        end).
Proof.
  cbv zeta. split.
  - induction ops as [|op ops IH] using rev_ind; [reflexivity|].
    unfold runOps in *. rewrite fold_left_app. cbn [fold_left].
    rewrite (fired_applyOp ops) by apply storeInv_run.
    fold (runOps ops activated). unfold runOps. rewrite IH.
    now rewrite notifications_snoc.
  - intros u. destruct (storeInv_run ops) as [Hk Hget _].
    unfold clearFileReviews, Map_has. rewrite Hget.
    destruct (liveText u ops); cbn [option_map]; [|reflexivity].
    unfold fire, updateBadge. cbn. split.
    + now apply Map_get_delete_same.
    + rewrite length_app. simpl. lia.
Qed.

Import More Cooldown.

(* ================================================================== *)
(** ** Further properties of the diagnostics pass and of the items *)
(* ================================================================== *)

Lemma split_on_nonempty (sep : N) (s : jsstring) : split_on sep s <> [].
Proof.
  induction s as [|c s IH]; simpl; [discriminate|].
  destruct (c =? sep)%N; [discriminate|].
  destruct (split_on sep s); [congruence|discriminate].
Qed.

Lemma lineCount_positive (doc : TextDocument) : (1 <= lineCount doc)%Z.
Proof.
  unfold lineCount, docLines. rewrite length_map.
  pose proof (split_on_nonempty 10 (getText doc)) as H.
  destruct (split_on 10 (getText doc)); [congruence|]. simpl length. lia.
Qed.

(** X3: every diagnostic lies inside the document: its line is a line of
    the document whatever line number the text gave, its range stays on
    that line, starts no later than the end of the line and ends at the
    end of the line; and its source is "LLM Reviewer". *)
Theorem diagnostics_within_document (doc : TextDocument) (reviewText : jsstring) :
  Forall
    (fun d =>
       (0 <= start_line (range d) < lineCount doc)%Z
       /\ end_line (range d) = start_line (range d)
       /\ (0 <= start_character (range d) <= end_character (range d))%Z
       /\ end_character (range d)
          = Z.of_nat (length (lineAt doc (start_line (range d))))
       /\ source d = js "LLM Reviewer")
    (updateDiagnostics doc reviewText).
Proof.
  unfold updateDiagnostics. apply Forall_flat_map, Forall_forall.
  intros line _. destruct (exec severityRegex line) as [[j e]|]; [|constructor].
  constructor; [|constructor].
  pose proof (lineCount_positive doc) as Hc.
  cbn [range start_line end_line start_character end_character source].
  destruct (capture 4 (caps e)); repeat split; lia.
Qed.

(** In a document whose lines end in CR LF the range ends where the text
    of the line ends, before the line break. *)
Lemma diagnostic_range_before_line_break :
  let doc := mkDoc (js "ab" ++ [13%N; 10%N] ++ js "cd") (js "file:///a.ts") in
  lineCount doc = 2%Z
  /\ lineAt doc 0 = js "ab"
  /\ map range (updateDiagnostics doc (js "[ERROR] m [Ln 1, Col 7]"))
     = [mkRange 0 2 0 2].
Proof. cbv zeta. repeat split; vm_compute; reflexivity. Qed.

(** X4: every item the parser returns for a document carries a severity and
    the document's uri, and its line and column are numbers as [parseInt]
    gives them; it has a jump command exactly when it has a line number.
    The command selects a range on one line, from the column given, or 0.
    For a line number up to 2^53 the line is the zero-based one (line
    numbers 0 and 1 both give the first line), and for a column below 2^53
    the range is one character wide; above, the line and the end are what
    subtracting and adding 1 give on doubles. *)
Theorem parsed_items_jump_targets (text uri : jsstring) :
  Forall
    (fun it =>
       severity it <> None
       /\ resourceUri it = Some uri
       /\ isNumber (lineNumber it) /\ isNumber (colNumber it)
       /\ match lineNumber it with
          | None => command it = None
          | Some l =>
              exists r,
                command it = Some r
                /\ end_line r = start_line r
                /\ (0 <= start_line r)%Z
                /\ start_line r = (if (0 <? l)%N then minus1 l else 0%Z)
                /\ (if (l <=? 2 ^ 53)%N
                    then start_line r = Z.max 0 (Z.of_N l - 1) else True)
                /\ start_character r = Z.of_N (orZero (colNumber it))
                /\ end_character r = Z.of_N (plus1 (orZero (colNumber it)))
                /\ (if (orZero (colNumber it) <? 2 ^ 53)%N
                    then end_character r = (start_character r + 1)%Z
                    else True)
          end)
    (_parseReviewItems text (Some uri)).
Proof.
  rewrite _parseReviewItems_findings. apply Forall_map, Forall_forall.
  intros f Hf. apply parseFindings_matched, matchedOf_numbers in Hf.
  unfold itemOf, new_ReviewItem.
  cbn [severity resourceUri lineNumber colNumber command].
  split; [discriminate|]. split; [reflexivity|].
  split; [tauto|]. split; [tauto|].
  destruct (f_lineNumber f) as [l|]; [|reflexivity].
  eexists. split; [reflexivity|].
  cbn [start_line end_line start_character end_character].
  split; [reflexivity|].
  assert (H0 : (0 <= (if (0 <? l)%N then minus1 l else 0))%Z).
  { destruct (0 <? l)%N eqn:E; [|lia].
    apply N.ltb_lt in E. unfold minus1.
    replace (l =? 0)%N with false by (symmetry; apply N.eqb_neq; lia). lia. }
  split; [exact H0|]. split; [reflexivity|]. split.
  { destruct (l <=? 2 ^ 53)%N eqn:E; [|exact I].
    apply N.leb_le in E.
    destruct (0 <? l)%N eqn:E0.
    - rewrite minus1_small by exact E. apply N.ltb_lt in E0. lia.
    - apply N.ltb_ge in E0. lia. }
  destruct (f_colNumber f) as [c|]; cbn [orZero].
  - split; [reflexivity|]. split; [reflexivity|].
    destruct (c <? 2 ^ 53)%N eqn:E; [|exact I].
    apply N.ltb_lt in E. rewrite plus1_small by exact E. lia.
  - split; [reflexivity|]. split; [reflexivity|]. reflexivity.
Qed.

(* ================================================================== *)
(** ** Further properties of the snippet resolver *)
(* ================================================================== *)

Lemma startsWith_app (w s : jsstring) :
  startsWith w s = true <-> exists r, s = w ++ r.
Proof.
  revert s. induction w as [|a w IH]; intros s; simpl.
  - split; [now exists s|reflexivity].
  - destruct s as [|b s].
    + split; [discriminate|]. now intros [r Hr].
    + rewrite andb_true_iff, N.eqb_eq, IH. split.
      * intros [-> [r ->]]. now exists r.
      * intros [r [= -> ->]]. split; [reflexivity|now exists r].
Qed.

(** [indexOf] answers the least index at which the word stands. *)
Lemma indexOf_from_spec (w s : jsstring) :
  forall i j,
    indexOf_from i w s = Some j ->
    exists a b, s = a ++ w ++ b /\ j = i + length a
                /\ forall k, k < length a -> startsWith w (skipn k s) = false.
Proof.
  induction s as [|c s IH]; intros i j; cbn [indexOf_from].
  - destruct (startsWith w []) eqn:E; [|discriminate].
    intros [= <-]. apply startsWith_app in E. destruct E as [r Hr].
    exists [], r. repeat split; [assumption|simpl; lia|simpl; lia].
  - destruct (startsWith w (c :: s)) eqn:E.
    + intros [= <-]. apply startsWith_app in E. destruct E as [r Hr].
      exists [], r. repeat split; [assumption|simpl; lia|simpl; lia].
    + intros H. apply IH in H. destruct H as [a [b [Hs [Hj Hmin]]]].
      exists (c :: a), b. repeat split.
      * simpl. now rewrite Hs.
      * simpl. lia.
      * intros k Hk. destruct k as [|k]; [exact E|].
        simpl. apply Hmin. simpl in Hk. lia.
Qed.

Lemma first_some_Some {A B} (f : A -> option B) (l : list A) (y : B) :
  LlmClient.first_some f l = Some y -> exists x, In x l /\ f x = Some y.
Proof.
  induction l as [|x l IH]; simpl; [discriminate|].
  destruct (f x) as [y'|] eqn:E.
  - intros [= <-]. exists x. now split; [left|].
  - intros H. destruct (IH H) as [x' [Hin Hx]]. exists x'. split; [now right|assumption].
Qed.

Lemma In_firstn {A} (n : nat) (l : list A) (x : A) : In x (firstn n l) -> In x l.
Proof.
  intros H. rewrite <- (firstn_skipn n l). apply in_or_app. now left.
Qed.

(** Every piece of a split stood in the subject. *)
Lemma split_from_pieces (r : regex) :
  forall fuel p q cur t w,
    In w (LlmClient.split_from fuel r p q cur t) ->
    exists a b, cur ++ t = a ++ w ++ b.
Proof.
  induction fuel as [|fuel IH]; intros p q cur t w; cbn [LlmClient.split_from].
  - intros [<-|[]]. exists [], []. now rewrite app_nil_r.
  - destruct t as [|c t].
    + intros [<-|[]]. exists [], []. now rewrite !app_nil_r.
    + assert (Hmiss : In w (LlmClient.split_from fuel r p (S q) (cur ++ [c]) t) ->
                      exists a b, cur ++ c :: t = a ++ w ++ b).
      { intros H. apply IH in H. now rewrite <- app_assoc in H. }
      destruct (match_at r q (c :: t)) as [e|] eqn:E; [|exact Hmiss].
      destruct (pos e =? p); [exact Hmiss|].
      intros [<-|H].
      * exists [], (c :: t). reflexivity.
      * apply IH in H. destruct H as [a [b Hab]]. simpl in Hab.
        unfold match_at in E. apply m_reaches in E.
        destruct E as [s' [[[consumed [Hr _]] _] [= <-]]].
        simpl in Hr. exists (cur ++ consumed ++ a), b.
        rewrite Hr, Hab, <- !app_assoc. reflexivity.
Qed.

Lemma solid_app (a b : jsstring) : solid (a ++ b) = solid a && solid b.
Proof. apply forallb_app. Qed.

(** The pieces of a split on whitespace runs hold no whitespace. *)
Lemma split_from_whitespace_solid :
  forall n t fuel p q cur,
    length t <= n -> length t < fuel -> p <= q -> solid cur = true ->
    Forall (fun w => solid w = true)
           (LlmClient.split_from fuel LlmClient.whitespaceRunRe p q cur t).
Proof.
  induction n as [|n IH]; intros t fuel p q cur Hn Hf Hpq Hcur;
    (destruct fuel as [|fuel]; [lia|]); cbn [LlmClient.split_from];
    (destruct t as [|c t]; [now repeat constructor|]); simpl in Hn, Hf; [lia|].
  rewrite match_at_whitespaceRun. destruct (isWhiteSpace c) eqn:Ec.
  - cbn [pos rest].
    replace (S q + (length t - length (trimStart t)) =? p) with false
      by (symmetry; apply Nat.eqb_neq; lia).
    constructor; [assumption|].
    pose proof (trimStart_length t).
    apply IH; [lia|lia|lia|reflexivity].
  - apply IH; [lia|lia|lia|].
    rewrite solid_app, Hcur. simpl. now rewrite Ec.
Qed.

Lemma split_re_whitespace_solid (s : jsstring) :
  Forall (fun w => solid w = true) (LlmClient.split_re LlmClient.whitespaceRunRe s).
Proof.
  unfold LlmClient.split_re. destruct s as [|c s].
  - destruct (match_at _ 0 []); repeat constructor.
  - apply (split_from_whitespace_solid (length (c :: s))); simpl; lia || reflexivity.
Qed.

Lemma split_re_pieces (r : regex) (s w : jsstring) :
  In w (LlmClient.split_re r s) -> exists a b, s = a ++ w ++ b.
Proof.
  unfold LlmClient.split_re. destruct s as [|c s].
  - destruct (match_at r 0 []); [intros []|].
    intros [<-|[]]. now exists [], [].
  - intros H. apply split_from_pieces in H. exact H.
Qed.

Lemma fuzzyPass_word
        (snippet : jsstring) (doc : TextDocument) (p : Position) :
  LlmClient.fuzzyPass snippet doc = Some p ->
  exists word before after,
    (exists a b, snippet = a ++ word ++ b)
    /\ solid word = true
    /\ 3 < length word
    /\ getText doc = before ++ word ++ after
    /\ (forall k, k < length before ->
                  startsWith word (skipn k (getText doc)) = false)
    /\ p = positionAt doc (length before).
Proof.
  unfold LlmClient.fuzzyPass. intros H.
  apply first_some_Some in H. destruct H as [word [Hin H]].
  apply In_firstn in Hin. apply filter_In in Hin. destruct Hin as [Hin Hlen].
  destruct (indexOf word (getText doc)) as [index|] eqn:Ei; [|discriminate].
  destruct (2 <=? _); [|discriminate]. injection H as <-.
  unfold indexOf in Ei. apply indexOf_from_spec in Ei.
  destruct Ei as [a [b [Ht [Hi Hmin]]]]. simpl in Hi. subst index.
  exists word, a, b. repeat split; try assumption.
  - now apply split_re_pieces with LlmClient.whitespaceRunRe.
  - pose proof (split_re_whitespace_solid snippet) as Hs.
    rewrite Forall_forall in Hs. now apply Hs.
  - now apply Nat.ltb_lt.
Qed.

(** X5: a position the word-anchor pass returns is where a word of the
    snippet first stands in the document: the word is a stretch of the
    snippet without whitespace, longer than 3 code units, the document
    holds it at the returned offset and nowhere before. *)
Theorem fuzzyPass_anchors_on_a_word
        (snippet : jsstring) (doc : TextDocument) (p : Position) :
  LlmClient.fuzzyPass snippet doc = Some p ->
  exists word before after,
    (exists a b, snippet = a ++ word ++ b)
    /\ solid word = true
    /\ 3 < length word
    /\ getText doc = before ++ word ++ after
    /\ (forall k, k < length before ->
                  startsWith word (skipn k (getText doc)) = false)
    /\ p = positionAt doc (length before).
Proof. apply fuzzyPass_word. Qed.

Lemma fuzzyPass_anchors_on_a_word_witness :
  let doc := mkDoc (js "// add" ++ [10%N]
                    ++ js "function total(items) { return items.length }")
                   (js "file:///a.ts") in
  let snippet := js "function sum(items) { return" in
  exists word before after,
    (exists a b, snippet = a ++ word ++ b)
    /\ solid word = true
    /\ 3 < length word
    /\ getText doc = before ++ word ++ after
    /\ (forall k, k < length before ->
                  startsWith word (skipn k (getText doc)) = false)
    /\ mkPosition 1 0 = positionAt doc (length before).
Proof.
  apply (fuzzyPass_anchors_on_a_word
           (js "function sum(items) { return")
           (mkDoc (js "// add" ++ [10%N]
                   ++ js "function total(items) { return items.length }")
                  (js "file:///a.ts"))
           (mkPosition 1 0)).
  vm_compute. reflexivity.
Defined.

(** Where a position of the document is. *)
Lemma positionAt_from_ge (t : jsstring) :
  forall l c offset, l <= line (positionAt_from l c offset t).
Proof.
  intros l c offset. rewrite positionAt_from_line. lia.
Qed.

(** The code unit at an offset is found at the position of the offset, on
    the line the text has there when cut at its line feeds. *)
Lemma positionAt_from_at (t : jsstring) :
  forall l c offset x,
    nth_error t offset = Some x -> x <> 10%N ->
    let p := positionAt_from l c offset t in
    line p - l < length (split_on 10 t)
    /\ (if line p =? l then c else 0) <= character p
    /\ nth_error (nth (line p - l) (split_on 10 t) [])
                 (character p - (if line p =? l then c else 0)) = Some x.
Proof.
  induction t as [|y t IH]; intros l c offset x Hx Hn; cbv zeta.
  - destruct offset; discriminate.
  - destruct offset as [|o].
    + cbn [nth_error] in Hx. injection Hx as ->.
      cbn [positionAt_from line character split_on].
      rewrite Nat.sub_diag, Nat.eqb_refl.
      apply N.eqb_neq in Hn. rewrite Hn.
      pose proof (split_on_nonempty 10 t) as Hne.
      destruct (split_on 10 t) as [|w ws]; [congruence|].
      simpl. rewrite Nat.sub_diag. repeat split; lia.
    + cbn [nth_error] in Hx. cbn [positionAt_from split_on].
      destruct (y =? 10)%N.
      * specialize (IH (S l) 0 o x Hx Hn). cbv zeta in IH.
        pose proof (positionAt_from_ge t (S l) 0 o) as Hge.
        set (p := positionAt_from (S l) 0 o t) in *.
        destruct IH as [IH1 [IH2 IH3]].
        replace (line p - l) with (S (line p - S l)) by lia.
        replace (line p =? l) with false by (symmetry; apply Nat.eqb_neq; lia).
        cbn [length nth]. split; [lia|]. split; [lia|].
        destruct (line p =? S l); exact IH3.
      * specialize (IH l (S c) o x Hx Hn). cbv zeta in IH.
        pose proof (positionAt_from_ge t l (S c) o) as Hge.
        set (p := positionAt_from l (S c) o t) in *.
        destruct IH as [IH1 [IH2 IH3]].
        pose proof (split_on_nonempty 10 t) as Hne.
        destruct (split_on 10 t) as [|w ws]; [congruence|].
        cbn [length]. split; [simpl in IH1; lia|].
        destruct (line p =? l) eqn:El.
        -- apply Nat.eqb_eq in El. rewrite El, Nat.sub_diag in *.
           cbn [nth] in *. split; [lia|].
           replace (character p - c) with (S (character p - S c)) by lia.
           exact IH3.
        -- apply Nat.eqb_neq in El.
           destruct (line p - l) as [|k] eqn:Ek; [lia|].
           cbn [nth] in *. split; [lia|exact IH3].
Qed.

Lemma withoutLineBreak_nth_error (w : jsstring) (k : nat) (x : N) :
  nth_error w k = Some x -> x <> 13%N ->
  nth_error (withoutLineBreak w) k = Some x.
Proof.
  intros Hx Hn. unfold withoutLineBreak.
  destruct (rev w) as [|c r] eqn:E; [exact Hx|].
  destruct (c =? 13)%N eqn:Ec; [|exact Hx].
  apply N.eqb_eq in Ec. subst c.
  assert (Hw : w = rev r ++ [13%N]).
  { rewrite <- (rev_involutive w), E. reflexivity. }
  rewrite Hw in Hx.
  destruct (Nat.lt_ge_cases k (length (rev r))) as [Hk|Hk].
  - now rewrite nth_error_app1 in Hx.
  - rewrite nth_error_app2 in Hx by exact Hk.
    destruct (k - length (rev r)) as [|k']; cbn [nth_error] in Hx.
    + congruence.
    + destruct k'; discriminate.
Qed.

(** Where a code unit that is no part of a line break stands at an offset,
    the position of the offset is on a line of the document and the line
    holds that code unit at the position's character. *)
Lemma positionAt_at (doc : TextDocument) (offset : nat) (x : N) :
  nth_error (getText doc) offset = Some x ->
  x <> 10%N -> x <> 13%N ->
  let p := positionAt doc offset in
  (Z.of_nat (line p) < lineCount doc)%Z
  /\ nth_error (lineAt doc (Z.of_nat (line p))) (character p) = Some x.
Proof.
  intros Hx H10 H13. cbv zeta.
  unfold positionAt, lineCount, lineAt, docLines.
  pose proof (positionAt_from_at (getText doc) 0 0 offset x Hx H10) as H.
  cbv zeta in H. rewrite Nat.sub_0_r in H. destruct H as [H1 [_ H3]].
  rewrite Nat2Z.id, length_map. split; [lia|].
  change (@nil N) with (withoutLineBreak []) at 1. rewrite map_nth.
  apply withoutLineBreak_nth_error; [|exact H13].
  destruct (line _ =? 0); rewrite Nat.sub_0_r in H3; exact H3.
Qed.

Lemma positionAt_zero (doc : TextDocument) :
  positionAt doc 0 = mkPosition 0 0.
Proof. unfold positionAt. now destruct (getText doc). Qed.

(** The shape of a snippet is empty or opens with a solid code unit of the
    snippet. *)
Lemma shape_head (s : jsstring) :
  (forallb isWhiteSpace s = true /\ shape s = [])
  \/ exists c p, shape s = Lit c :: p /\ isWhiteSpace c = false /\ In c s.
Proof.
  unfold shape, trim.
  assert (H : (forallb isWhiteSpace s = true /\ trimStart s = [])
              \/ exists c r, trimStart s = c :: r
                             /\ isWhiteSpace c = false /\ In c s).
  { induction s as [|a s IH]; [now left|].
    cbn [trimStart forallb]. destruct (isWhiteSpace a) eqn:Ea.
    - destruct IH as [IH|[c [r [IH1 [IH2 IH3]]]]]; [now left|].
      right. exists c, r. repeat split; [exact IH1|exact IH2|now right].
    - right. exists a, s. repeat split; [exact Ea|now left]. }
  destruct H as [[Hw ->]|[c [r [-> [Hc Hin]]]]]; [now left|].
  right. change (c :: r) with ([] ++ c :: r).
  rewrite (trimEnd_app_solid [] r c Hc). cbn [app squeeze].
  rewrite Hc. eauto.
Qed.

Lemma whitespace_line_break (x : N) :
  isWhiteSpace x = false -> x <> 10%N /\ x <> 13%N.
Proof. intros H; split; intros ->; discriminate. Qed.

(** What the resolver returns is the position of an offset of the text;
    unless the snippet is all whitespace, a solid code unit of the snippet
    stands at that offset. *)
Lemma findPosition_offset (snippet : option jsstring) (doc : TextDocument)
      (p : Position) :
  LlmClient.findPositionByCodeSnippet snippet doc = LlmClient.Normal (Some p) ->
  exists offset,
    offset <= length (getText doc) /\ p = positionAt doc offset
    /\ ((offset = 0
         /\ exists s, snippet = Some s /\ forallb isWhiteSpace s = true)
        \/ exists x s, snippet = Some s /\ In x s /\ isWhiteSpace x = false
                       /\ nth_error (getText doc) offset = Some x).
Proof.
  intros H.
  unfold LlmClient.findPositionByCodeSnippet,
    LlmClient.findPositionByCodeSnippet_with in H.
  destruct snippet as [[|x s]|]; try discriminate.
  rewrite regexPass_search in H. cbn [LlmClient.try_catch LlmClient.bind] in H.
  destruct (search _ 0 (getText doc)) as [[j e]|] eqn:Es.
  - injection H as <-. apply search_least in Es.
    destruct Es as [Hj [Hm Hleast]].
    exists j. split; [simpl in Hj; lia|]. split; [reflexivity|].
    rewrite Nat.sub_0_r in Hm.
    pose proof (match_at_regex_of (shape (x :: s)) j (skipn j (getText doc)))
      as Hs.
    rewrite Hm in Hs. cbn [succeeds] in Hs. symmetry in Hs.
    destruct (shape_head (x :: s)) as [[Hw E]|[c [q [E [Hc Hin]]]]].
    + left. split; [|now exists (x :: s)].
      destruct j as [|j]; [reflexivity|]. exfalso.
      specialize (Hleast 0 ltac:(lia)).
      pose proof (match_at_regex_of (shape (x :: s)) 0
                    (skipn (0 - 0) (getText doc))) as H0.
      rewrite Hleast, E in H0. discriminate.
    + right. exists c, (x :: s). rewrite E in Hs. cbn [matchesShape] in Hs.
      destruct (skipn j (getText doc)) as [|y t] eqn:Ek; [discriminate|].
      apply andb_prop in Hs. destruct Hs as [Hy _]. apply N.eqb_eq in Hy.
      subst y. repeat split; try assumption.
      rewrite <- (firstn_skipn j (getText doc)), Ek.
      rewrite nth_error_app2 by (rewrite length_firstn; lia).
      rewrite length_firstn.
      replace (j - Nat.min j (length (getText doc))) with 0.
      * reflexivity.
      * simpl in Hj. lia.
  - destruct (15 <? length (x :: s)); [|discriminate].
    injection H as H. apply fuzzyPass_word in H.
    destruct H as [w [a [b [[u [v Hsn]] [Hsolid [Hlen [Ht [_ ->]]]]]]]].
    exists (length a). split; [rewrite Ht, length_app; lia|].
    split; [reflexivity|]. right.
    destruct w as [|y w]; [simpl in Hlen; lia|].
    exists y, (x :: s). repeat split.
    + rewrite Hsn. apply in_or_app. right. now left.
    + unfold solid in Hsolid. cbn [forallb] in Hsolid.
      apply andb_prop in Hsolid. destruct Hsolid as [Hy _].
      now apply negb_true_iff in Hy.
    + rewrite Ht. rewrite nth_error_app2 by lia.
      now rewrite Nat.sub_diag.
Qed.

(** The resolver's position is on a line of the document and not past the
    end of that line, line break excluded. *)
Lemma findPosition_in_document (snippet : option jsstring)
      (doc : TextDocument) (p : Position) :
  LlmClient.findPositionByCodeSnippet snippet doc = LlmClient.Normal (Some p) ->
  (Z.of_nat (line p) < lineCount doc)%Z
  /\ character p <= length (lineAt doc (Z.of_nat (line p))).
Proof.
  intros H. apply findPosition_offset in H.
  destruct H as [offset [_ [-> [[-> _]|[x [s [_ [_ [Hx Hn]]]]]]]]].
  - rewrite positionAt_zero. cbn [line character].
    pose proof (lineCount_positive doc). lia.
  - destruct (whitespace_line_break x Hx) as [H10 H13].
    destruct (positionAt_at doc offset x Hn H10 H13) as [Hl Hc].
    split; [exact Hl|].
    apply Nat.lt_le_incl, nth_error_Some. congruence.
Qed.

(** X6: a position the resolver returns is a position of the document.  Its
    line is a line of the document and its character is not past the end of
    that line, whether the document's lines end in LF or in CR LF.  It is
    the start of the document for a snippet of whitespace only; for any
    other snippet the document holds, at that line and character, a code
    unit of the snippet that is not whitespace: the resolver never points
    at a gap or at a line break. *)
Theorem resolver_position_in_document
        (snippet : option jsstring) (doc : TextDocument) (p : Position) :
  LlmClient.findPositionByCodeSnippet snippet doc = LlmClient.Normal (Some p) ->
  (Z.of_nat (line p) < lineCount doc)%Z
  /\ character p <= length (lineAt doc (Z.of_nat (line p)))
  /\ exists s,
       snippet = Some s
       /\ ((forallb isWhiteSpace s = true /\ p = mkPosition 0 0)
           \/ exists x, In x s /\ isWhiteSpace x = false
                        /\ nth_error (lineAt doc (Z.of_nat (line p)))
                                     (character p) = Some x).
Proof.
  intros H. pose proof (findPosition_in_document _ _ _ H) as [Hl Hc].
  split; [exact Hl|]. split; [exact Hc|].
  apply findPosition_offset in H.
  destruct H as [offset [_ [-> [[-> [s [-> Hw]]]|[x [s [-> [Hin [Hx Hn]]]]]]]]].
  - exists s. split; [reflexivity|]. left. split; [exact Hw|].
    apply positionAt_zero.
  - exists s. split; [reflexivity|]. right. exists x.
    destruct (whitespace_line_break x Hx) as [H10 H13].
    destruct (positionAt_at doc offset x Hn H10 H13) as [_ Hnth].
    repeat split; assumption.
Qed.

Lemma resolver_position_in_document_witness :
  let doc := mkDoc (js "let y = 2" ++ [13%N; 10%N] ++ js "const x = 1;")
                   (js "file:///a.ts") in
  let snippet := Some (js "y   = 2") in
  let p := mkPosition 0 4 in
  (Z.of_nat (line p) < lineCount doc)%Z
  /\ character p <= length (lineAt doc (Z.of_nat (line p)))
  /\ exists s,
       snippet = Some s
       /\ ((forallb isWhiteSpace s = true /\ p = mkPosition 0 0)
           \/ exists x, In x s /\ isWhiteSpace x = false
                        /\ nth_error (lineAt doc (Z.of_nat (line p)))
                                     (character p) = Some x).
Proof.
  apply (resolver_position_in_document
           (Some (js "y   = 2"))
           (mkDoc (js "let y = 2" ++ [13%N; 10%N] ++ js "const x = 1;")
                  (js "file:///a.ts"))
           (mkPosition 0 4)).
  vm_compute. reflexivity.
Defined.

(** X7: the regex pass is exact.  When the snippet occurs in the document
    up to whitespace, the resolver returns the position of the least offset
    at which it does, whatever the length of the snippet; when it occurs
    nowhere, the result is that of the word-anchor pass for a snippet longer
    than 15 code units and absent for a shorter one: a short snippet is
    never located by guessing. *)
Theorem resolver_regex_pass_exact (doc : TextDocument) (snippet : jsstring) :
  snippet <> [] ->
  (forall offset,
      occursAt snippet (getText doc) offset ->
      (forall o, o < offset -> ~ occursAt snippet (getText doc) o) ->
      LlmClient.findPositionByCodeSnippet (Some snippet) doc
      = LlmClient.Normal (Some (positionAt doc offset)))
  /\ ((forall offset, ~ occursAt snippet (getText doc) offset) ->
      LlmClient.findPositionByCodeSnippet (Some snippet) doc
      = LlmClient.Normal (if 15 <? length snippet
                          then LlmClient.fuzzyPass snippet doc
                          else None)).
Proof.
  intros Hne. split.
  - intros offset [Hlen Hocc] Hleast.
    assert (Hm : match_at (regex_of (shape snippet)) (0 + offset)
                          (skipn offset (getText doc)) <> None).
    { intros Hnone.
      pose proof (match_at_regex_of (shape snippet) (0 + offset)
                    (skipn offset (getText doc))) as H.
      rewrite Hnone, Hocc in H. discriminate. }
    destruct (search_finds _ _ 0 offset Hlen Hm) as [j [e [Hs Hj]]].
    pose proof (search_least _ _ _ _ _ Hs) as [Hb [Hat _]].
    rewrite Nat.sub_0_r in Hat.
    assert (j = offset) as ->.
    { destruct (Nat.eq_dec j offset) as [|Hneq]; [assumption|].
      exfalso. apply (Hleast j); [lia|].
      split; [simpl in Hb; lia|].
      now rewrite <- (match_at_regex_of _ j), Hat. }
    apply findPosition_of_regexPass; [assumption|].
    now rewrite regexPass_search, Hs.
  - intros Hnone.
    unfold LlmClient.findPositionByCodeSnippet,
      LlmClient.findPositionByCodeSnippet_with.
    destruct snippet as [|x s]; [congruence|].
    rewrite regexPass_search.
    destruct (search _ 0 (getText doc)) as [[j e]|] eqn:Es.
    + exfalso. apply search_least in Es. destruct Es as [Hb [Hat _]].
      rewrite Nat.sub_0_r in Hat. apply (Hnone j).
      split; [simpl in Hb; lia|].
      now rewrite <- (match_at_regex_of _ j), Hat.
    + cbn [LlmClient.try_catch LlmClient.bind].
      now destruct (15 <? length (x :: s)).
Qed.

Lemma resolver_regex_pass_exact_witness :
  let doc := mkDoc (js "let y = 2" ++ [10%N] ++ js "const x = 1;")
                   (js "file:///a.ts") in
  let snippet := js "const   x" in
  (forall offset,
      occursAt snippet (getText doc) offset ->
      (forall o, o < offset -> ~ occursAt snippet (getText doc) o) ->
      LlmClient.findPositionByCodeSnippet (Some snippet) doc
      = LlmClient.Normal (Some (positionAt doc offset)))
  /\ ((forall offset, ~ occursAt snippet (getText doc) offset) ->
      LlmClient.findPositionByCodeSnippet (Some snippet) doc
      = LlmClient.Normal (if 15 <? length snippet
                          then LlmClient.fuzzyPass snippet doc
                          else None)).
Proof.
  apply (resolver_regex_pass_exact
           (mkDoc (js "let y = 2" ++ [10%N] ++ js "const x = 1;")
                  (js "file:///a.ts"))
           (js "const   x")).
  discriminate.
Defined.

(** X8: the class of characters the source escapes is the
    [SyntaxCharacter] class of the pattern grammar, no more and no less.
    So the pattern built from a snippet, which is the snippet with leading
    and trailing whitespace dropped, every whitespace run turned into [\s+]
    and every syntax character of the grammar escaped by a backslash, is a
    pattern of the grammar: a sequence of pattern characters, escaped syntax
    characters and [\s+].  The constructor accepts it, so the regex pass
    never throws and the [catch] branch is never entered. *)
Theorem snippet_pattern_always_compiles (snippet : jsstring) (doc : TextDocument) :
  (forall c, LlmClient.isSyntaxChar c = isSyntaxCharacter c)
  /\ LlmClient.escapeSnippet snippet
     = flat_map (fun a => match a with
                          | Lit c => if isSyntaxCharacter c then [92%N; c] else [c]
                          | Gap => js "\s+"
                          end)
                (shape snippet)
  /\ tokens (LlmClient.escapeSnippet snippet)
     = Accepted (flat_map atomTokens (shape snippet))
  /\ parsePattern (LlmClient.escapeSnippet snippet)
     = Accepted (regex_of (shape snippet))
  /\ (exists r, LlmClient.RegExp_new (LlmClient.escapeSnippet snippet)
                = LlmClient.Normal r)
  /\ (exists r, LlmClient.regexPass LlmClient.RegExp_new snippet doc
                = LlmClient.Normal r).
Proof.
  split; [apply isSyntaxChar_grammar|].
  split.
  { rewrite escapeSnippet_render. unfold render. apply flat_map_ext.
    intros [c|]; [|reflexivity].
    cbn [renderAtom]. unfold escapeUnit. now rewrite isSyntaxChar_grammar. }
  split; [rewrite escapeSnippet_render; apply tokens_render|].
  split; [rewrite escapeSnippet_render; apply parsePattern_render|].
  split.
  - eexists. apply RegExp_new_escapeSnippet.
  - eexists. apply regexPass_search.
Qed.

(* ================================================================== *)
(** ** Properties of the tree view *)
(* ================================================================== *)

Import Tree Lint.








Lemma lastIndexOf_from_spec (c : N) (s : jsstring) :
  forall i,
    match lastIndexOf_from i c s with
    | Some j => exists a b, s = a ++ c :: b /\ j = i + length a /\ ~ In c b
    | None => ~ In c s
    end.
Proof.
  induction s as [|x s IH]; intros i; cbn [lastIndexOf_from]; [easy|].
  specialize (IH (S i)). destruct (lastIndexOf_from (S i) c s) as [j|].
  - destruct IH as [a [b [-> [-> Hb]]]].
    exists (x :: a), b. repeat split; [simpl; lia|assumption].
  - destruct (x =? c)%N eqn:E.
    + apply N.eqb_eq in E. subst x. exists [], s.
      repeat split; [simpl; lia|assumption].
    + apply N.eqb_neq in E. intros [H|H]; [congruence|contradiction].
Qed.

Lemma fileNameOf_spec (p : jsstring) :
  ~ In 47%N (fileNameOf p)
  /\ exists dir, p = dir ++ fileNameOf p
                 /\ (dir = [] \/ exists d, dir = d ++ [47%N]).
Proof.
  unfold fileNameOf, lastIndexOf.
  pose proof (lastIndexOf_from_spec 47 p 0) as H.
  destruct (lastIndexOf_from 0 47 p) as [j|].
  - destruct H as [a [b [-> [-> Hb]]]]. simpl.
    replace (length a + 1) with (length (a ++ [47%N]))
      by (rewrite length_app; reflexivity).
    replace (a ++ 47%N :: b) with ((a ++ [47%N]) ++ b)
      by (now rewrite <- app_assoc).
    rewrite skipn_app, skipn_all, Nat.sub_diag. simpl.
    split; [assumption|]. exists (a ++ [47%N]). split; [reflexivity|].
    right. now exists a.
  - split; [assumption|]. exists []. split; [reflexivity|now left].
Qed.

Lemma replace_backslashes (s : jsstring) :
  replace_all (lit 92) (fun _ => js "/") s
  = map (fun c => if (c =? 92)%N then 47%N else c) s.
Proof.
  unfold lit. rewrite replace_all_Chr.
  induction s as [|c s IH]; [reflexivity|].
  cbn [flat_map map]. rewrite IH. now destruct (c =? 92)%N.
Qed.

(** X10: the path shown for a file.  When a workspace folder's path is a
    prefix of the file's path, the first such folder is cut off the front,
    every backslash becomes a slash and a slash is put in front unless
    there is one: the result starts with a slash and holds no backslash.
    Otherwise (no workspace, or no folder is a prefix) it is the part of the
    uri's path after its last slash, which holds no slash. *)
Theorem workspace_relative_path_shape
        (folders : option (list jsstring)) (uri : Uri) :
  let shown := getWorkspaceRelativePath folders uri in
  match match folders with
        | Some fs => find (fun f => startsWith f (fsPath uri)) fs
        | None => None
        end with
  | Some folder =>
      let tail := map (fun c => if (c =? 92)%N then 47%N else c)
                      (skipn (length folder) (fsPath uri)) in
      (exists r, fsPath uri = folder ++ r)
      /\ shown = (if startsWith (js "/") tail then tail else js "/" ++ tail)
      /\ startsWith (js "/") shown = true
      /\ ~ In 92%N shown
  | None =>
      shown = fileNameOf (path uri)
      /\ ~ In 47%N shown
      /\ exists dir, path uri = dir ++ shown
                     /\ (dir = [] \/ exists d, dir = d ++ [47%N])
  end.
Proof.
  cbv zeta. unfold getWorkspaceRelativePath.
  destruct folders as [fs|].
  - destruct (find _ fs) as [folder|] eqn:Ef.
    + rewrite replace_backslashes.
      set (tail := map _ (skipn (length folder) (fsPath uri))).
      apply find_some in Ef. destruct Ef as [_ Hpre].
      apply startsWith_app in Hpre.
      assert (Hno : ~ In 92%N tail).
      { unfold tail. rewrite in_map_iff. intros [c [Hc _]].
        destruct (c =? 92)%N eqn:E; [discriminate|].
        apply N.eqb_neq in E. congruence. }
      split; [exact Hpre|]. split; [reflexivity|].
      destruct (startsWith (js "/") tail) eqn:Es.
      * split; [exact Es|exact Hno].
      * split; [reflexivity|].
        intros [H|H]; [discriminate|contradiction].
    + split; [reflexivity|]. apply fileNameOf_spec.
  - split; [reflexivity|]. apply fileNameOf_spec.
Qed.

(* ================================================================== *)
(** ** Properties of a review run and of its triggers *)
(* ================================================================== *)










(** [lintIfNeeded] queues nothing and records nothing, or passes the
    cooldown and records the time. *)
Lemma lintIfNeeded_cases (env : Environment) (visible : list jsstring)
      (now : Z) (doc : DocumentInfo) (m0 : JSMap Z) :
  (lintIfNeeded env visible now doc m0 = (false, m0))
  \/ (lintIfNeeded env visible now doc m0 = (true, Map_set (docUri doc) now m0)
      /\ (lastRun (docUri doc) m0 + 30000 <= now)%Z).
Proof.
  unfold lintIfNeeded, lastRun.
  destruct (isUntitled doc); [now left|].
  destruct (negb (isProgrammingLanguage (languageId doc))); [now left|].
  destruct (shouldExclude env (docFsPath doc)); [now left|].
  destruct (negb (existsb _ visible)); [now left|].
  destruct (now - _ <? 30000)%Z eqn:E; [now left|].
  right. split; [reflexivity|]. apply Z.ltb_ge in E. lia.
Qed.

Lemma jsstring_eqb_sym (a b : jsstring) : jsstring_eqb a b = jsstring_eqb b a.
Proof.
  unfold jsstring_eqb.
  destruct (list_eq_dec N.eq_dec a b), (list_eq_dec N.eq_dec b a); congruence.
Qed.

Lemma lastRun_set (u k : jsstring) (t : Z) (m0 : JSMap Z) :
  lastRun u (Map_set k t m0) = if jsstring_eqb u k then t else lastRun u m0.
Proof.
  unfold lastRun. destruct (jsstring_eqb u k) eqn:E.
  - apply jsstring_eqb_eq in E. subst k. now rewrite Map_get_set_same.
  - apply jsstring_eqb_neq in E. now rewrite Map_get_set_other.
Qed.

Lemma runTriggers_spaced (env : Environment)
      (triggers : list (Z * list jsstring * DocumentInfo)) :
  forall (m0 : JSMap Z) (u : jsstring),
    let times := queuedTimes u (fst (runTriggers env triggers m0)) in
    Forall (fun t => (lastRun u m0 + 30000 <= t)%Z) times
    /\ StronglySorted (fun a b => (a + 30000 <= b)%Z) times.
Proof.
  induction triggers as [|[[now visible] doc] rest IH]; intros m0 u; cbv zeta.
  - simpl. split; constructor.
  - cbn [runTriggers].
    destruct (lintIfNeeded_cases env visible now doc m0) as [H|[H Hcool]];
      rewrite H; clear H.
    + specialize (IH m0 u). cbv zeta in IH.
      destruct (runTriggers env rest m0) as [later final]. exact IH.
    + specialize (IH (Map_set (docUri doc) now m0) u). cbv zeta in IH.
      destruct (runTriggers env rest (Map_set (docUri doc) now m0))
        as [later final].
      cbn [fst app] in *. rewrite lastRun_set in IH. destruct IH as [IH1 IH2].
      unfold queuedTimes in *. cbn [filter fst map snd].
      rewrite (jsstring_eqb_sym (docUri doc) u).
      destruct (jsstring_eqb u (docUri doc)) eqn:E.
      * apply jsstring_eqb_eq in E. subst u. cbn [map snd]. split.
        -- constructor; [assumption|].
           eapply Forall_impl; [|exact IH1]. cbv beta. intros t Ht. lia.
        -- constructor; assumption.
      * split; assumption.
Qed.

(** X12: the cooldown of automatic reviews.  In any sequence of automatic
    triggers, whatever their times and documents, two reviews queued for
    one document are at least 30000 ms apart, and the first is at least
    30000 ms after the last run recorded for it before the sequence. *)
Theorem automatic_reviews_are_spaced (env : Environment)
        (triggers : list (Z * list jsstring * DocumentInfo))
        (lastRunMap : JSMap Z) (u : jsstring) :
  let times := queuedTimes u (fst (runTriggers env triggers lastRunMap)) in
  Forall (fun t => (lastRun u lastRunMap + 30000 <= t)%Z) times
  /\ StronglySorted (fun a b => (a + 30000 <= b)%Z) times.
Proof. apply runTriggers_spaced. Qed.

(** X13: the review command starts no cooldown.  When the command runs a
    review of a document it records time 0 for it, so the next automatic
    trigger for that document, if the document is visible and is not
    otherwise skipped, is queued at any time from 30000 on, however short
    the time since the review. *)
Theorem manual_review_resets_cooldown (env : Environment)
        (visible : list jsstring) (now : Z) (doc : DocumentInfo)
        (lastRunMap : JSMap Z) :
  fst (reviewCurrentFile env doc lastRunMap) = true ->
  existsb (fun editorUri => jsstring_eqb editorUri (docUri doc)) visible = true ->
  (30000 <= now)%Z ->
  lastRun (docUri doc) (snd (reviewCurrentFile env doc lastRunMap)) = 0%Z
  /\ lintIfNeeded env visible now doc (snd (reviewCurrentFile env doc lastRunMap))
     = (true, Map_set (docUri doc) now
                      (snd (reviewCurrentFile env doc lastRunMap))).
Proof.
  unfold reviewCurrentFile, lintIfNeeded.
  destruct (isUntitled doc); [discriminate|].
  destruct (negb (isProgrammingLanguage (languageId doc))); [discriminate|].
  destruct (shouldExclude env (docFsPath doc)); [discriminate|].
  intros _ Hvis Hnow. cbn [snd]. rewrite Hvis. cbn [negb].
  unfold lastRun. rewrite Map_get_set_same.
  split; [reflexivity|].
  replace (now - 0 <? 30000)%Z with false; [reflexivity|].
  symmetry. apply Z.ltb_ge. lia.
Qed.

Lemma manual_review_resets_cooldown_witness :
  let env := mkEnvironment None [] [] (fun _ p => p) (fun _ _ => false) in
  let doc := mkDocumentInfo false (js "typescript") (js "/w/a.ts")
                            (js "file:///w/a.ts") in
  let lastRunMap := [(js "file:///w/a.ts", 1700000000000%Z)] in
  let now := 1700000000001%Z in
  lastRun (docUri doc) (snd (reviewCurrentFile env doc lastRunMap)) = 0%Z
  /\ lintIfNeeded env [js "file:///w/a.ts"] now doc
                  (snd (reviewCurrentFile env doc lastRunMap))
     = (true, Map_set (docUri doc) now
                      (snd (reviewCurrentFile env doc lastRunMap))).
Proof.
  apply (manual_review_resets_cooldown
           (mkEnvironment None [] [] (fun _ p => p) (fun _ _ => false))
           [js "file:///w/a.ts"] 1700000000001%Z
           (mkDocumentInfo false (js "typescript") (js "/w/a.ts")
                           (js "file:///w/a.ts"))
           [(js "file:///w/a.ts", 1700000000000%Z)]);
    [reflexivity|reflexivity|lia].
Defined.

(* ================================================================== *)
(** ** The round trip of a structured entry *)
(* ================================================================== *)

Import RoundTrip.

(** *** Decimal numerals *)

Lemma parseInt10_acc (d : Decimal.uint) (acc : positive) :
  fold_left (fun a c => (a * 10 + (c - 48))%N)
            (js (NilEmpty.string_of_uint d)) (Npos acc)
  = Npos (Pos.of_uint_acc d acc).
Proof.
  revert acc.
  induction d as [|d IH|d IH|d IH|d IH|d IH|d IH|d IH|d IH|d IH|d IH];
    intros acc; cbn [NilEmpty.string_of_uint Pos.of_uint_acc];
    [reflexivity|..]; rewrite js_cons; cbn [fold_left];
    rewrite <- IH; f_equal;
    match goal with
    | |- context [N_of_ascii ?a] =>
        let v := eval vm_compute in (N_of_ascii a) in
        change (N_of_ascii a) with v
    end; lia.
Qed.

Lemma digits_of_uint (d : Decimal.uint) :
  fold_left (fun a c => (a * 10 + (c - 48))%N)
            (js (NilEmpty.string_of_uint d)) 0%N
  = N.of_uint d.
Proof.
  unfold N.of_uint.
  induction d as [|d IH|d IH|d IH|d IH|d IH|d IH|d IH|d IH|d IH|d IH];
    cbn [NilEmpty.string_of_uint Pos.of_uint];
    [reflexivity|..]; rewrite js_cons; cbn [fold_left];
    [exact IH|..]; apply parseInt10_acc.
Qed.

(** [parseInt] reads a decimal numeral as the number nearest to it. *)
Lemma parseInt10_decimal (n : N) : parseInt10 (decimal n) = toNumber n.
Proof.
  unfold parseInt10, decimal. rewrite digits_of_uint.
  now rewrite DecimalN.Unsigned.of_to.
Qed.

(** Up to 2^53, what is printed for a number is a run of digits, and
    [parseInt] reads the number back. *)
Lemma Number_toString_nonempty (n : N) :
  (n <= 2 ^ 53)%N -> Number_toString n <> [].
Proof.
  intros Hn. rewrite Number_toString_small by exact Hn. apply decimal_nonempty.
Qed.

Lemma Number_toString_digits (n : N) :
  (n <= 2 ^ 53)%N -> forallb isDigit (Number_toString n) = true.
Proof.
  intros Hn. rewrite Number_toString_small by exact Hn.
  apply forallb_forall. intros c Hc.
  pose proof (decimal_digits n) as Hd.
  rewrite Forall_forall in Hd. now apply Hd.
Qed.

Lemma parseInt10_Number_toString (n : N) :
  (n <= 2 ^ 53)%N -> parseInt10 (Number_toString n) = n.
Proof.
  intros Hn. rewrite Number_toString_small by exact Hn.
  rewrite parseInt10_decimal. now apply toNumber_small.
Qed.

(** *** The words a pattern matches *)

Lemma star_loop_matches (g : bool) (r : regex) (step : cont -> cont) :
  (forall k s e, step k s = Some e ->
     exists w s', matches r w /\ rest s = w ++ rest s' /\ k s' = Some e) ->
  forall fuel k s e,
    star_loop g step k fuel s = Some e ->
    exists w s', matches (Star g r) w /\ rest s = w ++ rest s' /\ k s' = Some e.
Proof.
  intros Hstep.
  assert (Hagain : forall fuel,
    (forall k s e, star_loop g step k fuel s = Some e ->
       exists w s', matches (Star g r) w /\ rest s = w ++ rest s' /\ k s' = Some e) ->
    forall k s e,
      step (fun s' => if pos s <? pos s'
                      then star_loop g step k fuel s' else None) s = Some e ->
      exists w s', matches (Star g r) w /\ rest s = w ++ rest s' /\ k s' = Some e).
  { intros fuel IH k s e H. apply Hstep in H.
    destruct H as [w1 [s1 [M1 [R1 H]]]].
    destruct (pos s <? pos s1); [|discriminate].
    apply IH in H. destruct H as [w2 [s2 [M2 [R2 H]]]].
    exists (w1 ++ w2), s2. split; [now constructor|].
    split; [|assumption]. now rewrite R1, R2, app_assoc. }
  induction fuel as [|fuel IH]; intros k s e; cbn [star_loop].
  - intros H. exists [], s. split; [constructor|now split].
  - destruct g.
    + destruct (step _ s) as [e'|] eqn:E.
      * intros [= <-]. now apply (Hagain fuel IH k s e').
      * intros H. exists [], s. split; [constructor|now split].
    + destruct (k s) as [e'|] eqn:E.
      * intros [= <-]. exists [], s. split; [constructor|now split].
      * intros H. now apply (Hagain fuel IH k s e).
Qed.

(** Whenever [m r k s] succeeds, [r] took a word it matches off the front
    of the subject and [k] succeeded on what was left. *)
Lemma m_matches (r : regex) :
  forall k s e, m r k s = Some e ->
    exists w s', matches r w /\ rest s = w ++ rest s' /\ k s' = Some e.
Proof.
  induction r as [|p|a IHa b IHb|a IHa b IHb|g r IH|i r IH| |];
    intros k s e; cbn [m].
  - intros H. exists [], s. split; [constructor|now split].
  - destruct (rest s) as [|c t] eqn:Er; [discriminate|].
    destruct (p c) eqn:Ep; [|discriminate]. intros H.
    exists [c], (MState (S (pos s)) t (caps s)).
    split; [now constructor|now split].
  - intros H. apply IHa in H. destruct H as [w1 [s1 [M1 [R1 H]]]].
    apply IHb in H. destruct H as [w2 [s2 [M2 [R2 H]]]].
    exists (w1 ++ w2), s2. split; [now constructor|].
    split; [|assumption]. now rewrite R1, R2, app_assoc.
  - destruct (m a k s) as [e'|] eqn:E.
    + intros [= <-]. apply IHa in E. destruct E as [w [s1 [M1 [R1 H]]]].
      exists w, s1. split; [now apply matches_AltL|now split].
    + intros H. apply IHb in H. destruct H as [w [s1 [M1 [R1 H]]]].
      exists w, s1. split; [now apply matches_AltR|now split].
  - apply star_loop_matches. exact IH.
  - intros H. apply IH in H. destruct H as [w [s1 [M1 [R1 H]]]].
    eexists w, _. split; [now constructor|]. split; [|exact H]. exact R1.
  - destruct (pos s =? 0); [|discriminate].
    intros H. exists [], s. split; [constructor|now split].
  - destruct (rest s) eqn:Er; [|discriminate].
    intros H. exists [], s. split; [constructor|now split].
Qed.

(** Every code unit of a matched word is one some atom of the pattern
    takes. *)
Lemma matches_accepts (r : regex) (w : jsstring) :
  matches r w -> forall c, In c w -> accepts r c = true.
Proof.
  induction 1; intros x Hx; cbn [accepts]; try now destruct Hx.
  - destruct Hx as [<-|[]]. assumption.
  - apply in_app_or in Hx. apply orb_true_iff. destruct Hx; auto.
  - apply orb_true_iff. auto.
  - apply orb_true_iff. auto.
  - apply in_app_or in Hx. destruct Hx as [Hx|Hx]; [auto|].
    exact (IHmatches2 _ Hx).
  - auto.
Qed.

Lemma matches_Seq_inv (a b : regex) (w : jsstring) :
  matches (Seq a b) w ->
  exists u v, w = u ++ v /\ matches a u /\ matches b v.
Proof. inversion 1; subst. now exists u, v. Qed.

Lemma matches_Chr_inv (p : N -> bool) (w : jsstring) :
  matches (Chr p) w -> exists c, w = [c] /\ p c = true.
Proof. inversion 1; subst. now exists c. Qed.

Lemma matches_Alt_inv (a b : regex) (w : jsstring) :
  matches (Alt a b) w -> matches a w \/ matches b w.
Proof. inversion 1; subst; auto. Qed.

Lemma matches_Empty_inv (w : jsstring) : matches Empty w -> w = [].
Proof. now inversion 1. Qed.

(** *** Running the matcher forward *)

Lemma m_Alt_left (a b : regex) (k : cont) (s e : mstate) :
  m a k s = Some e -> m (Alt a b) k s = Some e.
Proof. intros H. cbn [m]. now rewrite H. Qed.

Lemma m_Alt_right (a b : regex) (k : cont) (s e : mstate) :
  m a k s = None -> m b k s = Some e -> m (Alt a b) k s = Some e.
Proof. intros Ha Hb. cbn [m]. now rewrite Ha. Qed.

Lemma m_Seq (a b : regex) (k : cont) (s : mstate) :
  m (Seq a b) k s = m a (m b k) s.
Proof. reflexivity. Qed.

Lemma m_Chr_take (p : N -> bool) (k : cont) (i : nat) (c : N) (t : jsstring)
      (cs : list (nat * jsstring)) (e : mstate) :
  p c = true ->
  k (MState (S i) t cs) = Some e ->
  m (Chr p) k (MState i (c :: t) cs) = Some e.
Proof. intros Hp Hk. cbn [m rest pos caps]. now rewrite Hp. Qed.

Lemma m_Chr_refuse (p : N -> bool) (k : cont) (i : nat) (t : jsstring)
      (cs : list (nat * jsstring)) :
  match t with c :: _ => p c = false | [] => True end ->
  m (Chr p) k (MState i t cs) = None.
Proof.
  intros Hp. cbn [m rest]. destruct t as [|c t]; [reflexivity|].
  now rewrite Hp.
Qed.

(** A literal word under [i], forward. *)
Lemma m_word_i_take (w : jsstring) :
  forall (k : cont) (i : nat) (t : jsstring) (cs : list (nat * jsstring))
         (e : mstate),
    k (MState (i + length w) t cs) = Some e ->
    m (seq_of lit_i w) k (MState i (w ++ t) cs) = Some e.
Proof.
  induction w as [|c w IH]; intros k i t cs e Hk.
  - cbn [seq_of m app]. now rewrite Nat.add_0_r in Hk.
  - assert (Hone : forall k', k' (MState (S i) (w ++ t) cs) = Some e ->
                              m (lit_i c) k' (MState i ((c :: w) ++ t) cs) = Some e).
    { intros k' Hk'. apply m_Chr_take; [apply N.eqb_refl|assumption]. }
    destruct w as [|c' w].
    + cbn [seq_of]. apply Hone. cbn [length] in Hk.
      now rewrite Nat.add_1_r in Hk.
    + change (seq_of lit_i (c :: c' :: w))
        with (Seq (lit_i c) (seq_of lit_i (c' :: w))).
      rewrite m_Seq. apply Hone. apply IH.
      cbn [length] in *. now rewrite Nat.add_succ_r in Hk.
Qed.

Lemma m_word_i_refuse (w : jsstring) :
  forall (k : cont) (s : mstate),
    startsWith_i w (rest s) = false -> m (seq_of lit_i w) k s = None.
Proof.
  intros k s Hn. destruct (m (seq_of lit_i w) k s) as [e|] eqn:E; [|reflexivity].
  apply m_seq_of_lit_i in E. destruct E as [E _]. congruence.
Qed.

(** A greedy run of a class: when the class takes all of [run] and not
    what follows, the loop hands on the state after [run]. *)
Lemma star_greedy_run (p : N -> bool) (k : cont) (cs : list (nat * jsstring))
      (tl : jsstring) (e : mstate) :
  match tl with c :: _ => p c = false | [] => True end ->
  forall (run : jsstring) (fuel i : nat),
    forallb p run = true ->
    length (run ++ tl) <= fuel ->
    k (MState (i + length run) tl cs) = Some e ->
    star_loop true (m (Chr p)) k fuel (MState i (run ++ tl) cs) = Some e.
Proof.
  intros Htl. induction run as [|c run IH]; intros fuel i Hp Hf Hk.
  - cbn [app length] in *. rewrite Nat.add_0_r in Hk.
    destruct fuel as [|fuel]; cbn [star_loop]; [assumption|].
    now rewrite m_Chr_refuse.
  - destruct fuel as [|fuel]; [cbn [app length] in Hf; lia|].
    cbn [forallb] in Hp. apply andb_true_iff in Hp. destruct Hp as [Hc Hp].
    cbn [star_loop app].
    rewrite (m_Chr_take p _ i c (run ++ tl) cs e Hc); [reflexivity|].
    cbn [pos]. replace (i <? S i) with true by (symmetry; apply Nat.ltb_lt; lia).
    apply IH; [assumption|cbn [app length] in Hf; lia|].
    cbn [length] in Hk. now rewrite Nat.add_succ_r in Hk.
Qed.

Lemma m_Star_greedy (p : N -> bool) (k : cont) (cs : list (nat * jsstring))
      (run tl : jsstring) (i : nat) (e : mstate) :
  forallb p run = true ->
  match tl with c :: _ => p c = false | [] => True end ->
  k (MState (i + length run) tl cs) = Some e ->
  m (Star true (Chr p)) k (MState i (run ++ tl) cs) = Some e.
Proof.
  intros Hp Htl Hk. cbn [m rest].
  apply star_greedy_run; auto.
Qed.

Lemma m_Plus_greedy (p : N -> bool) (k : cont) (cs : list (nat * jsstring))
      (run tl : jsstring) (i : nat) (e : mstate) :
  run <> [] ->
  forallb p run = true ->
  match tl with c :: _ => p c = false | [] => True end ->
  k (MState (i + length run) tl cs) = Some e ->
  m (Plus true (Chr p)) k (MState i (run ++ tl) cs) = Some e.
Proof.
  intros Hne Hp Htl Hk. destruct run as [|c run]; [congruence|].
  cbn [forallb] in Hp. apply andb_true_iff in Hp. destruct Hp as [Hc Hp].
  unfold Plus. rewrite m_Seq. cbn [app]. apply m_Chr_take; [assumption|].
  apply m_Star_greedy; auto.
  cbn [length] in Hk. now rewrite Nat.add_succ_r in Hk.
Qed.

Lemma m_Group_Plus_greedy (g : nat) (p : N -> bool) (k : cont)
      (cs : list (nat * jsstring)) (run tl : jsstring) (i : nat) (e : mstate) :
  run <> [] ->
  forallb p run = true ->
  match tl with c :: _ => p c = false | [] => True end ->
  k (MState (i + length run) tl ((g, run) :: cs)) = Some e ->
  m (Group g (Plus true (Chr p))) k (MState i (run ++ tl) cs) = Some e.
Proof.
  intros Hne Hp Htl Hk. cbn [m]. fold (Plus true (Chr p)).
  apply m_Plus_greedy; auto. cbn [pos rest caps].
  replace (i + length run - i) with (length run) by lia.
  now rewrite firstn_app, Nat.sub_diag, firstn_all, app_nil_r.
Qed.

(** A lazy run of a class: the loop stops at the first point where the
    continuation succeeds. *)
Lemma star_lazy_first (p : N -> bool) (k : cont) (cs : list (nat * jsstring))
      (tl : jsstring) (e : mstate) :
  forall (u : jsstring) (fuel i : nat),
    forallb p u = true ->
    length (u ++ tl) <= fuel ->
    (forall j, j < length u ->
               k (MState (i + j) (skipn j u ++ tl) cs) = None) ->
    k (MState (i + length u) tl cs) = Some e ->
    star_loop false (m (Chr p)) k fuel (MState i (u ++ tl) cs) = Some e.
Proof.
  induction u as [|c u IH]; intros fuel i Hp Hf Hn Hk.
  - cbn [app length] in *. rewrite Nat.add_0_r in Hk.
    destruct fuel as [|fuel]; cbn [star_loop]; [assumption|].
    now rewrite Hk.
  - destruct fuel as [|fuel]; [cbn [app length] in Hf; lia|].
    cbn [forallb] in Hp. apply andb_true_iff in Hp. destruct Hp as [Hc Hp].
    cbn [star_loop].
    pose proof (Hn 0 ltac:(cbn [length]; lia)) as H0.
    rewrite Nat.add_0_r in H0. cbn [skipn] in H0. rewrite H0.
    cbn [app]. apply m_Chr_take; [assumption|].
    cbn [pos]. replace (i <? S i) with true by (symmetry; apply Nat.ltb_lt; lia).
    apply IH; [assumption|cbn [app length] in Hf; lia| |].
    + intros j Hj. specialize (Hn (S j) ltac:(cbn [length]; lia)).
      cbn [skipn] in Hn. now rewrite Nat.add_succ_r in Hn.
    + cbn [length] in Hk. now rewrite Nat.add_succ_r in Hk.
Qed.

(** [(.+?)] as group [g]: the capture is the shortest non-empty stretch
    after which the rest of the pattern succeeds. *)
Lemma m_Group_Plus_lazy (g : nat) (p : N -> bool) (k : cont)
      (cs : list (nat * jsstring)) (c : N) (u tl : jsstring) (i : nat)
      (e : mstate) :
  forallb p (c :: u) = true ->
  (forall j cs', j < length u ->
                 k (MState (S i + j) (skipn j u ++ tl) cs') = None) ->
  k (MState (S i + length u) tl ((g, c :: u) :: cs)) = Some e ->
  m (Group g (Plus false (Chr p))) k (MState i ((c :: u) ++ tl) cs) = Some e.
Proof.
  intros Hp Hn Hk. cbn [forallb] in Hp. apply andb_true_iff in Hp.
  destruct Hp as [Hc Hp].
  unfold Plus. cbn [m app rest]. rewrite Hc. cbn [rest pos caps].
  apply star_lazy_first; [assumption|lia| |].
  - intros j Hj. apply Hn. assumption.
  - cbn [pos rest caps].
    replace (S i + length u - i) with (S (length u)) by lia.
    cbn [firstn]. now rewrite firstn_app, Nat.sub_diag, firstn_all, app_nil_r.
Qed.

(** *** The parts of the line pattern *)

Lemma severityRegex_parts :
  severityRegex
  = Seq Bol (Seq (lit_i 91) (Seq (Group 1 tagAlternatives)
                                  (Seq (lit_i 93) afterTagRe))).
Proof. reflexivity. Qed.

Lemma digit_not_whitespace (c : N) : isDigit c = true -> isWhiteSpace c = false.
Proof.
  unfold isDigit. rewrite andb_true_iff, !N.leb_le. intros [H1 H2].
  destruct (isWhiteSpace c) eqn:E; [|reflexivity]. exfalso.
  unfold isWhiteSpace in E.
  rewrite !orb_true_iff, !andb_true_iff, !N.leb_le, !N.eqb_eq in E. lia.
Qed.

Lemma upperAscii_outside (c d : N) :
  upperAscii c = d -> (d < 65 \/ 90 < d)%N -> c = d.
Proof.
  unfold upperAscii.
  destruct ((97 <=? c) && (c <=? 122))%N eqn:E; [|easy].
  apply andb_true_iff in E. destruct E as [E1 E2].
  apply N.leb_le in E1, E2. lia.
Qed.

(** The tag: any of the four tokens, spelled as the enumeration has it, is
    taken and captured. *)
Lemma m_tag_take (sev : jsstring) (k : cont) (i : nat) (tl : jsstring)
      (cs : list (nat * jsstring)) (e : mstate) :
  In sev severityTokens ->
  k (MState (i + length sev) tl ((1, sev) :: cs)) = Some e ->
  m (Group 1 tagAlternatives) k (MState i (sev ++ tl) cs) = Some e.
Proof.
  intros Hin Hk. cbn [m]. unfold tagAlternatives, word_i.
  assert (Hcap : forall w, firstn (i + length w - i) (w ++ tl) = w).
  { intros w. replace (i + length w - i) with (length w) by lia.
    now rewrite firstn_app, Nat.sub_diag, firstn_all, app_nil_r. }
  destruct Hin as [<-|[<-|[<-|[<-|[]]]]].
  - apply m_Alt_left. apply m_word_i_take. cbn [pos rest caps].
    now rewrite Hcap.
  - apply m_Alt_right; [now apply m_word_i_refuse|].
    apply m_Alt_left. apply m_word_i_take. cbn [pos rest caps].
    now rewrite Hcap.
  - apply m_Alt_right; [now apply m_word_i_refuse|].
    apply m_Alt_right; [now apply m_word_i_refuse|].
    apply m_Alt_left. apply m_word_i_take. cbn [pos rest caps].
    now rewrite Hcap.
  - apply m_Alt_right; [now apply m_word_i_refuse|].
    apply m_Alt_right; [now apply m_word_i_refuse|].
    apply m_Alt_right; [now apply m_word_i_refuse|].
    apply m_word_i_take. cbn [pos rest caps].
    now rewrite Hcap.
Qed.

(** The location the formatter prints is taken whole, after any
    whitespace, and its two numerals are captured. *)
Lemma m_location_take (trail dn dm : jsstring) (i : nat)
      (cs : list (nat * jsstring)) :
  forallb isWhiteSpace trail = true ->
  dn <> [] -> forallb isDigit dn = true ->
  dm <> [] -> forallb isDigit dm = true ->
  exists n,
    m (Seq (Opt locationRe) Eol) Some
      (MState i (trail ++ js " [Ln " ++ dn ++ js ", Col " ++ dm ++ js "]") cs)
    = Some (MState n [] ((4, dm) :: (3, dn) :: cs)).
Proof.
  intros Ht Hn Hdn Hm Hdm.
  assert (Hn0 : match dn with c :: _ => isWhiteSpace c = false | [] => True end).
  { destruct dn as [|c dn]; [exact I|]. cbn [forallb] in Hdn.
    apply andb_true_iff in Hdn. now apply digit_not_whitespace. }
  assert (Hm0 : match dm with c :: _ => isWhiteSpace c = false | [] => True end).
  { destruct dm as [|c dm]; [exact I|]. cbn [forallb] in Hdm.
    apply andb_true_iff in Hdm. now apply digit_not_whitespace. }
  replace (trail ++ js " [Ln " ++ dn ++ js ", Col " ++ dm ++ js "]")
    with ((trail ++ [32%N]) ++ js "[Ln" ++ [32%N] ++ dn
          ++ 44%N :: [32%N] ++ js "Col" ++ [32%N] ++ dm ++ [93%N])
    by (rewrite <- app_assoc; reflexivity).
  eexists. rewrite m_Seq. apply m_Alt_left. unfold locationRe.
  rewrite m_Seq. apply (m_Plus_greedy isWhiteSpace).
  { now destruct trail. }
  { now rewrite forallb_app, Ht. }
  { reflexivity. }
  rewrite m_Seq. apply (m_word_i_take (js "[Ln")).
  rewrite m_Seq. apply (m_Plus_greedy isWhiteSpace);
    [discriminate|reflexivity| |].
  { destruct dn; [congruence|exact Hn0]. }
  rewrite m_Seq. apply (m_Group_Plus_greedy 3 isDigit);
    [assumption|assumption|reflexivity|].
  rewrite m_Seq. apply m_Alt_left. unfold columnRe.
  rewrite m_Seq. apply m_Chr_take; [apply N.eqb_refl|].
  rewrite m_Seq. apply (m_Star_greedy isWhiteSpace);
    [reflexivity|reflexivity|].
  rewrite m_Seq. apply (m_word_i_take (js "Col")).
  rewrite m_Seq. apply (m_Plus_greedy isWhiteSpace);
    [discriminate|reflexivity| |].
  { destruct dm; [congruence|exact Hm0]. }
  apply (m_Group_Plus_greedy 4 isDigit);
    [assumption|assumption|reflexivity|].
  apply m_Chr_take; [apply N.eqb_refl|]. reflexivity.
Qed.

(** What a location is: whitespace, then a bracket, then a body that holds
    no opening bracket and ends with the closing one. *)
Lemma matches_locationRe_inv (w : jsstring) :
  matches locationRe w ->
  exists a z, w = a ++ 91%N :: z
              /\ forallb isWhiteSpace a = true
              /\ ~ In 91%N z
              /\ exists y, z = y ++ [93%N].
Proof.
  unfold locationRe. intros H.
  apply matches_Seq_inv in H. destruct H as [a [v [-> [Ha H]]]].
  unfold word_i in H. change (seq_of lit_i (js "[Ln"))
    with (Seq (lit_i 91) (Seq (lit_i 76) (lit_i 110))) in H.
  apply matches_Seq_inv in H. destruct H as [v1 [v2 [-> [H1 H2]]]].
  apply matches_Seq_inv in H1. destruct H1 as [b [v1' [-> [Hb H1]]]].
  apply matches_Chr_inv in Hb. destruct Hb as [c [-> Hc]].
  apply N.eqb_eq in Hc. apply upperAscii_outside in Hc; [|right; reflexivity].
  change (upperAscii 91) with 91%N in Hc. subst c.
  exists a, (v1' ++ v2). split; [now rewrite <- !app_assoc|].
  split.
  { apply forallb_forall. intros x Hx.
    pose proof (matches_accepts _ _ Ha x Hx) as Hacc.
    cbn [accepts Plus ws] in Hacc. now rewrite orb_diag in Hacc. }
  split.
  { intros Hin. apply in_app_or in Hin. destruct Hin as [Hin|Hin].
    - pose proof (matches_accepts _ _ H1 _ Hin) as Hacc. discriminate Hacc.
    - pose proof (matches_accepts _ _ H2 _ Hin) as Hacc. discriminate Hacc. }
  apply matches_Seq_inv in H2. destruct H2 as [x1 [x2 [-> [_ H2]]]].
  apply matches_Seq_inv in H2. destruct H2 as [x3 [x4 [-> [_ H2]]]].
  apply matches_Seq_inv in H2. destruct H2 as [x5 [x6 [-> [_ H2]]]].
  apply matches_Chr_inv in H2. destruct H2 as [c [-> Hc]].
  apply N.eqb_eq in Hc. apply upperAscii_bracket in Hc. subst c.
  exists (v1' ++ x1 ++ x3 ++ x5). now rewrite <- !app_assoc.
Qed.

(** Where no location stands and something is left, the rest of the line
    pattern fails. *)
Lemma m_tail_refuse (rem : jsstring) (i : nat) (cs : list (nat * jsstring)) :
  rem <> [] -> ~ matches locationRe rem ->
  m (Seq (Opt locationRe) Eol) Some (MState i rem cs) = None.
Proof.
  intros Hne Hno.
  destruct (m _ Some (MState i rem cs)) as [e|] eqn:E; [|reflexivity].
  exfalso. rewrite m_Seq in E. apply m_matches in E.
  destruct E as [w [s' [Hw [Hr He]]]]. cbn [rest] in Hr.
  cbn [m] in He. destruct (rest s') eqn:Es; [|discriminate].
  rewrite app_nil_r in Hr. subst w.
  apply matches_Alt_inv in Hw. destruct Hw as [Hw|Hw]; [now apply Hno|].
  apply matches_Empty_inv in Hw. contradiction.
Qed.

Lemma m_tail_end (i : nat) (cs : list (nat * jsstring)) :
  m (Seq (Opt locationRe) Eol) Some (MState i [] cs) = Some (MState i [] cs).
Proof. reflexivity. Qed.

(** *** Trimming *)

Lemma trimStart_shape (s : jsstring) :
  exists lead, s = lead ++ trimStart s
               /\ forallb isWhiteSpace lead = true
               /\ match trimStart s with
                  | y :: _ => isWhiteSpace y = false
                  | [] => True
                  end.
Proof.
  induction s as [|c s [lead [H1 [H2 H3]]]]; [now exists []|].
  cbn [trimStart]. destruct (isWhiteSpace c) eqn:Ec.
  - exists (c :: lead). cbn [app forallb]. rewrite Ec, H2. split; [now f_equal|].
    now split.
  - exists []. now repeat split.
Qed.

(** [trimEnd] cuts a run of whitespace off the end and leaves a string
    that is empty or ends with a code unit that is not whitespace. *)
Lemma trimEnd_shape (s : jsstring) :
  exists trail, s = trimEnd s ++ trail
                /\ forallb isWhiteSpace trail = true
                /\ (trimEnd s = []
                    \/ exists U y, trimEnd s = U ++ [y]
                                   /\ isWhiteSpace y = false).
Proof.
  unfold trimEnd. destruct (trimStart_shape (rev s)) as [lead [H1 [H2 H3]]].
  exists (rev lead). split; [|split].
  - rewrite <- rev_app_distr, <- H1. now rewrite rev_involutive.
  - apply forallb_forall. intros x Hx. apply in_rev in Hx.
    rewrite forallb_forall in H2. now apply H2.
  - destruct (trimStart (rev s)) as [|y R]; [now left|].
    right. exists (rev R), y. now split.
Qed.

Lemma trimStart_solid (c : N) (s : jsstring) :
  isWhiteSpace c = false -> trimStart (c :: s) = c :: s.
Proof. intros H. cbn [trimStart]. now rewrite H. Qed.

Lemma trimEnd_solid (U : jsstring) (y : N) :
  isWhiteSpace y = false -> trimEnd (U ++ [y]) = U ++ [y].
Proof. intros H. now rewrite (trimEnd_app_solid U [] y H). Qed.

Lemma skipn_before_last (U : jsstring) (y : N) (j : nat) :
  j < length (U ++ [y]) -> exists V, skipn j (U ++ [y]) = V ++ [y].
Proof.
  rewrite length_app. cbn [length]. intros Hj.
  exists (skipn j U). rewrite skipn_app.
  replace (j - length U) with 0 by lia. reflexivity.
Qed.

(** *** The line pattern on a formatted entry *)

Lemma m_Empty (k : cont) (s : mstate) : m Empty k s = k s.
Proof. reflexivity. Qed.

Lemma m_Bol_start (k : cont) (t : jsstring) (cs : list (nat * jsstring)) :
  m Bol k (MState 0 t cs) = k (MState 0 t cs).
Proof. reflexivity. Qed.

Lemma separator_inv (sep : jsstring) :
  separator sep = true ->
  ~ In 10%N sep /\ ~ In 60%N sep
  /\ exists g1 colon g2,
       sep = g1 ++ colon ++ g2
       /\ forallb isWhiteSpace g1 = true
       /\ forallb isWhiteSpace g2 = true
       /\ (colon = [] /\ g2 = [] \/ colon = [58%N]).
Proof.
  unfold separator. rewrite andb_true_iff, negb_true_iff. intros [H10 Hs].
  destruct (trimStart_shape sep) as [lead [Hl [Hw _]]].
  assert (Hshape : exists g1 colon g2,
             sep = g1 ++ colon ++ g2
             /\ forallb isWhiteSpace g1 = true
             /\ forallb isWhiteSpace g2 = true
             /\ (colon = [] /\ g2 = [] \/ colon = [58%N])).
  { destruct (trimStart sep) as [|c r].
    - exists lead, [], []. repeat split; auto.
    - apply andb_true_iff in Hs. destruct Hs as [Hc Hr].
      apply N.eqb_eq in Hc. subst c.
      exists lead, [58%N], r. repeat split; auto. }
  split; [|split; [|exact Hshape]].
  - intros Hin. assert (existsb (N.eqb 10) sep = true); [|congruence].
    apply existsb_exists. exists 10%N. split; [assumption|reflexivity].
  - destruct Hshape as [g1 [colon [g2 [-> [H1 [H2 Hc]]]]]].
    rewrite forallb_forall in H1, H2. intros Hin.
    apply in_app_or in Hin. destruct Hin as [Hin|Hin].
    + apply H1 in Hin. discriminate.
    + apply in_app_or in Hin. destruct Hin as [Hin|Hin].
      * destruct Hc as [[-> _]| ->]; [destruct Hin|].
        destruct Hin as [Hin|[]]. discriminate.
      * apply H2 in Hin. discriminate.
Qed.

(** After the tag: past the separator, a message that opens with a solid
    code unit other than a colon is captured up to the first point after
    which the location, or the end of the line, follows. *)
Lemma m_afterTag_take (sep : jsstring) (x : N) (T rem : jsstring) (i : nat)
      (cs caps' : list (nat * jsstring)) :
  separator sep = true ->
  isWhiteSpace x = false -> x <> 58%N ->
  forallb (fun c => negb (isLineTerminator c)) (x :: T) = true ->
  (forall j i' cs', j < length T ->
      m (Seq (Opt locationRe) Eol) Some (MState i' (skipn j T ++ rem) cs') = None) ->
  (forall i', exists n,
      m (Seq (Opt locationRe) Eol) Some (MState i' rem ((2, x :: T) :: cs))
      = Some (MState n [] caps')) ->
  exists n, m afterTagRe Some (MState i (sep ++ (x :: T) ++ rem) cs)
            = Some (MState n [] caps').
Proof.
  intros Hsep Hx H58 Hdot Hfail Hok.
  assert (Hmsg : forall i', exists n,
             m (Seq (Group 2 (Plus false dot)) (Seq (Opt locationRe) Eol)) Some
               (MState i' ((x :: T) ++ rem) cs)
             = Some (MState n [] caps')).
  { intros i'. destruct (Hok (S i' + length T)) as [n Hn]. exists n.
    rewrite m_Seq.
    apply (m_Group_Plus_lazy 2 (fun c => negb (isLineTerminator c)));
      [exact Hdot| |exact Hn].
    intros j cs' Hj. now apply Hfail. }
  apply separator_inv in Hsep.
  destruct Hsep as [_ [_ [g1 [colon [g2 [-> [H1 [H2 Hc]]]]]]]].
  unfold afterTagRe.
  destruct Hc as [[-> ->]| ->].
  - destruct (Hmsg (i + length g1 + 0)) as [n Hn]. exists n.
    cbn [app]. rewrite app_nil_r, m_Seq.
    apply (m_Star_greedy isWhiteSpace); [exact H1|exact Hx|].
    rewrite m_Seq. apply m_Alt_right.
    { apply m_Chr_refuse. cbn [app].
      destruct (upperAscii x =? upperAscii 58)%N eqn:E; [|reflexivity].
      apply N.eqb_eq in E. apply upperAscii_outside in E; [|left; reflexivity].
      exfalso. now apply H58. }
    rewrite m_Empty, m_Seq.
    apply (m_Star_greedy isWhiteSpace _ cs [] ((x :: T) ++ rem));
      [reflexivity|exact Hx|].
    exact Hn.
  - destruct (Hmsg (S (i + length g1) + length g2)) as [n Hn]. exists n.
    rewrite <- !app_assoc. cbn [app]. rewrite m_Seq.
    apply (m_Star_greedy isWhiteSpace); [exact H1|reflexivity|].
    rewrite m_Seq. apply m_Alt_left.
    apply m_Chr_take; [apply N.eqb_refl|].
    rewrite m_Seq.
    apply (m_Star_greedy isWhiteSpace); [exact H2|exact Hx|].
    exact Hn.
Qed.

(** The whole pattern on a line [[SEV] message...]. *)
Lemma exec_entry (sev sep : jsstring) (x : N) (T rem : jsstring)
      (caps' : list (nat * jsstring)) :
  In sev severityTokens ->
  separator sep = true ->
  isWhiteSpace x = false -> x <> 58%N ->
  forallb (fun c => negb (isLineTerminator c)) (x :: T) = true ->
  (forall j i' cs', j < length T ->
      m (Seq (Opt locationRe) Eol) Some (MState i' (skipn j T ++ rem) cs') = None) ->
  (forall i', exists n,
      m (Seq (Opt locationRe) Eol) Some (MState i' rem [(2, x :: T); (1, sev)])
      = Some (MState n [] caps')) ->
  exists n, exec severityRegex (91%N :: sev ++ 93%N :: sep ++ (x :: T) ++ rem)
            = Some (0, MState n [] caps').
Proof.
  intros Hin Hsep Hx H58 Hdot Hfail Hok.
  destruct (m_afterTag_take sep x T rem (S (1 + length sev)) [(1, sev)] caps'
              Hsep Hx H58 Hdot Hfail Hok) as [n Hn].
  exists n. rewrite severityRegex_parts, exec_Bol. unfold match_at.
  assert (H : m (Seq Bol (Seq (lit_i 91) (Seq (Group 1 tagAlternatives)
                                               (Seq (lit_i 93) afterTagRe))))
                Some (MState 0 (91%N :: sev ++ 93%N :: sep ++ (x :: T) ++ rem) [])
              = Some (MState n [] caps')).
  { rewrite m_Seq, m_Bol_start.
    rewrite m_Seq. apply m_Chr_take; [apply N.eqb_refl|].
    rewrite m_Seq. apply m_tag_take; [assumption|].
    rewrite m_Seq. apply m_Chr_take; [apply N.eqb_refl|].
    exact Hn. }
  now rewrite H.
Qed.

Lemma location_body_no_bracket (dn dm : jsstring) :
  forallb isDigit dn = true -> forallb isDigit dm = true ->
  ~ In 91%N (js "Ln " ++ dn ++ js ", Col " ++ dm ++ js "]").
Proof.
  intros Hn Hm Hin. rewrite forallb_forall in Hn, Hm.
  repeat (apply in_app_or in Hin; destruct Hin as [Hin|Hin]);
    try (apply Hn in Hin; discriminate Hin);
    try (apply Hm in Hin; discriminate Hin);
    cbn in Hin; intuition discriminate.
Qed.

(** A line that ends with the location the formatter prints. *)
Lemma exec_entry_located (sev sep : jsstring) (x : N)
      (T U trail dn dm : jsstring) (y : N) :
  In sev severityTokens ->
  separator sep = true ->
  isWhiteSpace x = false -> x <> 58%N ->
  forallb (fun c => negb (isLineTerminator c)) (x :: T) = true ->
  x :: T = U ++ [y] -> isWhiteSpace y = false ->
  forallb isWhiteSpace trail = true ->
  dn <> [] -> forallb isDigit dn = true ->
  dm <> [] -> forallb isDigit dm = true ->
  exists n,
    exec severityRegex
         (91%N :: sev ++ 93%N :: sep ++ (x :: T)
          ++ trail ++ js " [Ln " ++ dn ++ js ", Col " ++ dm ++ js "]")
    = Some (0, MState n [] [(4, dm); (3, dn); (2, x :: T); (1, sev)]).
Proof.
  intros Hin Hsep Hx H58 Hdot HU Hy Ht Hn Hdn Hm Hdm.
  apply exec_entry; auto.
  - intros j i' cs' Hj. apply m_tail_refuse.
    { destruct (skipn j T) eqn:E; [|discriminate].
      apply (f_equal (@length N)) in E. rewrite length_skipn in E.
      cbn [length] in E. lia. }
    intros Hmt. apply matches_locationRe_inv in Hmt.
    destruct Hmt as [a [z [Hw [Ha [Hz _]]]]].
    assert (HV : exists V, skipn j T = V ++ [y]).
    { destruct U as [|u U]; cbn [app] in HU.
      - injection HU as _ ->. cbn [length] in Hj. lia.
      - injection HU as _ ->. now apply skipn_before_last. }
    destruct HV as [V HV]. rewrite HV in Hw.
    assert (Hw' : (V ++ [y] ++ trail ++ [32%N])
                  ++ 91%N :: (js "Ln " ++ dn ++ js ", Col " ++ dm ++ js "]")
                  = a ++ 91%N :: z).
    { rewrite <- Hw. rewrite <- !app_assoc. reflexivity. }
    apply cut_at_last in Hw'; [|now apply location_body_no_bracket|assumption].
    destruct Hw' as [<- _].
    rewrite !forallb_app in Ha. cbn [forallb] in Ha. rewrite Hy in Ha.
    rewrite andb_false_r in Ha. cbn in Ha. discriminate.
  - intros i'. now apply m_location_take.
Qed.

(** A line that ends with the message, which does not end with [\]]. *)
Lemma exec_entry_unlocated (sev sep : jsstring) (x : N) (T U : jsstring)
      (y : N) :
  In sev severityTokens ->
  separator sep = true ->
  isWhiteSpace x = false -> x <> 58%N ->
  forallb (fun c => negb (isLineTerminator c)) (x :: T) = true ->
  x :: T = U ++ [y] -> y <> 93%N ->
  exists n,
    exec severityRegex (91%N :: sev ++ 93%N :: sep ++ x :: T)
    = Some (0, MState n [] [(2, x :: T); (1, sev)]).
Proof.
  intros Hin Hsep Hx H58 Hdot HU Hy.
  replace (91%N :: sev ++ 93%N :: sep ++ x :: T)
    with (91%N :: sev ++ 93%N :: sep ++ (x :: T) ++ []) by now rewrite app_nil_r.
  apply exec_entry; auto.
  - intros j i' cs' Hj. rewrite app_nil_r. apply m_tail_refuse.
    { destruct (skipn j T) eqn:E; [|discriminate].
      apply (f_equal (@length N)) in E. rewrite length_skipn in E.
      cbn [length] in E. lia. }
    intros Hmt. apply matches_locationRe_inv in Hmt.
    destruct Hmt as [a [z [Hw [_ [_ [y' ->]]]]]].
    assert (HV : exists V, skipn j T = V ++ [y]).
    { destruct U as [|u U]; cbn [app] in HU.
      - injection HU as _ ->. cbn [length] in Hj. lia.
      - injection HU as _ ->. now apply skipn_before_last. }
    destruct HV as [V HV]. rewrite HV in Hw.
    change (a ++ 91%N :: y' ++ [93%N]) with (a ++ (91%N :: y') ++ [93%N]) in Hw.
    rewrite app_assoc in Hw. apply app_inj_tail in Hw.
    destruct Hw as [_ Hw]. now apply Hy.
  - intros i'. exists i'. apply m_tail_end.
Qed.

(** *** From the formatted line to the finding *)

Lemma trimStart_idem (s : jsstring) : trimStart (trimStart s) = trimStart s.
Proof.
  induction s as [|c s IH]; [reflexivity|].
  cbn [trimStart]. destruct (isWhiteSpace c) eqn:E; [exact IH|].
  cbn [trimStart]. now rewrite E.
Qed.

Lemma trimEnd_idem (s : jsstring) : trimEnd (trimEnd s) = trimEnd s.
Proof. unfold trimEnd. now rewrite rev_involutive, trimStart_idem. Qed.

(** The lines of a text that is one formatted entry. *)
Lemma reviewLines_entry (tok M : jsstring) :
  plainText (91%N :: tok ++ 93%N :: M) = true ->
  keepLine (trim (91%N :: tok ++ 93%N :: M)) = true ->
  reviewLines (91%N :: tok ++ 93%N :: M) = [91%N :: tok ++ 93%N :: trimEnd M].
Proof.
  intros Hp Hk. unfold reviewLines.
  rewrite (replace_all_thinkRegex_plain _ _ Hp), (split_on_plain _ Hp).
  cbn [map filter]. rewrite Hk. cbn [map]. rewrite trim_entry.
  now rewrite replace_first_bullet_entry, trim_entry, trimEnd_idem.
Qed.

Lemma parseFindings_entry (tok M : jsstring) (f : Finding) :
  plainText (91%N :: tok ++ 93%N :: M) = true ->
  keepLine (trim (91%N :: tok ++ 93%N :: M)) = true ->
  matchLine (91%N :: tok ++ 93%N :: trimEnd M) = Some f ->
  parseFindings (91%N :: tok ++ 93%N :: M) = [f].
Proof.
  intros Hp Hk Hm. unfold parseFindings.
  rewrite (reviewLines_entry _ _ Hp Hk). cbn [collectFindings].
  rewrite Hm. reflexivity.
Qed.

Lemma diagnosticLines_entry (tok M : jsstring) :
  plainText (91%N :: tok ++ 93%N :: M) = true ->
  filter (fun line => 0 <? length line)
         (map trim (split_on 10 (91%N :: tok ++ 93%N :: M)))
  = [91%N :: tok ++ 93%N :: trimEnd M].
Proof.
  intros Hp. rewrite (split_on_plain _ Hp). cbn [map]. now rewrite trim_entry.
Qed.

Lemma toUpperCase_token (sev : jsstring) :
  In sev severityTokens -> toUpperCase sev = sev.
Proof. intros [<-|[<-|[<-|[<-|[]]]]]; reflexivity. Qed.

Lemma plainText_token (sev : jsstring) :
  In sev severityTokens -> plainText sev = true.
Proof. intros [<-|[<-|[<-|[<-|[]]]]]; reflexivity. Qed.

Lemma plainText_digits (d : jsstring) :
  forallb isDigit d = true -> plainText d = true.
Proof.
  unfold plainText. rewrite !forallb_forall. intros H c Hc.
  specialize (H c Hc). unfold isDigit in H.
  apply andb_true_iff in H. destruct H as [H1 H2].
  apply N.leb_le in H1, H2.
  rewrite andb_true_iff, !negb_true_iff, !N.eqb_neq. lia.
Qed.

(** A readable message: its first code unit, and what [trimEnd] leaves. *)
Lemma readableMessage_inv (msg : jsstring) :
  readableMessage msg = true ->
  plainText msg = true
  /\ exists x T U y trail,
       trimEnd msg = x :: T
       /\ msg = (x :: T) ++ trail
       /\ x :: T = U ++ [y]
       /\ isWhiteSpace x = false /\ x <> 58%N
       /\ isWhiteSpace y = false
       /\ forallb isWhiteSpace trail = true
       /\ forallb (fun c => negb (isLineTerminator c)) (x :: T) = true.
Proof.
  unfold readableMessage. destruct msg as [|x0 M]; [discriminate|].
  rewrite !andb_true_iff, !negb_true_iff, N.eqb_neq.
  intros [[Hx H58] Hall].
  split.
  { unfold plainText. rewrite forallb_forall in *. intros c Hc.
    specialize (Hall c Hc). rewrite andb_true_iff, !negb_true_iff in *.
    destruct Hall as [Hl H60]. split; [|assumption].
    unfold isLineTerminator in Hl. rewrite !orb_false_iff in Hl. tauto. }
  destruct (trimEnd_shape (x0 :: M)) as [trail [Hs [Ht Hshape]]].
  destruct Hshape as [He|[U [y [HU Hy]]]].
  { rewrite He in Hs. cbn [app] in Hs. subst trail.
    cbn [forallb] in Ht. rewrite Hx in Ht. discriminate. }
  destruct (trimEnd (x0 :: M)) as [|x T] eqn:ET.
  { destruct U; discriminate. }
  assert (x = x0) by (cbn [app] in Hs; congruence). subst x0.
  exists x, T, U, y, trail. repeat split; try assumption.
  rewrite Hs, forallb_app in Hall. apply andb_true_iff in Hall.
  destruct Hall as [Hall _].
  eapply forallb_forall. intros c Hc. rewrite forallb_forall in Hall.
  specialize (Hall c Hc). now apply andb_true_iff in Hall.
Qed.

(** *** One entry: its line, its match, its finding *)

Lemma trimStart_whitespace (t : jsstring) :
  forallb isWhiteSpace t = true -> trimStart t = [].
Proof.
  induction t as [|c t IH]; [reflexivity|].
  cbn [forallb trimStart]. rewrite andb_true_iff. intros [-> Ht]. now apply IH.
Qed.

Lemma trimEnd_whitespace (t : jsstring) :
  forallb isWhiteSpace t = true -> trimEnd t = [].
Proof.
  intros Ht. unfold trimEnd. rewrite trimStart_whitespace; [reflexivity|].
  apply forallb_forall. intros c Hc. apply in_rev in Hc.
  rewrite forallb_forall in Ht. now apply Ht.
Qed.

Lemma plainText_not_In (l : jsstring) :
  ~ In 10%N l -> ~ In 60%N l -> plainText l = true.
Proof.
  intros H10 H60. unfold plainText. apply forallb_forall. intros c Hc.
  rewrite andb_true_iff, !negb_true_iff, !N.eqb_neq.
  split; intros ->; auto.
Qed.

(** A tagged line with a readable message and what the line pattern
    captures on it once trimmed. *)
Lemma tagged_facts (sev sep msg : jsstring) (position : option Position) :
  separator sep = true ->
  readable sev msg position ->
  safePosition position ->
  exists M n,
    taggedLine sev sep msg position = 91%N :: sev ++ 93%N :: M
    /\ plainText (91%N :: sev ++ 93%N :: M) = true
    /\ exec severityRegex (91%N :: sev ++ 93%N :: trimEnd M)
       = Some (0, MState n [] (entryCaps sev msg position))
    /\ trim (trimEnd msg) = trimEnd msg.
Proof.
  intros Hsep [Hin [Hmsg Hlast]] Hsafe.
  destruct (readableMessage_inv msg Hmsg)
    as [Hplain [x [T [U [y [trail [HT [Hm [HU [Hx [H58 [Hy [Htr Hdot]]]]]]]]]]]]].
  assert (Htrim : trim (trimEnd msg) = trimEnd msg).
  { rewrite HT. unfold trim.
    now rewrite (trimStart_solid _ _ Hx), HU, (trimEnd_solid _ _ Hy). }
  assert (Hsp : plainText sep = true).
  { destruct (separator_inv sep Hsep) as [H10 [H60 _]].
    now apply plainText_not_In. }
  destruct position as [p|].
  - destruct Hsafe as [Hs1 Hs2].
    set (dn := Number_toString (N.of_nat (line p + 1))).
    set (dm := Number_toString (N.of_nat (character p))).
    set (loc := js " [Ln " ++ dn ++ js ", Col " ++ dm ++ js "]").
    assert (Hend : trimEnd (sep ++ msg ++ loc) = sep ++ msg ++ loc).
    { unfold loc.
      replace (sep ++ msg ++ js " [Ln " ++ dn ++ js ", Col " ++ dm ++ js "]")
        with ((sep ++ msg ++ js " [Ln " ++ dn ++ js ", Col " ++ dm) ++ [93%N])
        by (rewrite <- !app_assoc; reflexivity).
      now apply trimEnd_solid. }
    destruct (exec_entry_located sev sep x T U trail dn dm y Hin Hsep Hx H58 Hdot
                HU Hy Htr
                (Number_toString_nonempty _ Hs1) (Number_toString_digits _ Hs1)
                (Number_toString_nonempty _ Hs2) (Number_toString_digits _ Hs2))
      as [n Hexec].
    exists (sep ++ msg ++ loc), n. split; [reflexivity|]. split; [|split].
    + change (91%N :: sev ++ 93%N :: sep ++ msg ++ loc)
        with ([91%N] ++ sev ++ [93%N] ++ sep ++ msg ++ js " [Ln " ++ dn
              ++ js ", Col " ++ dm ++ js "]").
      repeat apply plainText_app;
        try reflexivity; try assumption;
        try (now apply plainText_token);
        apply plainText_digits; now apply Number_toString_digits.
    + rewrite Hend. cbn [entryCaps]. fold dn dm. rewrite HT.
      rewrite Hm at 1. unfold loc. rewrite <- !app_assoc. exact Hexec.
    + exact Htrim.
  - assert (Hy93 : y <> 93%N).
    { intros ->. apply (Hlast eq_refl). rewrite HT, HU. apply last_last. }
    destruct (exec_entry_unlocated sev sep x T U y Hin Hsep Hx H58 Hdot HU Hy93)
      as [n Hexec].
    assert (Hend : trimEnd (sep ++ msg) = sep ++ x :: T).
    { rewrite Hm, HU.
      replace (sep ++ (U ++ [y]) ++ trail) with ((sep ++ U) ++ y :: trail)
        by (rewrite <- !app_assoc; reflexivity).
      rewrite (trimEnd_app_solid _ _ _ Hy), (trimEnd_whitespace _ Htr).
      now rewrite <- app_assoc. }
    exists (sep ++ msg), n. split; [|split; [|split]].
    + unfold taggedLine. cbn [js list_ascii_of_string map app].
      now rewrite app_nil_r.
    + change (91%N :: sev ++ 93%N :: sep ++ msg)
        with ([91%N] ++ sev ++ [93%N] ++ sep ++ msg).
      repeat apply plainText_app;
        try reflexivity; try assumption; now apply plainText_token.
    + rewrite Hend. cbn [entryCaps]. now rewrite HT.
    + exact Htrim.
Qed.

(** The trimmed line matches, and the finding is the one the line spells. *)
Lemma matchLine_tagged (sev sep msg : jsstring) (position : option Position) :
  separator sep = true ->
  readable sev msg position ->
  safePosition position ->
  matchLine (trim (taggedLine sev sep msg position))
  = Some (findingOf sev msg position).
Proof.
  intros Hsep Hr Hsafe. pose proof Hr as [Hin _].
  destruct (tagged_facts sev sep msg position Hsep Hr Hsafe)
    as [M [n [HL [_ [Hexec Htrim]]]]].
  rewrite HL, trim_entry. unfold matchLine. rewrite Hexec.
  unfold findingOf.
  destruct position as [p|]; cbn [entryCaps caps capture Nat.eqb option_map];
    rewrite (toUpperCase_token _ Hin), Htrim; [|reflexivity].
  destruct Hsafe as [Hs1 Hs2].
  now rewrite !parseInt10_Number_toString by assumption.
Qed.

(** The line of a readable entry is a tagged line without separator. *)
Lemma entry_facts (sev msg : jsstring) (position : option Position) :
  readable sev msg position ->
  safePosition position ->
  exists M n,
    entryLine sev msg position = 91%N :: sev ++ 93%N :: M
    /\ plainText (91%N :: sev ++ 93%N :: M) = true
    /\ exec severityRegex (91%N :: sev ++ 93%N :: trimEnd M)
       = Some (0, MState n [] (entryCaps sev msg position))
    /\ trim (trimEnd msg) = trimEnd msg.
Proof. exact (tagged_facts sev [] msg position eq_refl). Qed.

Lemma matchLine_entry (sev msg : jsstring) (position : option Position) :
  readable sev msg position ->
  safePosition position ->
  matchLine (trim (entryLine sev msg position))
  = Some (findingOf sev msg position).
Proof. exact (matchLine_tagged sev [] msg position eq_refl). Qed.

Lemma updateDiagnostics_lines (doc : TextDocument) (reviewText : jsstring) :
  updateDiagnostics doc reviewText
  = flat_map (diagnosticsOfLine doc)
             (filter (fun line => 0 <? length line)
                     (map trim (split_on 10 reviewText))).
Proof. reflexivity. Qed.

(** The diagnostic of the trimmed line when the position, if any, is one
    of the document. *)
Lemma diagnosticsOfLine_tagged (doc : TextDocument) (sev sep msg : jsstring)
      (position : option Position) :
  separator sep = true ->
  readable sev msg position ->
  safePosition position ->
  match position with
  | Some p => (Z.of_nat (line p) < lineCount doc)%Z
              /\ character p <= length (lineAt doc (Z.of_nat (line p)))
  | None => True
  end ->
  map (fun d => (range d, d_message d))
      (diagnosticsOfLine doc (trim (taggedLine sev sep msg position)))
  = [(match position with
      | Some p =>
          mkRange (Z.of_nat (line p)) (Z.of_nat (character p))
                  (Z.of_nat (line p))
                  (Z.of_nat (length (lineAt doc (Z.of_nat (line p)))))
      | None => mkRange 0 0 0 (Z.of_nat (length (lineAt doc 0)))
      end, trimEnd msg)].
Proof.
  intros Hsep Hr Hsafe Hpos.
  destruct (tagged_facts sev sep msg position Hsep Hr Hsafe)
    as [M [n [HL [_ [Hexec Htrim]]]]].
  rewrite HL, trim_entry. unfold diagnosticsOfLine. rewrite Hexec.
  destruct position as [p|];
    cbn [entryCaps caps capture Nat.eqb map range d_message]; rewrite Htrim.
  - destruct Hpos as [Hl Hc]. destruct Hsafe as [Hs1 Hs2].
    rewrite !parseInt10_Number_toString by assumption.
    rewrite minus1_small by exact Hs1.
    replace (Z.max 0 (Z.min (Z.of_N (N.of_nat (line p + 1)) - 1)
                            (lineCount doc - 1)))
      with (Z.of_nat (line p)) by lia.
    replace (Z.min (Z.of_N (N.of_nat (character p)))
                   (Z.of_nat (length (lineAt doc (Z.of_nat (line p))))))
      with (Z.of_nat (character p)) by lia.
    reflexivity.
  - pose proof (lineCount_positive doc) as Hlc.
    replace (Z.max 0 (Z.min 0 (lineCount doc - 1))) with 0%Z by lia.
    replace (Z.min 0 (Z.of_nat (length (lineAt doc 0)))) with 0%Z by lia.
    reflexivity.
Qed.

Lemma diagnosticsOfLine_entry (doc : TextDocument) (sev msg : jsstring)
      (position : option Position) :
  readable sev msg position ->
  safePosition position ->
  match position with
  | Some p => (Z.of_nat (line p) < lineCount doc)%Z
              /\ character p <= length (lineAt doc (Z.of_nat (line p)))
  | None => True
  end ->
  map (fun d => (range d, d_message d))
      (diagnosticsOfLine doc (trim (entryLine sev msg position)))
  = [(match position with
      | Some p =>
          mkRange (Z.of_nat (line p)) (Z.of_nat (character p))
                  (Z.of_nat (line p))
                  (Z.of_nat (length (lineAt doc (Z.of_nat (line p)))))
      | None => mkRange 0 0 0 (Z.of_nat (length (lineAt doc 0)))
      end, trimEnd msg)].
Proof. exact (diagnosticsOfLine_tagged doc sev [] msg position eq_refl). Qed.

(** *** What the formatter prints *)

Lemma findPosition_resolved (doc : TextDocument) (review : LlmClient.ReviewItem) :
  LlmClient.findPositionByCodeSnippet (LlmClient.codeSnippet review) doc
  = LlmClient.Normal (resolved doc review).
Proof.
  unfold resolved, LlmClient.findPositionByCodeSnippet,
    LlmClient.findPositionByCodeSnippet_with.
  destruct (LlmClient.codeSnippet review) as [[|x s]|]; try reflexivity.
  rewrite regexPass_search. cbn [LlmClient.try_catch LlmClient.bind].
  destruct (search _ 0 (getText doc)) as [[j e]|]; [reflexivity|].
  now destruct (15 <? length (x :: s)).
Qed.

Lemma positionAt_from_character (t : jsstring) :
  forall l c offset, character (positionAt_from l c offset t) <= c + offset.
Proof.
  induction t as [|x t IH]; intros l c offset.
  - destruct offset; simpl; lia.
  - destruct offset as [|o]; [simpl; lia|].
    cbn [positionAt_from]. destruct (x =? 10)%N.
    + specialize (IH (S l) 0 o). lia.
    + specialize (IH l (S c) o). lia.
Qed.

(** The position of an offset of a string has numbers below 2^53. *)
Lemma positionAt_safe (doc : TextDocument) (offset : nat) :
  isString (getText doc) -> offset <= length (getText doc) ->
  safePosition (Some (positionAt doc offset)).
Proof.
  unfold isString, safePosition, positionAt. intros Hs Ho.
  rewrite positionAt_from_line.
  pose proof (positionAt_from_character (getText doc) 0 0 offset) as Hc.
  pose proof (count_occ_bound N.eq_dec 10%N (firstn offset (getText doc))) as Hl.
  rewrite length_firstn in Hl. split; lia.
Qed.

Lemma findPosition_safe (snippet : option jsstring) (doc : TextDocument)
      (position : option Position) :
  isString (getText doc) ->
  LlmClient.findPositionByCodeSnippet snippet doc = LlmClient.Normal position ->
  safePosition position.
Proof.
  intros Hs H. destruct position as [p|]; [|exact I].
  apply findPosition_offset in H. destruct H as [offset [Ho [-> _]]].
  now apply positionAt_safe.
Qed.

Lemma resolved_safe (doc : TextDocument) (review : LlmClient.ReviewItem) :
  isString (getText doc) -> safePosition (resolved doc review).
Proof.
  intros Hs. apply (findPosition_safe (LlmClient.codeSnippet review) doc).
  - exact Hs.
  - apply findPosition_resolved.
Qed.

(** In a document whose text is a string, a readable entry is read back. *)
Lemma readableEntry_in_string (doc : TextDocument)
      (review : LlmClient.ReviewItem) :
  isString (getText doc) ->
  readable (LlmClient.severity review) (LlmClient.message review)
           (resolved doc review) ->
  readableEntry doc review.
Proof. intros Hs Hr. split; [exact Hr|now apply resolved_safe]. Qed.

Lemma resolved_in_document (doc : TextDocument) (review : LlmClient.ReviewItem) :
  match resolved doc review with
  | Some p => (Z.of_nat (line p) < lineCount doc)%Z
              /\ character p <= length (lineAt doc (Z.of_nat (line p)))
  | None => True
  end.
Proof.
  destruct (resolved doc review) as [p|] eqn:E; [|exact I].
  pose proof (findPosition_resolved doc review) as H. rewrite E in H.
  exact (findPosition_in_document _ _ _ H).
Qed.

Lemma mapM_Normal {A B} (f : A -> LlmClient.completion B) (g : A -> B)
      (l : list A) :
  (forall x, f x = LlmClient.Normal (g x)) ->
  LlmClient.mapM f l = LlmClient.Normal (map g l).
Proof.
  intros Hf. induction l as [|x l IH]; [reflexivity|].
  cbn [LlmClient.mapM map]. now rewrite Hf, IH.
Qed.

Lemma mapM_format (doc : TextDocument) (reviews : list LlmClient.ReviewItem) :
  LlmClient.mapM
    (fun review =>
       LlmClient.bind
         (LlmClient.findPositionByCodeSnippet (LlmClient.codeSnippet review) doc)
         (fun position =>
            let locationText :=
              match position with
              | Some position =>
                  js " [Ln "
                  ++ Number_toString (N.of_nat (line position + 1))
                  ++ js ", Col "
                  ++ Number_toString (N.of_nat (character position))
                  ++ js "]"
              | None => []
              end in
            LlmClient.Normal
              (js "[" ++ LlmClient.severity review ++ js "]"
               ++ LlmClient.message review ++ locationText)))
    reviews
  = LlmClient.Normal (map (lineOfEntry doc) reviews).
Proof.
  apply mapM_Normal. intros review. now rewrite findPosition_resolved.
Qed.

(** *** The line filter on a line that opens with a bracket *)

(** Of all the reasons for which the tree drops a line, only the markers
    apply to a line that opens with [\[]. *)
Lemma keepLine_bracket (X : jsstring) :
  keepLine (91%N :: X)
  = negb (existsb (fun w => includes w (91%N :: X)) markers).
Proof.
  assert (Ht : test lineLabelRegex (91%N :: X) = false).
  { unfold test, lineLabelRegex. rewrite exec_Bol. reflexivity. }
  unfold keepLine. rewrite Ht. cbn [length Nat.eqb].
  replace (startsWith (js "<think>") (91%N :: X)) with false by reflexivity.
  replace (startsWith (js "think ") (91%N :: X)) with false by reflexivity.
  replace (startsWith (js "Here are") (91%N :: X)) with false by reflexivity.
  replace (startsWith (js "#") (91%N :: X)) with false by reflexivity.
  replace (startsWith [0x4ee5; 0x4e0b; 0x306b]%N (91%N :: X))
    with false by reflexivity.
  replace (startsWith [0x30ec; 0x30d3; 0x30e5; 0x30fc; 0x7d50; 0x679c]%N
                      (91%N :: X)) with false by reflexivity.
  replace (startsWith [0x30b3; 0x30fc; 0x30c9; 0x30ec; 0x30d3; 0x30e5; 0x30fc]%N
                      (91%N :: X)) with false by reflexivity.
  replace (startsWith [0x6307; 0x6458; 0x4e8b; 0x9805]%N (91%N :: X))
    with false by reflexivity.
  unfold markers. cbn [existsb orb].
  destruct (includes (js "---") (91%N :: X)),
           (includes (js "===") (91%N :: X)),
           (includes (js "###") (91%N :: X)),
           (includes (js "```") (91%N :: X)); reflexivity.
Qed.

(** *** A text of several lines *)

Lemma search_thinkRegex_no_lt (i : nat) (t : jsstring) :
  ~ In 60%N t -> search thinkRegex i t = None.
Proof.
  change thinkRegex
    with (Seq (Seq (lit 60) (seq_of lit (js "think>")))
              (Seq (Star false any) (word "</think>"))).
  revert i. induction t as [|c t IH]; intros i Hn.
  - reflexivity.
  - cbn [search]. unfold match_at at 1, lit. cbn [m rest].
    replace (c =? 60)%N with false
      by (symmetry; apply N.eqb_neq; intros ->; apply Hn; now left).
    apply IH. intros Hin. apply Hn. now right.
Qed.

Lemma replace_all_thinkRegex_no_lt (f : jsstring -> jsstring) (t : jsstring) :
  ~ In 60%N t -> replace_all thinkRegex f t = t.
Proof.
  intros Hn. unfold replace_all. cbn [replace_all_from].
  now rewrite search_thinkRegex_no_lt.
Qed.

Lemma split_on_no_sep (sep : N) (l : jsstring) :
  ~ In sep l -> split_on sep l = [l].
Proof.
  induction l as [|c l IH]; intros Hn; [reflexivity|].
  cbn [split_on].
  replace (c =? sep)%N with false
    by (symmetry; apply N.eqb_neq; intros ->; apply Hn; now left).
  rewrite IH; [reflexivity|]. intros Hin. apply Hn. now right.
Qed.

Lemma split_on_app_sep (sep : N) (l R : jsstring) :
  ~ In sep l -> split_on sep (l ++ sep :: R) = l :: split_on sep R.
Proof.
  induction l as [|c l IH]; intros Hn.
  - cbn [app split_on]. now rewrite N.eqb_refl.
  - cbn [app split_on].
    replace (c =? sep)%N with false
      by (symmetry; apply N.eqb_neq; intros ->; apply Hn; now left).
    rewrite IH; [reflexivity|]. intros Hin. apply Hn. now right.
Qed.

(** Splitting on the separator undoes joining with it. *)
Lemma split_on_join (sep : N) (ls : list jsstring) :
  ls <> [] -> Forall (fun l => ~ In sep l) ls ->
  split_on sep (join [sep] ls) = ls.
Proof.
  intros Hne Hall. induction ls as [|l ls IH]; [congruence|].
  inversion Hall as [|? ? Hl Hall']; subst.
  destruct ls as [|l' ls].
  - cbn [join]. now apply split_on_no_sep.
  - change (join [sep] (l :: l' :: ls)) with (l ++ sep :: join [sep] (l' :: ls)).
    rewrite split_on_app_sep by assumption.
    rewrite IH; [reflexivity|discriminate|assumption].
Qed.

Lemma In_join (c : N) (sep : jsstring) (ls : list jsstring) :
  In c (join sep ls) -> In c sep \/ exists l, In l ls /\ In c l.
Proof.
  induction ls as [|l ls IH]; [intros []|].
  destruct ls as [|l' ls].
  - cbn [join]. intros H. right. exists l. split; [now left|assumption].
  - change (join sep (l :: l' :: ls)) with (l ++ sep ++ join sep (l' :: ls)).
    intros H. apply in_app_or in H. destruct H as [H|H].
    + right. exists l. split; [now left|assumption].
    + apply in_app_or in H. destruct H as [H|H]; [now left|].
      destruct (IH H) as [H'|[l0 [H1 H2]]]; [now left|].
      right. exists l0. split; [now right|assumption].
Qed.

Lemma plainText_In (l : jsstring) :
  plainText l = true -> ~ In 10%N l /\ ~ In 60%N l.
Proof.
  unfold plainText. rewrite forallb_forall. intros H.
  split; intros Hin; specialize (H _ Hin); discriminate H.
Qed.

(** The lines of a text whose lines are plain. *)
Lemma lines_of_plain_text (ls : list jsstring) (f : jsstring -> jsstring) :
  ls <> [] -> Forall (fun l => plainText l = true) ls ->
  replace_all thinkRegex f (join [10%N] ls) = join [10%N] ls
  /\ split_on 10 (join [10%N] ls) = ls.
Proof.
  intros Hne Hall. split.
  - apply replace_all_thinkRegex_no_lt. intros Hin.
    apply In_join in Hin. destruct Hin as [[H|[]]|[l [Hl Hin]]]; [discriminate|].
    rewrite Forall_forall in Hall. apply Hall in Hl.
    now apply plainText_In in Hl.
  - apply split_on_join; [assumption|].
    eapply Forall_impl; [|exact Hall]. intros l Hl.
    now apply plainText_In in Hl.
Qed.

(** *** All the entries of a payload *)

Lemma reviewText_payload (reviews : list LlmClient.ReviewItem)
      (doc : TextDocument) :
  LlmClient.formatFunctionCallResults (Some reviews) doc
  = LlmClient.Normal (join [10%N] (map (lineOfEntry doc) reviews))
  /\ LlmClient.reviewTextOfToolCall (Some reviews) doc
     = join [10%N] (map (lineOfEntry doc) reviews).
Proof.
  assert (H : LlmClient.formatFunctionCallResults (Some reviews) doc
              = LlmClient.Normal (join [10%N] (map (lineOfEntry doc) reviews))).
  { exact (f_equal
             (fun c => LlmClient.bind c
                         (fun formattedLines =>
                            LlmClient.Normal (join [10%N] formattedLines)))
             (mapM_format doc reviews)). }
  unfold LlmClient.reviewTextOfToolCall. rewrite H. now split.
Qed.

(** What the two passes make of the line of a readable entry. *)
Lemma entry_line_passes (doc : TextDocument) (review : LlmClient.ReviewItem) :
  readableEntry doc review ->
  let L := lineOfEntry doc review in
  plainText L = true
  /\ (0 <? length (trim L)) = true
  /\ keepLine (trim L) = shownInTree doc review
  /\ trim (replace_first bulletRegex (fun _ => []) (trim L)) = trim L
  /\ matchLine (trim L) = Some (findingOfEntry doc review)
  /\ map d_message (diagnosticsOfLine doc (trim L))
     = [trimEnd (LlmClient.message review)].
Proof.
  intros [Hr Hsafe] L.
  destruct (entry_facts _ _ _ Hr Hsafe) as [M [n [HL [Hp _]]]].
  pose proof (matchLine_entry _ _ _ Hr Hsafe) as Hm.
  pose proof (diagnosticsOfLine_entry doc _ _ _ Hr Hsafe
                (resolved_in_document doc review))
    as Hd.
  fold (lineOfEntry doc review) in HL, Hm, Hd. fold L in HL, Hm, Hd.
  unfold shownInTree. fold L.
  assert (Ht : trim L = 91%N :: LlmClient.severity review ++ 93%N :: trimEnd M)
    by (rewrite HL; apply trim_entry).
  split; [now rewrite HL|].
  split; [now rewrite Ht|].
  split; [rewrite Ht; apply keepLine_bracket|].
  split; [now rewrite Ht, replace_first_bullet_entry, trim_entry, trimEnd_idem|].
  split; [exact Hm|].
  apply (f_equal (map snd)) in Hd. rewrite map_map in Hd. exact Hd.
Qed.

Lemma filter_true {A} (p : A -> bool) (l : list A) :
  Forall (fun x => p x = true) l -> filter p l = l.
Proof.
  induction 1 as [|x l Hx Hl IH]; [reflexivity|].
  cbn [filter]. now rewrite Hx, IH.
Qed.

(** The lines the tree keeps of a payload of readable entries. *)
Lemma reviewLines_payload (doc : TextDocument)
      (reviews : list LlmClient.ReviewItem) :
  Forall (readableEntry doc) reviews ->
  reviewLines (join [10%N] (map (lineOfEntry doc) reviews))
  = map (fun review => trim (lineOfEntry doc review))
        (filter (shownInTree doc) reviews).
Proof.
  intros Hall. destruct reviews as [|r0 rs]; [reflexivity|].
  set (reviews := r0 :: rs) in *.
  assert (Hplain : Forall (fun l => plainText l = true)
                          (map (lineOfEntry doc) reviews)).
  { apply Forall_map. eapply Forall_impl; [|exact Hall].
    intros r Hr. now apply entry_line_passes in Hr. }
  unfold reviewLines.
  destruct (lines_of_plain_text (map (lineOfEntry doc) reviews) (fun _ => []))
    as [H1 H2]; [discriminate|assumption|].
  rewrite H1, H2. clear H1 H2 Hplain.
  induction Hall as [|r reviews' Hr Hall IH]; [reflexivity|].
  apply entry_line_passes in Hr. cbv zeta in Hr.
  destruct Hr as [_ [_ [Hk [Hb _]]]].
  cbn [map filter]. rewrite Hk.
  destruct (shownInTree doc r); cbn [map]; [|exact IH].
  now rewrite Hb, IH.
Qed.

Lemma diagnosticLines_payload (doc : TextDocument)
      (reviews : list LlmClient.ReviewItem) :
  Forall (readableEntry doc) reviews ->
  filter (fun line => 0 <? length line)
         (map trim (split_on 10 (join [10%N] (map (lineOfEntry doc) reviews))))
  = map (fun review => trim (lineOfEntry doc review)) reviews.
Proof.
  intros Hall. destruct reviews as [|r0 rs]; [reflexivity|].
  set (reviews := r0 :: rs) in *.
  assert (Hplain : Forall (fun l => plainText l = true)
                          (map (lineOfEntry doc) reviews)).
  { apply Forall_map. eapply Forall_impl; [|exact Hall].
    intros r Hr. now apply entry_line_passes in Hr. }
  destruct (lines_of_plain_text (map (lineOfEntry doc) reviews) (fun _ => []))
    as [_ H2]; [discriminate|assumption|].
  rewrite H2, map_map. apply filter_true.
  apply Forall_map. eapply Forall_impl; [|exact Hall].
  intros r Hr. now apply entry_line_passes in Hr.
Qed.

Lemma matchedOf_payload (doc : TextDocument)
      (reviews : list LlmClient.ReviewItem) :
  Forall (readableEntry doc) reviews ->
  matchedOf (map (fun review => trim (lineOfEntry doc review)) reviews)
  = map (findingOfEntry doc) reviews.
Proof.
  induction 1 as [|r reviews Hr Hall IH]; [reflexivity|].
  apply entry_line_passes in Hr. cbv zeta in Hr.
  destruct Hr as [_ [_ [_ [_ [Hm _]]]]].
  cbn [map]. unfold matchedOf in *. cbn [flat_map]. rewrite Hm.
  cbn [app]. now rewrite IH.
Qed.

Lemma Forall_filter {A} (P : A -> Prop) (p : A -> bool) (l : list A) :
  Forall P l -> Forall P (filter p l).
Proof.
  induction 1 as [|x l Hx Hl IH]; [constructor|].
  cbn [filter]. destruct (p x); [now constructor|assumption].
Qed.

(** X17: the round trip of a payload.  For entries that are readable (a
    severity of the enumeration, a readable message, and a message that
    does not end with [\]] where no location is printed; a location, where
    one is printed, has line and column below 2^53, as in any document, so
    that [parseInt] reads them back as they are), the tree shows
    the entries whose line holds none of the markers [---], [===], [###]
    and the code fence: each as the finding it stands for, duplicates of
    one key dropped after the first, sorted by line; an entry whose line
    holds a marker is not shown.  The diagnostics pass has no such filter
    and no deduplication: it gives one diagnostic for every entry, in the
    order of the payload. *)
Theorem structured_payload_round_trip
        (doc : TextDocument) (reviews : list LlmClient.ReviewItem) :
  Forall (readableEntry doc) reviews ->
  let text := LlmClient.reviewTextOfToolCall (Some reviews) doc in
  let shown :=
    Array_sort compareFindings
      (firstByKey [] (map (findingOfEntry doc)
                          (filter (shownInTree doc) reviews))) in
  parseStructuredFindings (Some reviews) doc = shown
  /\ parseStructured (Some reviews) doc
     = map (itemOf (Some (uriOf doc))) shown
  /\ map d_message (updateDiagnostics doc text)
     = map (fun review => trimEnd (LlmClient.message review)) reviews.
Proof.
  intros Hall text shown.
  assert (Htext : text = join [10%N] (map (lineOfEntry doc) reviews))
    by apply reviewText_payload.
  assert (Hfind : parseFindings text = shown).
  { unfold parseFindings. rewrite Htext, (reviewLines_payload _ _ Hall).
    rewrite collectFindings_firstByKey. cbn [app].
    now rewrite matchedOf_payload by now apply Forall_filter. }
  split; [exact Hfind|].
  split.
  { unfold parseStructured. fold text.
    now rewrite _parseReviewItems_findings, Hfind. }
  rewrite updateDiagnostics_lines, Htext, (diagnosticLines_payload _ _ Hall).
  clear Htext Hfind. induction Hall as [|r reviews' Hr Hall IH]; [reflexivity|].
  apply entry_line_passes in Hr. cbv zeta in Hr.
  destruct Hr as [_ [_ [_ [_ [_ Hd]]]]].
  cbn [map flat_map]. rewrite map_app, Hd. cbn [app]. now rewrite IH.
Qed.

(** *** The formatter on arguments that nothing has checked *)

Lemma mapM_first_error {A B} (f : A -> LlmClient.completion B)
      (err : A -> option jsstring) (g : A -> B) (l : list A) :
  (forall x, f x = match err x with
                   | Some e => LlmClient.Throw e
                   | None => LlmClient.Normal (g x)
                   end) ->
  LlmClient.mapM f l
  = match LlmClient.first_some err l with
    | Some e => LlmClient.Throw e
    | None => LlmClient.Normal (map g l)
    end.
Proof.
  intros H. induction l as [|x l IH]; [reflexivity|].
  cbn [LlmClient.mapM LlmClient.first_some map]. rewrite H.
  destruct (err x) as [e|]; [reflexivity|].
  cbn [LlmClient.bind]. rewrite IH.
  now destruct (LlmClient.first_some err l).
Qed.

Lemma asReview_ofReview (reviews : list LlmClient.ReviewItem) :
  map Untyped.asReview (map Untyped.ofReview reviews) = reviews
  /\ LlmClient.first_some Untyped.typeErrorOf (map Untyped.ofReview reviews)
     = None.
Proof.
  induction reviews as [|[sev msg [s|]] reviews [IH1 IH2]]; [now split|..];
    cbn [map LlmClient.first_some Untyped.typeErrorOf Untyped.ofReview
         Untyped.asReview Untyped.toString Untyped.undefined
         Untyped.unprintable Untyped.printedText
         LlmClient.severity LlmClient.message LlmClient.codeSnippet];
    now rewrite IH1, IH2.
Qed.

(** X16: the formatter on the arguments as [JSON.parse] returns them.  It
    throws a [TypeError] when the value is [null], when an entry of the
    [reviews] array is [null], when the [codeSnippet] of an entry is
    truthy and not a string, and when a severity or message cannot be
    converted to a string; the error is that of the first such entry,
    the [try] block of the caller catches it, and the review text is then
    the fixed one: the other entries are lost with it.  On any other
    payload it does not throw, and its text is the one the formatter
    gives for the entries read as strings: one line per entry, in payload
    order, with severity and message as a template literal prints them and
    the location where a string snippet is found.  On entries that are as
    the schema says, that is the text of the typed formatter. *)
Theorem formatFunctionCallResults_unchecked
        (reviews : list Untyped.Entry) (doc : TextDocument) :
  Untyped.formatFunctionCallResults (Untyped.Reviews reviews) doc
  = match LlmClient.first_some Untyped.typeErrorOf reviews with
    | Some error => LlmClient.Throw error
    | None =>
        LlmClient.formatFunctionCallResults
          (Some (map Untyped.asReview reviews)) doc
    end
  /\ Untyped.reviewTextOfToolCall (Untyped.Reviews reviews) doc
     = match LlmClient.first_some Untyped.typeErrorOf reviews with
       | Some _ => LlmClient.noReviewText
       | None =>
           join [10%N] (map (lineOfEntry doc) (map Untyped.asReview reviews))
       end
  /\ Untyped.reviewTextOfToolCall Untyped.ResultNull doc
     = LlmClient.noReviewText
  /\ Untyped.reviewTextOfToolCall Untyped.NoReviews doc
     = LlmClient.noReviewText
  /\ (forall typed : list LlmClient.ReviewItem,
        Untyped.formatFunctionCallResults
          (Untyped.Reviews (map Untyped.ofReview typed)) doc
        = LlmClient.formatFunctionCallResults (Some typed) doc
        /\ LlmClient.formatFunctionCallResults (Some typed) doc
           = LlmClient.Normal (join [10%N] (map (lineOfEntry doc) typed))).
Proof.
  assert (H : forall entries,
            Untyped.formatFunctionCallResults (Untyped.Reviews entries) doc
            = match LlmClient.first_some Untyped.typeErrorOf entries with
              | Some error => LlmClient.Throw error
              | None =>
                  LlmClient.Normal
                    (join [10%N]
                          (map (lineOfEntry doc) (map Untyped.asReview entries)))
              end).
  { intros entries. unfold Untyped.formatFunctionCallResults.
    rewrite (mapM_first_error _ Untyped.typeErrorOf
               (fun review => lineOfEntry doc (Untyped.asReview review))).
    - rewrite map_map.
      now destruct (LlmClient.first_some Untyped.typeErrorOf entries).
    - intros [|sev msg [s|[|] p]]; cbn [Untyped.typeErrorOf]; try reflexivity.
      + cbn [Untyped.findPositionByCodeSnippet Untyped.asReview].
        pose proof (findPosition_resolved doc
                      (LlmClient.mkReview (Untyped.printedText sev)
                                          (Untyped.printedText msg) (Some s)))
          as Hf.
        cbn [LlmClient.codeSnippet] in Hf. rewrite Hf. cbn [LlmClient.bind].
        unfold Untyped.unprintable, Untyped.printedText.
        destruct (Untyped.toString sev); [|reflexivity].
        destruct (Untyped.toString msg); reflexivity.
      + cbn [Untyped.findPositionByCodeSnippet Untyped.asReview LlmClient.bind].
        unfold Untyped.unprintable, Untyped.printedText.
        destruct (Untyped.toString sev); [|reflexivity].
        destruct (Untyped.toString msg); reflexivity. }
  split; [|split; [|split; [|split]]].
  - rewrite H. destruct (LlmClient.first_some _ reviews); [reflexivity|].
    symmetry. apply reviewText_payload.
  - unfold Untyped.reviewTextOfToolCall. rewrite H.
    now destruct (LlmClient.first_some _ reviews).
  - reflexivity.
  - reflexivity.
  - intros typed. destruct (asReview_ofReview typed) as [H1 H2].
    rewrite H, H2, H1. split; [symmetry|]; apply reviewText_payload.
Qed.
(** A number as [codeSnippet] loses the whole payload; [null] as severity
    is printed as the word, and the line then matches nothing. *)
Lemma unchecked_payload_examples (doc : TextDocument) :
  let good := Untyped.Object (Untyped.Str (js "ERROR")) (Untyped.Str (js "m"))
                             Untyped.undefined in
  let number := Untyped.NotString true (Some (js "5")) in
  let null := Untyped.NotString false (Some (js "null")) in
  Untyped.reviewTextOfToolCall
    (Untyped.Reviews
       [good; Untyped.Object (Untyped.Str (js "ERROR")) (Untyped.Str (js "n"))
                             number]) doc
  = LlmClient.noReviewText
  /\ Untyped.reviewTextOfToolCall
       (Untyped.Reviews [good; Untyped.Null]) doc
     = LlmClient.noReviewText
  /\ Untyped.reviewTextOfToolCall
       (Untyped.Reviews [Untyped.Object null (Untyped.Str (js "m")) null; good])
       doc
     = js "[null]m" ++ [10%N] ++ js "[ERROR]m".
Proof. cbv zeta. repeat split; vm_compute; reflexivity. Qed.

(** *** Entries with a severity outside the enumeration *)

Lemma Number_toString_plain (n : N) : plainText (Number_toString n) = true.
Proof.
  apply plainText_not_In; intros H; apply Number_toString_units in H;
    destruct H as [H|H]; try discriminate;
    vm_compute in H; intuition discriminate.
Qed.

Lemma lineOfEntry_shape (doc : TextDocument) (review : LlmClient.ReviewItem) :
  oneLine review ->
  exists M, lineOfEntry doc review
            = 91%N :: LlmClient.severity review ++ 93%N :: M
            /\ plainText M = true.
Proof.
  intros [_ [Hm _]]. unfold lineOfEntry, entryLine.
  eexists. split; [reflexivity|].
  apply plainText_app; [exact Hm|].
  destruct (resolved doc review) as [p|]; [|reflexivity].
  repeat apply plainText_app; try reflexivity; apply Number_toString_plain.
Qed.

Lemma lineOfEntry_plain (doc : TextDocument) (review : LlmClient.ReviewItem) :
  oneLine review -> plainText (lineOfEntry doc review) = true.
Proof.
  intros Ho. destruct (lineOfEntry_shape doc review Ho) as [M [-> HM]].
  destruct Ho as [Hs _].
  change (91%N :: LlmClient.severity review ++ 93%N :: M)
    with ([91%N] ++ LlmClient.severity review ++ [93%N] ++ M).
  repeat apply plainText_app; auto.
Qed.

Lemma recognised_false (review : LlmClient.ReviewItem) :
  recognised review = false ->
  ~ In (toUpperCase (LlmClient.severity review)) severityTokens.
Proof.
  unfold recognised. intros H Hin.
  assert (existsb (jsstring_eqb (toUpperCase (LlmClient.severity review)))
                  severityTokens = true); [|congruence].
  apply existsb_exists. eexists. split; [exact Hin|apply jsstring_eqb_refl].
Qed.

(** The line of an entry with a severity outside the enumeration matches
    nothing, wherever its snippet is found. *)
Lemma lineOfEntry_unmatched (doc : TextDocument) (review : LlmClient.ReviewItem) :
  oneLine review -> recognised review = false ->
  matchedOf (reviewLines (lineOfEntry doc review)) = []
  /\ diagnosticsOfLine doc (trim (lineOfEntry doc review)) = [].
Proof.
  intros Ho Hr. destruct (lineOfEntry_shape doc review Ho) as [M [-> HM]].
  destruct Ho as [Hs [_ H93]]. apply recognised_false in Hr.
  split; [now apply reviewLines_entry_unmatched|].
  rewrite trim_entry. unfold diagnosticsOfLine.
  pose proof (matchLine_untagged _
                (hasSeverityTag_entry (LlmClient.severity review)
                                      (trimEnd M) H93 Hr)) as Hm.
  unfold matchLine in Hm.
  now destruct (exec severityRegex _) as [[j e]|].
Qed.

(** The lines of a text of plain lines are read one by one. *)
Lemma matchedOf_lines (ls : list jsstring) :
  Forall (fun l => plainText l = true) ls ->
  matchedOf (reviewLines (join [10%N] ls))
  = flat_map (fun l => matchedOf (reviewLines l)) ls.
Proof.
  intros Hall. destruct ls as [|l0 ls0]; [reflexivity|].
  set (ls := l0 :: ls0) in *.
  unfold reviewLines at 1.
  destruct (lines_of_plain_text ls (fun _ => [])) as [H1 H2];
    [discriminate|assumption|].
  rewrite H1, H2. clear H1 H2.
  induction Hall as [|l ls' Hl Hall IH]; [reflexivity|].
  cbn [flat_map]. rewrite <- IH. unfold reviewLines.
  rewrite (replace_all_thinkRegex_plain _ _ Hl), (split_on_plain _ Hl).
  cbn [map filter]. destruct (keepLine (trim l)); [|reflexivity].
  cbn [map]. unfold matchedOf. cbn [flat_map]. now rewrite app_nil_r.
Qed.

Lemma diagnostics_lines (doc : TextDocument) (ls : list jsstring) :
  Forall (fun l => plainText l = true) ls ->
  updateDiagnostics doc (join [10%N] ls)
  = flat_map (fun l => if 0 <? length (trim l)
                       then diagnosticsOfLine doc (trim l) else []) ls.
Proof.
  intros Hall. rewrite updateDiagnostics_lines.
  destruct ls as [|l0 ls0]; [reflexivity|].
  set (ls := l0 :: ls0) in *.
  destruct (lines_of_plain_text ls (fun _ => [])) as [_ H2];
    [discriminate|assumption|].
  rewrite H2. clear H2 Hall.
  induction ls as [|l ls' IH]; [reflexivity|].
  cbn [map filter flat_map]. rewrite <- IH.
  now destruct (0 <? length (trim l)).
Qed.

Lemma flat_map_filter_nil {A B} (p : A -> bool) (h : A -> list B)
      (l : list A) :
  Forall (fun x => p x = false -> h x = []) l ->
  flat_map h l = flat_map h (filter p l).
Proof.
  induction 1 as [|x l Hx Hl IH]; [reflexivity|].
  cbn [flat_map filter]. destruct (p x) eqn:E.
  - cbn [flat_map]. now rewrite IH.
  - now rewrite (Hx eq_refl), IH.
Qed.

(** The findings, items and diagnostics of a payload of one-line entries
    are those of its entries with a severity of the enumeration. *)
Lemma unrecognised_entries_dropped (doc : TextDocument)
      (reviews : list LlmClient.ReviewItem) :
  Forall oneLine reviews ->
  parseStructuredFindings (Some reviews) doc
  = parseStructuredFindings (Some (filter recognised reviews)) doc
  /\ parseStructured (Some reviews) doc
     = parseStructured (Some (filter recognised reviews)) doc
  /\ updateDiagnostics doc (LlmClient.reviewTextOfToolCall (Some reviews) doc)
     = updateDiagnostics doc
         (LlmClient.reviewTextOfToolCall
            (Some (filter recognised reviews)) doc).
Proof.
  intros Hall.
  assert (Hplain : forall rs, Forall oneLine rs ->
            Forall (fun l => plainText l = true) (map (lineOfEntry doc) rs)).
  { intros rs Hrs. apply Forall_map. eapply Forall_impl; [|exact Hrs].
    intros r. apply lineOfEntry_plain. }
  assert (Hsub : Forall oneLine (filter recognised reviews))
    by now apply Forall_filter.
  assert (Hfind : parseStructuredFindings (Some reviews) doc
                  = parseStructuredFindings
                      (Some (filter recognised reviews)) doc).
  { unfold parseStructuredFindings, parseFindings.
    rewrite !(proj2 (reviewText_payload _ doc)).
    rewrite !collectFindings_firstByKey. cbn [app].
    rewrite !matchedOf_lines by now apply Hplain.
    rewrite !flat_map_concat_map, !map_map, <- !flat_map_concat_map.
    rewrite (flat_map_filter_nil recognised); [reflexivity|].
    eapply Forall_impl; [|exact Hall]. intros r Ho Hr.
    now apply lineOfEntry_unmatched. }
  split; [exact Hfind|]. split.
  - unfold parseStructured. rewrite !_parseReviewItems_findings.
    unfold parseStructuredFindings in Hfind. now rewrite Hfind.
  - rewrite !(proj2 (reviewText_payload _ doc)).
    rewrite !diagnostics_lines by now apply Hplain.
    rewrite !flat_map_concat_map, !map_map, <- !flat_map_concat_map.
    apply (flat_map_filter_nil recognised).
    eapply Forall_impl; [|exact Hall]. intros r Ho Hr.
    destruct (lineOfEntry_unmatched doc r Ho Hr) as [_ ->].
    now destruct (0 <? length (trim (lineOfEntry doc r))).
Qed.

(** C6, as the code has it: a line whose bracketed token is not ERROR,
    WARNING, INFO or HINT (in any letter case) matches nothing and yields no
    finding, as freeform text and as a structured entry alike.  The
    structured path formats every entry as a line "[severity]message", with
    the location after it where the snippet is found, and hands the text to
    the same parser: an entry with such a token, whatever its snippet, gives
    no finding, no item and no diagnostic, alone and in any payload, whose
    findings, items and diagnostics are those of its entries with a token
    of the enumeration.  The severity of a finding is always the one its
    tag names; none is given by default.  (The entries are one line of
    plain text each: no line feed and no [<] in token and message, no [\]]
    in the token.) *)
Theorem C6_unrecognized_severity_dropped
        (tok msg : jsstring) (doc : TextDocument)
        (reviews : list LlmClient.ReviewItem) :
  plainText tok = true -> plainText msg = true ->
  ~ In 93%N tok -> ~ In (toUpperCase tok) severityTokens ->
  Forall oneLine reviews ->
  let line := js "[" ++ tok ++ js "]" ++ msg in
  matchLine line = None
  /\ parseFindings line = []
  /\ _parseReviewItems line (Some (uriOf doc)) = []
  /\ LlmClient.reviewTextOfToolCall
       (Some [LlmClient.mkReview tok msg None]) doc = line
  /\ (forall snippet,
        let entry := LlmClient.mkReview tok msg snippet in
        parseStructuredFindings (Some [entry]) doc = []
        /\ parseStructured (Some [entry]) doc = []
        /\ updateDiagnostics
             doc (LlmClient.reviewTextOfToolCall (Some [entry]) doc) = [])
  /\ parseStructuredFindings (Some reviews) doc
     = parseStructuredFindings (Some (filter recognised reviews)) doc
  /\ parseStructured (Some reviews) doc
     = parseStructured (Some (filter recognised reviews)) doc
  /\ updateDiagnostics doc (LlmClient.reviewTextOfToolCall (Some reviews) doc)
     = updateDiagnostics doc
         (LlmClient.reviewTextOfToolCall
            (Some (filter recognised reviews)) doc)
  /\ (forall l f, matchLine l = Some f ->
        exists t, In t severityTokens
                  /\ startsWith_i (tagOf t) l = true
                  /\ f_severity f = severityOfToken t).
Proof.
  intros Ht Hm Hn Htok Hall. cbv zeta.
  change (js "[" ++ tok ++ js "]" ++ msg) with (91%N :: tok ++ 93%N :: msg).
  assert (Hf : parseFindings (91%N :: tok ++ 93%N :: msg) = []).
  { unfold parseFindings. rewrite collectFindings_firstByKey.
    now rewrite reviewLines_entry_unmatched. }
  split; [now apply matchLine_untagged, hasSeverityTag_entry|].
  split; [exact Hf|].
  split; [now rewrite _parseReviewItems_findings, Hf|].
  split.
  { unfold LlmClient.reviewTextOfToolCall, LlmClient.formatFunctionCallResults.
    cbn. now rewrite app_nil_r. }
  split.
  { intros snippet.
    assert (Ho : Forall oneLine [LlmClient.mkReview tok msg snippet])
      by (constructor; [repeat split; assumption|constructor]).
    assert (Hr : filter recognised [LlmClient.mkReview tok msg snippet] = []).
    { cbn [filter]. unfold recognised. cbn [LlmClient.severity].
      destruct (existsb _ severityTokens) eqn:E; [|reflexivity].
      exfalso. apply Htok. apply existsb_exists in E.
      destruct E as [t [Hin E]]. apply jsstring_eqb_eq in E. now rewrite E. }
    destruct (unrecognised_entries_dropped doc _ Ho) as [H1 [H2 H3]].
    rewrite H1, H2, H3, Hr. repeat split; reflexivity. }
  destruct (unrecognised_entries_dropped doc reviews Hall) as [H1 [H2 H3]].
  split; [exact H1|]. split; [exact H2|]. split; [exact H3|].
  apply matchLine_tag.
Qed.

Lemma C6_unrecognized_severity_dropped_witness :
  let doc := mkDoc (js "let y = 2" ++ [13%N; 10%N] ++ js "const x = 1;")
                   (js "file:///a.ts") in
  let dropped :=
    LlmClient.mkReview (js "CRITICAL") (js "m") (Some (js "const x")) in
  let kept := LlmClient.mkReview (js "error") (js "e") (Some (js "let y")) in
  parseFindings (js "[CRITICAL]m") = []
  /\ parseStructuredFindings (Some [dropped]) doc = []
  /\ LlmClient.reviewTextOfToolCall (Some [dropped; kept; dropped]) doc
     = js "[CRITICAL]m [Ln 2, Col 0]" ++ [10%N]
       ++ js "[error]e [Ln 1, Col 0]" ++ [10%N]
       ++ js "[CRITICAL]m [Ln 2, Col 0]"
  /\ parseStructuredFindings (Some [dropped; kept; dropped]) doc
     = parseStructuredFindings (Some [kept]) doc
  /\ parseStructuredFindings (Some [kept]) doc
     = [mkFinding Error (js "e") (Some 1%N) (Some 0%N)].
Proof.
  pose proof (C6_unrecognized_severity_dropped
                (js "CRITICAL") (js "m")
                (mkDoc (js "let y = 2" ++ [13%N; 10%N] ++ js "const x = 1;")
                       (js "file:///a.ts"))
                [LlmClient.mkReview (js "CRITICAL") (js "m") (Some (js "const x"));
                 LlmClient.mkReview (js "error") (js "e") (Some (js "let y"));
                 LlmClient.mkReview (js "CRITICAL") (js "m") (Some (js "const x"))]
                eq_refl eq_refl) as H.
  cbv zeta in H.
  destruct H as [_ [H2 [_ [_ [H5 [H6 _]]]]]].
  - vm_compute. intuition discriminate.
  - vm_compute. intuition discriminate.
  - repeat constructor; vm_compute; intuition discriminate.
  - split; [exact H2|]. split; [exact (proj1 (H5 (Some (js "const x"))))|].
    split; [vm_compute; reflexivity|].
    split; [exact H6|vm_compute; reflexivity].
Defined.

(** *** A payload of one entry *)

Lemma single_entry (doc : TextDocument) (sev msg : jsstring)
      (snippet : option jsstring) (position : option Position) :
  readable sev msg position ->
  safePosition position ->
  LlmClient.findPositionByCodeSnippet snippet doc = LlmClient.Normal position ->
  keepLine (trim (entryLine sev msg position)) = true ->
  let entry := LlmClient.mkReview sev msg snippet in
  let text := LlmClient.reviewTextOfToolCall (Some [entry]) doc in
  text = entryLine sev msg position
  /\ parseFindings text = [findingOf sev msg position]
  /\ updateDiagnostics doc text
     = diagnosticsOfLine doc (trim (entryLine sev msg position)).
Proof.
  intros Hr Hsafe Hpos Hkeep entry text.
  assert (Hres : resolved doc entry = position).
  { unfold resolved. cbn [LlmClient.codeSnippet entry]. now rewrite Hpos. }
  assert (Htext : text = entryLine sev msg position).
  { unfold text. rewrite (proj2 (reviewText_payload [entry] doc)).
    cbn [map join]. unfold lineOfEntry. now rewrite Hres. }
  destruct (entry_facts sev msg position Hr Hsafe) as [M [n [HL [Hp _]]]].
  pose proof (matchLine_entry sev msg position Hr Hsafe) as Hm.
  rewrite HL in Hkeep, Hm. rewrite trim_entry in Hm.
  split; [exact Htext|]. rewrite Htext, HL. split.
  - now apply parseFindings_entry.
  - rewrite updateDiagnostics_lines, (diagnosticLines_entry _ _ Hp), trim_entry.
    cbn [flat_map]. apply app_nil_r.
Qed.

(** X14: the round trip of a located entry, in a document whose text is a
    string (shorter than 2^53 code units).  For an entry whose severity
    is one of the four tokens, whose message is readable and whose snippet
    the resolver finds at position [p], the text the client prints is one
    line, the parser reads back one finding with that severity, the message
    without trailing whitespace, line [line p + 1] and column [character p];
    the tree item jumps to [p], and the diagnostic starts at [p] and runs to
    the end of that line of the document, its line break excluded. *)
Theorem structured_entry_located
        (doc : TextDocument) (sev msg : jsstring) (snippet : option jsstring)
        (p : Position) :
  isString (getText doc) ->
  In sev severityTokens ->
  readableMessage msg = true ->
  LlmClient.findPositionByCodeSnippet snippet doc = LlmClient.Normal (Some p) ->
  keepLine (trim (entryLine sev msg (Some p))) = true ->
  let entry := LlmClient.mkReview sev msg snippet in
  let text := LlmClient.reviewTextOfToolCall (Some [entry]) doc in
  text = entryLine sev msg (Some p)
  /\ parseStructuredFindings (Some [entry]) doc
     = [mkFinding (severityOfToken sev) (trimEnd msg)
                  (Some (N.of_nat (line p + 1)))
                  (Some (N.of_nat (character p)))]
  /\ map positionOf (parseStructured (Some [entry]) doc)
     = [Some (Z.of_nat (line p), Z.of_nat (character p))]
  /\ map (fun d => (range d, d_message d)) (updateDiagnostics doc text)
     = [(mkRange (Z.of_nat (line p)) (Z.of_nat (character p))
                 (Z.of_nat (line p))
                 (Z.of_nat (length (lineAt doc (Z.of_nat (line p))))),
         trimEnd msg)].
Proof.
  intros Hs Hin Hmsg Hpos Hkeep entry text.
  assert (Hr : readable sev msg (Some p))
    by (split; [assumption|split; [assumption|discriminate]]).
  pose proof (findPosition_safe _ _ _ Hs Hpos) as Hsafe.
  destruct (single_entry doc sev msg snippet (Some p) Hr Hsafe Hpos Hkeep)
    as [Htext [Hfind Hdiag]].
  fold entry text in Htext, Hfind, Hdiag.
  split; [exact Htext|]. split; [exact Hfind|]. split.
  - unfold parseStructured. fold text.
    rewrite _parseReviewItems_findings, Hfind.
    cbn [map itemOf new_ReviewItem positionOf command option_map findingOf
         f_lineNumber f_colNumber f_severity start_line start_character].
    destruct Hsafe as [Hs1 _].
    replace (if (0 <? N.of_nat (line p + 1))%N
             then minus1 (N.of_nat (line p + 1)) else 0%Z)
      with (Z.of_nat (line p))
      by (rewrite minus1_small by exact Hs1;
          destruct (0 <? N.of_nat (line p + 1))%N eqn:E;
          [lia|apply N.ltb_ge in E; lia]).
    now rewrite nat_N_Z.
  - rewrite Hdiag.
    apply (diagnosticsOfLine_entry doc sev msg (Some p) Hr Hsafe).
    exact (findPosition_in_document _ _ _ Hpos).
Qed.

Lemma structured_entry_located_witness :
  let doc := mkDoc (js "let y = 2" ++ [10%N] ++ js "const x = 1;")
                   (js "file:///a.ts") in
  let entry := LlmClient.mkReview (js "WARNING") (js "unused variable  ")
                                  (Some (js "const   x")) in
  parseStructuredFindings (Some [entry]) doc
  = [mkFinding Warning (js "unused variable") (Some 2%N) (Some 0%N)]
  /\ map positionOf (parseStructured (Some [entry]) doc) = [Some (1%Z, 0%Z)].
Proof.
  pose proof (structured_entry_located
                (mkDoc (js "let y = 2" ++ [10%N] ++ js "const x = 1;")
                       (js "file:///a.ts"))
                (js "WARNING") (js "unused variable  ")
                (Some (js "const   x")) (mkPosition 1 0)
                ltac:(vm_compute; reflexivity)
                (or_intror (or_introl eq_refl)) eq_refl eq_refl eq_refl) as H.
  cbv zeta in H. destruct H as [_ [H1 [H2 _]]].
  split; [exact H1|exact H2].
Defined.

(** X15: the round trip of an entry without a position.  When the resolver
    finds no position for the snippet (or there is none), and the message
    does not end with [\]], the parser reads back one finding with the
    severity and the message without trailing whitespace and with neither
    line nor column; the tree item has no jump target, and the diagnostic
    covers the first line of the document. *)
Theorem structured_entry_unlocated
        (doc : TextDocument) (sev msg : jsstring) (snippet : option jsstring) :
  In sev severityTokens ->
  readableMessage msg = true ->
  last (trimEnd msg) 0%N <> 93%N ->
  LlmClient.findPositionByCodeSnippet snippet doc = LlmClient.Normal None ->
  keepLine (trim (entryLine sev msg None)) = true ->
  let entry := LlmClient.mkReview sev msg snippet in
  let text := LlmClient.reviewTextOfToolCall (Some [entry]) doc in
  text = entryLine sev msg None
  /\ parseStructuredFindings (Some [entry]) doc
     = [mkFinding (severityOfToken sev) (trimEnd msg) None None]
  /\ map positionOf (parseStructured (Some [entry]) doc) = [None]
  /\ map (fun d => (range d, d_message d)) (updateDiagnostics doc text)
     = [(mkRange 0 0 0 (Z.of_nat (length (lineAt doc 0))), trimEnd msg)].
Proof.
  intros Hin Hmsg Hlast Hpos Hkeep entry text.
  assert (Hr : readable sev msg None)
    by (split; [assumption|split; [assumption|intros _; assumption]]).
  destruct (single_entry doc sev msg snippet None Hr I Hpos Hkeep)
    as [Htext [Hfind Hdiag]].
  fold entry text in Htext, Hfind, Hdiag.
  split; [exact Htext|]. split; [exact Hfind|]. split.
  - unfold parseStructured. fold text.
    now rewrite _parseReviewItems_findings, Hfind.
  - rewrite Hdiag. now apply (diagnosticsOfLine_entry doc sev msg None Hr I).
Qed.

Lemma structured_entry_unlocated_witness :
  let doc := mkDoc (js "let y = 2" ++ [10%N] ++ js "const x = 1;")
                   (js "file:///a.ts") in
  let entry := LlmClient.mkReview (js "HINT") (js "rename variable x")
                                  (Some (js "var z")) in
  parseStructuredFindings (Some [entry]) doc
  = [mkFinding Hint (js "rename variable x") None None]
  /\ map positionOf (parseStructured (Some [entry]) doc) = [None].
Proof.
  pose proof (structured_entry_unlocated
                (mkDoc (js "let y = 2" ++ [10%N] ++ js "const x = 1;")
                       (js "file:///a.ts"))
                (js "HINT") (js "rename variable x") (Some (js "var z"))
                (or_intror (or_intror (or_intror (or_introl eq_refl))))
                eq_refl ltac:(vm_compute; discriminate) eq_refl eq_refl) as H.
  cbv zeta in H. destruct H as [_ [H1 [H2 _]]].
  split; [exact H1|exact H2].
Defined.

Lemma structured_payload_round_trip_witness :
  let doc := mkDoc (js "let y = 2" ++ [10%N] ++ js "const x = 1;")
                   (js "file:///a.ts") in
  let reviews :=
    [LlmClient.mkReview (js "ERROR") (js "use === here") (Some (js "const   x"));
     LlmClient.mkReview (js "HINT") (js "rename y") (Some (js "let y"));
     LlmClient.mkReview (js "HINT") (js "rename y") (Some (js "let y"))] in
  parseStructuredFindings (Some reviews) doc
  = [mkFinding Hint (js "rename y") (Some 1%N) (Some 0%N)]
  /\ map d_message
         (updateDiagnostics doc (LlmClient.reviewTextOfToolCall (Some reviews) doc))
     = [js "use === here"; js "rename y"; js "rename y"].
Proof.
  pose proof (structured_payload_round_trip
                (mkDoc (js "let y = 2" ++ [10%N] ++ js "const x = 1;")
                       (js "file:///a.ts"))
                [LlmClient.mkReview (js "ERROR") (js "use === here")
                                    (Some (js "const   x"));
                 LlmClient.mkReview (js "HINT") (js "rename y") (Some (js "let y"));
                 LlmClient.mkReview (js "HINT") (js "rename y") (Some (js "let y"))])
    as H.
  cbv zeta in H.
  destruct H as [H1 [_ H3]].
  { repeat constructor; try (vm_compute; tauto); vm_compute; discriminate. }
  split; [exact H1|exact H3].
Defined.

(** *** A bulleted line *)

Lemma bullet_solid (b : N) :
  isBullet b = true -> isWhiteSpace b = false ->
  b <> 91%N /\ b <> 60%N /\ b <> 10%N.
Proof.
  unfold isBullet. intros Hb Hw. rewrite Hw in Hb. cbn [orb] in Hb.
  rewrite !orb_true_iff, !N.eqb_eq in Hb.
  repeat split; intros ->; intuition discriminate.
Qed.

(** The bullet pattern takes the bullet and the whitespace after it. *)
Lemma replace_first_bullet (f : jsstring -> jsstring) (b : N)
      (gap R : jsstring) :
  isBullet b = true -> forallb isWhiteSpace gap = true ->
  replace_first bulletRegex f (b :: gap ++ 91%N :: R)
  = f (b :: gap) ++ 91%N :: R.
Proof.
  intros Hb Hgap.
  assert (H : match_at bulletRegex 0 (b :: gap ++ 91%N :: R)
              = Some (MState (1 + length gap) (91%N :: R) [])).
  { unfold match_at, bulletRegex. rewrite m_Seq, m_Bol_start, m_Seq.
    apply m_Chr_take; [assumption|].
    now apply (m_Star_greedy isWhiteSpace). }
  unfold replace_first, exec. cbn [search]. rewrite H.
  cbn [pos rest skipn].
  replace (1 + length gap - 0) with (S (length gap)) by lia.
  cbn [firstn app].
  now rewrite firstn_app, Nat.sub_diag, firstn_all, app_nil_r.
Qed.

Lemma exec_severityRegex_not_bracket (c : N) (t : jsstring) :
  c <> 91%N -> exec severityRegex (c :: t) = None.
Proof.
  intros Hc. rewrite severityRegex_parts, exec_Bol.
  unfold match_at. rewrite m_Seq, m_Bol_start, m_Seq.
  unfold lit_i at 1. rewrite m_Chr_refuse; [reflexivity|].
  destruct (upperAscii c =? upperAscii 91)%N eqn:E; [|reflexivity].
  apply N.eqb_eq in E. apply upperAscii_outside in E; [|right; reflexivity].
  now apply Hc in E.
Qed.

(** X18: a bulleted finding reaches the tree only.  When the review text
    is a bullet ([-], [*], [+] or a dot), whitespace, and then a tagged line
    with a readable message and, if any, a location whose line and column
    are below 2^53, the tree strips the bullet and shows the finding, while
    the diagnostics pass, which strips nothing, finds no match on the line
    and reports nothing. *)
Theorem bulleted_finding_tree_only
        (doc : TextDocument) (b : N) (gap sev sep msg : jsstring)
        (position : option Position) :
  isBullet b = true -> isWhiteSpace b = false ->
  forallb isWhiteSpace gap = true -> ~ In 10%N gap ->
  separator sep = true ->
  readable sev msg position ->
  safePosition position ->
  let text := b :: gap ++ taggedLine sev sep msg position in
  keepLine (trim text) = true ->
  parseFindings text = [findingOf sev msg position]
  /\ map positionOf (_parseReviewItems text (Some (uriOf doc)))
     = [option_map (fun p => (Z.of_nat (line p), Z.of_nat (character p)))
                   position]
  /\ updateDiagnostics doc text = [].
Proof.
  intros Hb Hw Hgap Hgap10 Hsep Hr Hsafe text Hkeep.
  destruct (bullet_solid b Hb Hw) as [H91 [H60 H10]].
  destruct (tagged_facts sev sep msg position Hsep Hr Hsafe)
    as [M [n [HL [Hp _]]]].
  pose proof (matchLine_tagged sev sep msg position Hsep Hr Hsafe) as Hm.
  rewrite HL, trim_entry in Hm.
  assert (Htext : text = (b :: gap ++ 91%N :: sev) ++ 93%N :: M).
  { unfold text. rewrite HL. cbn [app]. now rewrite <- app_assoc. }
  assert (Htrim : trim text = b :: gap ++ 91%N :: sev ++ 93%N :: trimEnd M).
  { rewrite Htext. unfold trim. cbn [app]. rewrite (trimStart_solid _ _ Hw).
    change (b :: (gap ++ 91%N :: sev) ++ 93%N :: M)
      with ((b :: gap ++ 91%N :: sev) ++ 93%N :: M).
    rewrite (trimEnd_app_solid _ M 93 eq_refl).
    cbn [app]. now rewrite <- app_assoc. }
  assert (Hplain : plainText text = true).
  { unfold text. rewrite HL.
    change (b :: gap ++ 91%N :: sev ++ 93%N :: M)
      with ([b] ++ gap ++ 91%N :: sev ++ 93%N :: M).
    apply (plainText_app [b]); [|apply (plainText_app gap); [|exact Hp]].
    - unfold plainText. cbn [forallb].
      apply N.eqb_neq in H60, H10. now rewrite H60, H10.
    - apply plainText_not_In; [assumption|].
      intros Hc. rewrite forallb_forall in Hgap. apply Hgap in Hc.
      discriminate. }
  assert (Hfind : parseFindings text = [findingOf sev msg position]).
  { unfold parseFindings, reviewLines.
    rewrite (replace_all_thinkRegex_plain _ _ Hplain), (split_on_plain _ Hplain).
    cbn [map filter]. rewrite Hkeep. cbn [map]. rewrite Htrim.
    rewrite (replace_first_bullet _ _ _ _ Hb Hgap). cbn [app].
    rewrite trim_entry, trimEnd_idem. cbn [collectFindings]. now rewrite Hm. }
  split; [exact Hfind|]. split.
  - rewrite _parseReviewItems_findings, Hfind.
    destruct position as [p|]; [|reflexivity].
    cbn [map itemOf new_ReviewItem positionOf command option_map findingOf
         f_lineNumber f_colNumber f_severity start_line start_character].
    destruct Hsafe as [Hs1 _].
    replace (if (0 <? N.of_nat (line p + 1))%N
             then minus1 (N.of_nat (line p + 1)) else 0%Z)
      with (Z.of_nat (line p))
      by (rewrite minus1_small by exact Hs1;
          destruct (0 <? N.of_nat (line p + 1))%N eqn:E;
          [lia|apply N.ltb_ge in E; lia]).
    now rewrite nat_N_Z.
  - rewrite updateDiagnostics_lines, (split_on_plain _ Hplain).
    cbn [map]. rewrite Htrim. cbn [filter length Nat.ltb Nat.leb flat_map].
    unfold diagnosticsOfLine.
    now rewrite (exec_severityRegex_not_bracket _ _ H91).
Qed.

Lemma bulleted_finding_tree_only_witness :
  let doc := mkDoc (js "let y = 2") (js "file:///a.ts") in
  let text := js "- [ERROR] null check missing [Ln 1, Col 4]" in
  parseFindings text
  = [mkFinding Error (js "null check missing") (Some 1%N) (Some 4%N)]
  /\ updateDiagnostics doc text = [].
Proof.
  pose proof (bulleted_finding_tree_only
                (mkDoc (js "let y = 2") (js "file:///a.ts"))
                45%N (js " ") (js "ERROR") (js " ") (js "null check missing")
                (Some (mkPosition 0 4))
                eq_refl eq_refl eq_refl) as H.
  cbv zeta in H.
  destruct H as [H1 [_ H3]].
  - vm_compute. intuition discriminate.
  - reflexivity.
  - split; [now left|]. split; [reflexivity|discriminate].
  - vm_compute. split; discriminate.
  - reflexivity.
  - split; [exact H1|exact H3].
Defined.

(* ================================================================== *)
(** ** Reasoning spans *)
(* ================================================================== *)

(** *** Matching does not depend on the index *)

Lemma star_loop_shift (g : bool) (step : cont -> cont) (d : nat) :
  (forall k k' s,
      (forall s1, k' (shift d s1) = option_map (shift d) (k s1)) ->
      step k' (shift d s) = option_map (shift d) (step k s)) ->
  forall fuel k k' s,
    (forall s1, k' (shift d s1) = option_map (shift d) (k s1)) ->
    star_loop g step k' fuel (shift d s)
    = option_map (shift d) (star_loop g step k fuel s).
Proof.
  intros Hstep. induction fuel as [|fuel IH]; intros k k' s Hk;
    cbn [star_loop]; [apply Hk|].
  assert (Hagain :
    step (fun s' => if pos (shift d s) <? pos s'
                    then star_loop g step k' fuel s' else None) (shift d s)
    = option_map (shift d)
        (step (fun s' => if pos s <? pos s'
                         then star_loop g step k fuel s' else None) s)).
  { apply Hstep. intros s1. cbn [shift pos].
    replace (pos s + d <? pos s1 + d) with (pos s <? pos s1).
    - destruct (pos s <? pos s1); [now apply IH|reflexivity].
    - destruct (pos s <? pos s1) eqn:E; symmetry.
      + apply Nat.ltb_lt in E. apply Nat.ltb_lt. lia.
      + apply Nat.ltb_ge in E. apply Nat.ltb_ge. lia. }
  rewrite Hagain, (Hk s). destruct g.
  - now destruct (step _ s).
  - destruct (k s); [reflexivity|]. now destruct (step _ s).
Qed.

Lemma m_shift (r : regex) (d : nat) :
  bolFree r = true ->
  forall k k' s,
    (forall s1, k' (shift d s1) = option_map (shift d) (k s1)) ->
    m r k' (shift d s) = option_map (shift d) (m r k s).
Proof.
  induction r as [|p|a IHa b IHb|a IHa b IHb|g r IH|i r IH| |];
    cbn [bolFree]; intros Hb k k' s Hk; cbn [m].
  - apply Hk.
  - cbn [shift rest pos caps]. destruct (rest s) as [|c t]; [reflexivity|].
    destruct (p c); [|reflexivity].
    exact (Hk (MState (S (pos s)) t (caps s))).
  - apply andb_true_iff in Hb. destruct Hb as [Ha Hb].
    apply (IHa Ha). intros s1. now apply (IHb Hb).
  - apply andb_true_iff in Hb. destruct Hb as [Ha Hb].
    rewrite (IHa Ha k k' s Hk), (IHb Hb k k' s Hk).
    now destruct (m a k s).
  - cbn [shift rest]. apply star_loop_shift; [|assumption].
    intros k0 k0' s0 Hk0. now apply IH.
  - apply (IH Hb). intros s1. cbn [shift pos rest caps].
    replace (pos s1 + d - (pos s + d)) with (pos s1 - pos s) by lia.
    exact (Hk (MState (pos s1) (rest s1)
                      ((i, firstn (pos s1 - pos s) (rest s)) :: caps s1))).
  - discriminate.
  - cbn [shift rest]. destruct (rest s); [apply Hk|reflexivity].
Qed.

Lemma match_at_shift (r : regex) (i : nat) (t : jsstring) :
  bolFree r = true ->
  match_at r i t = option_map (shift i) (match_at r 0 t).
Proof.
  intros Hb. unfold match_at.
  exact (m_shift r i Hb Some Some (MState 0 t []) (fun s1 => eq_refl)).
Qed.

Lemma match_at_consumes (r : regex) (i : nat) (t : jsstring) (e : mstate) :
  match_at r i t = Some e ->
  exists w, t = w ++ rest e /\ pos e = i + length w.
Proof.
  unfold match_at. intros H. apply m_reaches in H.
  destruct H as [s' [[[w [Hw Hp]] _] [= <-]]]. now exists w.
Qed.

(** *** The scan of [replace] with the [g] flag *)

Section Scan.
Variable r : regex.
Variable g : jsstring -> jsstring.
Hypothesis bolFree_r : bolFree r = true.
Hypothesis nonempty_r :
  forall i t e, match_at r i t = Some e -> i < pos e.

(** With enough fuel the scan is the one of [replace_all], whatever the
    index it starts at. *)
Lemma replace_all_from_any (n : nat) :
  forall t fuel i,
    length t <= n -> length t < fuel ->
    replace_all_from fuel r g i t = replace_all r g t.
Proof.
  unfold replace_all. induction n as [|n IH]; intros t fuel i Hn Hf.
  - destruct t; [|cbn [length] in Hn; lia].
    destruct fuel as [|fuel]; [lia|].
    assert (Hnone : forall j, match_at r j [] = None).
    { intros j. destruct (match_at r j []) as [e|] eqn:E; [|reflexivity].
      pose proof (nonempty_r _ _ _ E) as Hlt.
      apply match_at_consumes in E. destruct E as [w [Hw Hp]].
      destruct w; [|discriminate]. cbn [length] in Hp. lia. }
    now rewrite !replace_all_from_nil.
  - destruct t as [|x t]; [apply IH; [cbn [length]; lia|assumption]|].
    destruct fuel as [|fuel]; [lia|].
    cbn [length] in Hn, Hf.
    pose proof (match_at_shift r i (x :: t) bolFree_r) as Hi.
    destruct (match_at r 0 (x :: t)) as [e0|] eqn:E0; cbn [option_map] in Hi.
    + pose proof (nonempty_r _ _ _ E0) as Hlt0.
      pose proof (match_at_consumes _ _ _ _ E0) as [w [Hw Hp]].
      assert (Hlen : length (rest e0) < length (x :: t)).
      { apply (f_equal (@length N)) in Hw. rewrite length_app in Hw. lia. }
      cbn [length] in Hlen.
      rewrite (replace_all_from_hit r g fuel i (x :: t) _ Hi)
        by (cbn [shift pos]; lia).
      rewrite (replace_all_from_hit r g (length (x :: t)) 0 (x :: t) _ E0)
        by lia.
      cbn [shift pos rest].
      replace (pos e0 + i - i) with (pos e0 - 0) by lia.
      f_equal.
      rewrite (IH (rest e0) fuel (pos e0 + i)) by lia.
      rewrite (IH (rest e0) (length (x :: t)) (pos e0)) by (cbn [length]; lia).
      reflexivity.
    + rewrite (replace_all_from_miss r g fuel i x t Hi).
      rewrite (replace_all_from_miss r g (length (x :: t)) 0 x t E0).
      f_equal.
      rewrite (IH t (S fuel) (S i)) by lia.
      rewrite (IH t (S (length (x :: t))) 1) by (cbn [length]; lia).
      reflexivity.
Qed.

(** Code units at which no match starts are kept. *)
Lemma replace_all_skip (pre t : jsstring) :
  (forall c, In c pre -> forall i t', match_at r i (c :: t') = None) ->
  replace_all r g (pre ++ t) = pre ++ replace_all r g t.
Proof.
  intros Hpre.
  assert (H : forall fuel i,
             replace_all_from (S fuel) r g i (pre ++ t)
             = pre ++ replace_all_from (S fuel) r g (i + length pre) t).
  { intros fuel. induction pre as [|c pre IH]; intros i.
    - cbn [app length]. now rewrite Nat.add_0_r.
    - cbn [app length].
      rewrite replace_all_from_miss by (apply Hpre; now left).
      rewrite IH by (intros c' Hc'; apply Hpre; now right).
      now rewrite Nat.add_succ_r. }
  unfold replace_all at 1. rewrite H.
  f_equal. apply (replace_all_from_any (length t)); [lia|].
  rewrite length_app. lia.
Qed.

(** A match at the start is replaced, and the scan goes on after it. *)
Lemma replace_all_hit (t : jsstring) (e : mstate) :
  match_at r 0 t = Some e ->
  replace_all r g t = g (firstn (pos e) t) ++ replace_all r g (rest e).
Proof.
  intros He. pose proof (nonempty_r _ _ _ He) as Hlt.
  pose proof (match_at_consumes _ _ _ _ He) as [w [Hw Hp]].
  unfold replace_all at 1.
  rewrite (replace_all_from_hit r g (length t) 0 t e He) by lia.
  rewrite Nat.sub_0_r. f_equal.
  apply (replace_all_from_any (length (rest e))); [lia|].
  apply (f_equal (@length N)) in Hw. rewrite length_app in Hw. lia.
Qed.

End Scan.

(** *** The span pattern *)

(** A literal word, case-sensitive. *)
Lemma m_word_eq (w : jsstring) :
  forall (k : cont) (s : mstate),
    m (seq_of lit w) k s
    = if startsWith w (rest s)
      then k (MState (pos s + length w) (skipn (length w) (rest s)) (caps s))
      else None.
Proof.
  induction w as [|c w IH]; intros k s.
  - cbn [seq_of m startsWith length skipn]. now rewrite Nat.add_0_r, mstate_eta.
  - assert (Hone : forall k' s',
               m (lit c) k' s'
               = match rest s' with
                 | x :: t => if (c =? x)%N
                             then k' (MState (S (pos s')) t (caps s'))
                             else None
                 | [] => None
                 end).
    { intros k' s'. unfold lit. cbn [m]. destruct (rest s') as [|x t];
        [reflexivity|]. now rewrite N.eqb_sym. }
    destruct w as [|c' w].
    + cbn [seq_of]. rewrite Hone. destruct (rest s) as [|x t]; [reflexivity|].
      cbn [startsWith length skipn]. destruct (c =? x)%N; [|reflexivity].
      cbn [andb]. now rewrite Nat.add_1_r.
    + change (seq_of lit (c :: c' :: w))
        with (Seq (lit c) (seq_of lit (c' :: w))).
      rewrite m_Seq, Hone. destruct (rest s) as [|x t]; [reflexivity|].
      change (startsWith (c :: c' :: w) (x :: t))
        with ((c =? x)%N && startsWith (c' :: w) t).
      destruct (c =? x)%N; [|reflexivity].
      cbn [andb]. rewrite IH. cbn [rest pos caps].
      destruct (startsWith (c' :: w) t); [|reflexivity].
      change (length (c :: c' :: w)) with (S (length (c' :: w))).
      cbn [skipn]. now rewrite Nat.add_succ_r.
Qed.

Lemma startsWith_self (w t : jsstring) : startsWith w (w ++ t) = true.
Proof. apply startsWith_app. now exists t. Qed.

Lemma m_word_take (w : jsstring) (k : cont) (i : nat) (t : jsstring)
      (cs : list (nat * jsstring)) (e : mstate) :
  k (MState (i + length w) t cs) = Some e ->
  m (seq_of lit w) k (MState i (w ++ t) cs) = Some e.
Proof.
  intros Hk. rewrite m_word_eq. cbn [rest pos caps].
  now rewrite startsWith_self, skipn_app, skipn_all, Nat.sub_diag.
Qed.

Lemma startsWith_app_long (w X post : jsstring) :
  length w <= length X -> startsWith w (X ++ post) = startsWith w X.
Proof.
  revert X. induction w as [|a w IH]; intros X Hl; [reflexivity|].
  destruct X as [|b X]; [cbn [length] in Hl; lia|].
  cbn [app startsWith]. rewrite IH; [reflexivity|].
  cbn [length] in Hl. lia.
Qed.

Lemma thinkRegex_bolFree : bolFree thinkRegex = true.
Proof. reflexivity. Qed.

Lemma thinkRegex_head (i : nat) (c : N) (t : jsstring) :
  c <> 60%N -> match_at thinkRegex i (c :: t) = None.
Proof.
  intros Hc.
  change thinkRegex
    with (Seq (Seq (lit 60) (seq_of lit (js "think>")))
              (Seq (Star false any) (word "</think>"))).
  unfold match_at, lit. cbn [m rest].
  apply N.eqb_neq in Hc. now rewrite Hc.
Qed.

Lemma thinkRegex_nonempty (i : nat) (t : jsstring) (e : mstate) :
  match_at thinkRegex i t = Some e -> i < pos e.
Proof.
  change thinkRegex
    with (Seq (Seq (lit 60) (seq_of lit (js "think>")))
              (Seq (Star false any) (word "</think>"))).
  unfold match_at, lit. cbn [m rest pos caps].
  destruct t as [|c t]; [discriminate|].
  destruct (c =? 60)%N; [|discriminate].
  intros H. apply m_reaches in H. destruct H as [s1 [[[w [_ Hp]] _] H]].
  change (m (Seq (Star false any) (word "</think>")) Some s1 = Some e) in H.
  apply m_reaches in H. destruct H as [s2 [[[w2 [_ Hp2]] _] [= <-]]].
  cbn [pos] in Hp. lia.
Qed.

(** A span that closes at its first closing tag is one match. *)
Lemma match_at_thinkSpan (body post : jsstring) :
  indexOf (js "</think>") (body ++ js "</think>") = Some (length body) ->
  exists n, match_at thinkRegex 0 (thinkSpan body ++ post)
            = Some (MState n post []).
Proof.
  intros Hidx. apply indexOf_from_spec in Hidx.
  destruct Hidx as [a [b [Hs [Hlen Hfirst]]]]. cbn [Nat.add] in Hlen.
  rewrite <- Hlen in Hfirst. clear a b Hs Hlen.
  eexists. unfold match_at, thinkRegex, word, thinkSpan.
  rewrite <- !app_assoc.
  rewrite m_Seq. apply m_word_take.
  rewrite m_Seq. cbn [m rest]. fold (seq_of lit (js "</think>")).
  apply star_lazy_first.
  - apply forallb_forall. reflexivity.
  - lia.
  - intros j Hj. rewrite m_word_eq. cbn [rest].
    rewrite app_assoc, startsWith_app_long.
    + replace (skipn j body ++ js "</think>")
        with (skipn j (body ++ js "</think>"))
        by (rewrite skipn_app; replace (j - length body) with 0 by lia;
            reflexivity).
      now rewrite Hfirst.
    + rewrite length_app. cbn [length js list_ascii_of_string map]. lia.
  - apply m_word_take. reflexivity.
Qed.

Lemma replace_all_thinkSpan (pre body post : jsstring) :
  ~ In 60%N pre ->
  indexOf (js "</think>") (body ++ js "</think>") = Some (length body) ->
  replace_all thinkRegex (fun _ => []) (pre ++ thinkSpan body ++ post)
  = replace_all thinkRegex (fun _ => []) (pre ++ post).
Proof.
  intros Hpre Hidx.
  assert (Hskip : forall c, In c pre ->
                            forall i t', match_at thinkRegex i (c :: t') = None).
  { intros c Hc i t'. apply thinkRegex_head. intros ->. now apply Hpre. }
  rewrite !(replace_all_skip thinkRegex _ thinkRegex_bolFree thinkRegex_nonempty
                             pre _ Hskip).
  f_equal. destruct (match_at_thinkSpan body post Hidx) as [n Hn].
  now rewrite (replace_all_hit thinkRegex _ thinkRegex_bolFree
                               thinkRegex_nonempty _ _ Hn).
Qed.

(** X19: reasoning spans are invisible to the tree.  A span from
    [<think>] to the first [</think>] after it, wherever it stands in the
    review text after text without [<], contributes nothing: the lines, the
    findings and the items are those of the text with the span cut out,
    whatever the span holds and whatever follows it. *)
Theorem think_span_ignored
        (pre body post : jsstring) (uri : option jsstring) :
  ~ In 60%N pre ->
  indexOf (js "</think>") (body ++ js "</think>") = Some (length body) ->
  let text := pre ++ thinkSpan body ++ post in
  reviewLines text = reviewLines (pre ++ post)
  /\ parseFindings text = parseFindings (pre ++ post)
  /\ _parseReviewItems text uri = _parseReviewItems (pre ++ post) uri.
Proof.
  intros Hpre Hidx text.
  assert (H : reviewLines text = reviewLines (pre ++ post)).
  { unfold reviewLines, text. now rewrite replace_all_thinkSpan. }
  split; [exact H|]. split.
  - unfold parseFindings. now rewrite H.
  - unfold _parseReviewItems. now rewrite H.
Qed.

Lemma think_span_ignored_witness :
  parseFindings
    (js "<think>the model weighs" ++ [10%N] ++ js "[ERROR] not a finding"
     ++ js "</think>" ++ [10%N] ++ js "[HINT] rename x [Ln 3]")
  = [mkFinding Hint (js "rename x") (Some 3%N) None].
Proof.
  pose proof (think_span_ignored
                []
                (js "the model weighs" ++ [10%N] ++ js "[ERROR] not a finding")
                ([10%N] ++ js "[HINT] rename x [Ln 3]") None
                ltac:(intros []) eq_refl) as H.
  cbv zeta in H. destruct H as [_ [H _]].
  etransitivity; [exact H|]. vm_compute. reflexivity.
Defined.

(* ================================================================== *)
(** ** What is reviewed, and what a response comes to *)
(* ================================================================== *)

Import Response.

(** X20: the exclusion rules.  A file outside every workspace folder (or
    with no workspace open) is never excluded.  For a file inside one, the
    path matched is relative to the first folder that is a prefix of its
    path and holds no backslash; a match of an exclude pattern excludes the
    file whatever the include patterns say; with include patterns set, a
    file that matches none of them is excluded; and no other file is.  An
    excluded file is reviewed neither by a trigger nor by the command, and
    no time is recorded for it. *)
Theorem exclusion_rules (env : Environment) (doc : DocumentInfo)
        (visible : list jsstring) (now : Z) (lastRunMap : JSMap Z) :
  let fsPath := docFsPath doc in
  let excluded := shouldExclude env fsPath in
  match match workspaceFolders env with
        | Some folders =>
            find (fun folderPath => startsWith folderPath fsPath) folders
        | None => None
        end with
  | None => excluded = false
  | Some folderPath =>
      let relativePath :=
        map (fun c => if (c =? 92)%N then 47%N else c)
            (relative env folderPath fsPath) in
      let included :=
        existsb (minimatch env relativePath) (INCLUDE_PATTERNS env) in
      let matched :=
        existsb (minimatch env relativePath) (EXCLUDE_PATTERNS env) in
      ~ In 92%N relativePath
      /\ excluded
         = (matched
            || negb (length (INCLUDE_PATTERNS env) =? 0) && negb included)
  end
  /\ (if excluded
      then lintIfNeeded env visible now doc lastRunMap = (false, lastRunMap)
           /\ reviewCurrentFile env doc lastRunMap = (false, lastRunMap)
      else True).
Proof.
  cbv zeta. split.
  - unfold shouldExclude.
    destruct (workspaceFolders env) as [[|f fs]|]; [reflexivity| |reflexivity].
    destruct (find _ (f :: fs)) as [folderPath|]; [|reflexivity].
    rewrite replace_backslashes. split.
    + intros Hin. apply in_map_iff in Hin. destruct Hin as [c [Hc _]].
      destruct (c =? 92)%N eqn:E; [discriminate|].
      apply N.eqb_neq in E. congruence.
    + destruct (INCLUDE_PATTERNS env) as [|i0 is0];
        cbn [length Nat.ltb Nat.leb Nat.eqb negb andb].
      * now rewrite orb_false_r.
      * destruct (existsb _ (i0 :: is0)); cbn [negb];
          [now rewrite orb_false_r|now rewrite orb_true_r].
  - unfold lintIfNeeded, reviewCurrentFile.
    destruct (shouldExclude env (docFsPath doc)); [|exact I].
    destruct (isUntitled doc); [now split|].
    destruct (negb (isProgrammingLanguage (languageId doc))); now split.
Qed.



(* ================================================================== *)
(** ** The tree and the diagnostics over a session *)
(* ================================================================== *)

Import Session.




